(** * Zava workshop toolkit: a shallow embedding of the checked code paths

    The development follows the repository's layout.

    - [PyStr]: the Python string primitives the sources rely on
      ([upper], [lower], [split], [replace], [rfind], slices).
    - [Sku]: [data/database/generate_skus.py].
    - [StreamHandler]: [src/python/workshop/stream_event_handler.py].
    - [WebApp]: [src/shared/webapp/app.py].
    - [Rls]: the row-level-security policies created by
      [data/database/generate_zava_postgres.py].
    - [Seeder]: product and order seeding of both database generators.
    - [Similarity]: [search_products_by_similarity] of the sales-analysis
      schema/query service.
    - [SkuReport]: the analysis pass of [generate_skus.py].
    - [HandlerLifecycle]: the other callbacks of the stream handler.
    - [Provider]: table names, relationship types and the metadata
      cache of the schema/query service.
    - [Generator], [Customers], [OrderSeeder]: batches, dates,
      customers, orders and order items of
      [data/database/generate_zava_postgres.py].
    - [Config]: [src/python/workshop/config.py] and
      [src/python/mcp_server/sales_analysis/config.py].

    Python [str] values are modelled as [string] (sequences of 8-bit
    characters); case conversion and whitespace are the ASCII ones.
    Python [float] is IEEE-754 binary64, modelled by Rocq's primitive
    floats where a claim depends on the rounding of the machine. *)

From Stdlib Require Import ZArith NArith List String Ascii Bool Lia.
From Stdlib Require Import DecimalString DecimalN DecimalPos Strings.Byte.
From Stdlib Require Import QArith Qround Qabs Lqa.
From Stdlib Require Import Floats Uint63.
From Stdlib Require Import Sorted.
Import ListNotations.

#[global] Set Warnings "-inexact-float".

Open Scope string_scope.

(* ------------------------------------------------------------------ *)
(** * Python string primitives *)

Module PyStr.

Definition is_upper (c : ascii) : bool :=
  let n := nat_of_ascii c in (65 <=? n)%nat && (n <=? 90)%nat.

Definition is_lower (c : ascii) : bool :=
  let n := nat_of_ascii c in (97 <=? n)%nat && (n <=? 122)%nat.

Definition upper_char (c : ascii) : ascii :=
  if is_lower c then ascii_of_nat (nat_of_ascii c - 32) else c.

Definition lower_char (c : ascii) : ascii :=
  if is_upper c then ascii_of_nat (nat_of_ascii c + 32) else c.

Fixpoint map_str (f : ascii -> ascii) (s : string) : string :=
  match s with
  | EmptyString => EmptyString
  | String c r => String (f c) (map_str f r)
  end.

Fixpoint filter_str (p : ascii -> bool) (s : string) : string :=
  match s with
  | EmptyString => EmptyString
  | String c r => if p c then String c (filter_str p r) else filter_str p r
  end.

(** [s.upper()] and [s.lower()]. *)
Definition upper : string -> string := map_str upper_char.
Definition lower : string -> string := map_str lower_char.

(** The characters [str.split()] and [str.strip()] treat as blank. *)
Definition is_space (c : ascii) : bool :=
  let n := nat_of_ascii c in
  ((9 <=? n)%nat && (n <=? 13)%nat) || ((28 <=? n)%nat && (n <=? 32)%nat).

(** [s.replace(c, by)] for a one-character pattern. *)
Fixpoint replace_char (c : ascii) (by_ : string) (s : string) : string :=
  match s with
  | EmptyString => EmptyString
  | String d r =>
      if Ascii.eqb c d then by_ ++ replace_char c by_ r
      else String d (replace_char c by_ r)
  end.

(** [s.split()]: maximal runs of non-blank characters, in order.
    [cur] holds the run being read, reversed. *)
Fixpoint rev_str (acc s : string) : string :=
  match s with
  | EmptyString => acc
  | String c r => rev_str (String c acc) r
  end.

Definition close_word (cur : string) (acc : list string) : list string :=
  match cur with
  | EmptyString => acc
  | _ => rev_str EmptyString cur :: acc
  end.

Fixpoint split_ws_aux (cur : string) (acc : list string) (s : string)
  : list string :=
  match s with
  | EmptyString => rev (close_word cur acc)
  | String c r =>
      if is_space c then split_ws_aux EmptyString (close_word cur acc) r
      else split_ws_aux (String c cur) acc r
  end.

Definition split_ws (s : string) : list string :=
  split_ws_aux EmptyString [] s.

(** [s.split(sep)] for a one-character separator: never empty. *)
Fixpoint split_on_aux (sep : ascii) (cur : string) (s : string)
  : list string :=
  match s with
  | EmptyString => [rev_str EmptyString cur]
  | String c r =>
      if Ascii.eqb c sep then rev_str EmptyString cur :: split_on_aux sep EmptyString r
      else split_on_aux sep (String c cur) r
  end.

Definition split_on (sep : ascii) (s : string) : list string :=
  split_on_aux sep EmptyString s.

(** [s[:n]] and [s[n:]]. *)
Fixpoint take (n : nat) (s : string) : string :=
  match n, s with
  | S k, String c r => String c (take k r)
  | _, _ => EmptyString
  end.

Fixpoint drop (n : nat) (s : string) : string :=
  match n, s with
  | S k, String _ r => drop k r
  | _, _ => s
  end.

(** [s[0]]: [None] stands for Python's [IndexError]. *)
Definition first_char (s : string) : option string :=
  match s with
  | EmptyString => None
  | String c _ => Some (String c EmptyString)
  end.

(** [prefix p s] is [s.startswith(p)], from the Standard Library. *)
Definition startswith (p s : string) : bool := String.prefix p s.

(** [p in s] for strings. *)
Fixpoint contains (p s : string) : bool :=
  String.prefix p s ||
  match s with
  | EmptyString => false
  | String _ r => contains p r
  end.

(** [s.rfind(p)]: the highest index where [p] starts, or [-1]. *)
Fixpoint rfind_from (p s : string) (i : Z) : Z :=
  match s with
  | EmptyString => if String.prefix p EmptyString then i else (-1)%Z
  | String _ r =>
      let later := rfind_from p r (i + 1)%Z in
      if (later =? -1)%Z
      then (if String.prefix p s then i else (-1)%Z)
      else later
  end.

Definition rfind (p s : string) : Z := rfind_from p s 0%Z.

Definition len (s : string) : Z := Z.of_nat (String.length s).

(** [s.lstrip()], [s.rstrip()] and [s.strip()]. *)
Fixpoint lstrip (s : string) : string :=
  match s with
  | EmptyString => EmptyString
  | String c r => if is_space c then lstrip r else s
  end.

Definition rstrip (s : string) : string :=
  rev_str EmptyString (lstrip (rev_str EmptyString s)).

Definition strip (s : string) : string := rstrip (lstrip s).

(** Truthiness of a string: [bool(s)]. *)
Definition nonempty (s : string) : bool :=
  match s with EmptyString => false | _ => true end.

(** The characters that cannot be written inside a literal. *)
Definition nl : string := String "010"%char EmptyString.
Definition dquote : string := String "034"%char EmptyString.

(** [format(n, "03d")]: decimal, zero-padded on the left to three digits. *)
Definition decimal (n : N) : string :=
  NilEmpty.string_of_uint (N.to_uint n).

Definition format_03d (n : N) : string :=
  let d := decimal n in
  match String.length d with
  | 1%nat => "00" ++ d
  | 2%nat => "0" ++ d
  | _ => d
  end.

End PyStr.

(* ------------------------------------------------------------------ *)
(** * The SKU assigner ([generate_skus.py]) *)

Module Sku.
Import PyStr.

Definition bind {A B} (x : option A) (f : A -> option B) : option B :=
  match x with Some a => f a | None => None end.

Notation "'do' x <- e ; k" := (bind e (fun x => k))
  (at level 10, x name, e at level 100, k at level 200).

Definition stopwords : list string := ["AND"; "THE"; "OF"; "FOR"].

Definition in_list (x : string) (l : list string) : bool :=
  existsb (String.eqb x) l.

(** [generate_category_code]. [None] is the [IndexError] Python raises
    on [words[0]] when the category holds no word at all. *)
Definition generate_category_code (category : string) : option string :=
  let clean_category := replace_char "&"%char "AND" (upper category) in
  let words := split_ws clean_category in
  match words with
  | [w] => Some (take 2 w)
  | [w0; w1] =>
      do a <- first_char w0; do b <- first_char w1; Some (a ++ b)
  | _ =>
      let significant_words :=
        filter (fun w => negb (in_list w stopwords)) words in
      match significant_words with
      | s0 :: s1 :: _ =>
          do a <- first_char s0; do b <- first_char s1; Some (a ++ b)
      | _ =>
          do w0 <- nth_error words 0; do w1 <- nth_error words 1;
          do a <- first_char w0; do b <- first_char w1; Some (a ++ b)
      end
  end.

Definition is_vowel (c : ascii) : bool :=
  existsb (Ascii.eqb c) ["A"; "E"; "I"; "O"; "U"]%char.

(** [generate_type_code]. *)
Definition generate_type_code (product_type : string) : string :=
  let clean_type := filter_str is_upper (upper product_type) in
  if (String.length clean_type <=? 3)%nat then clean_type
  else if (String.length clean_type <=? 6)%nat then take 3 clean_type
  else
    let consonants := filter_str (fun c => negb (is_vowel c)) (drop 1 clean_type) in
    if (2 <=? String.length consonants)%nat
    then take 1 clean_type ++ take 2 consonants
    else take 3 clean_type.

(** [generate_sku]. *)
Definition generate_sku (category product_type : string) (number : N)
  : option string :=
  do category_code <- generate_category_code category;
  Some (category_code ++ generate_type_code product_type ++ format_03d number).


(** ** The catalog, as [json.load] returns it

    A JSON object is an association list in file order (Python dicts
    keep insertion order).  Only the fields the assigner reads are kept:
    a product's [sku] and [name]. *)

Record product := mkProduct {
  p_sku : option string;
  p_name : option string
}.

(** An element of a product list: a dict, or any other JSON value
    (the twelve floats of a seasonal-multiplier array, for one). *)
Inductive item :=
| Dict (p : product)
| NotDict.

(** A value under a category: a list, or any other JSON value. *)
Inductive type_value :=
| IsList (products : list item)
| NotList.

Definition category_data := list (string * type_value).

(** [product_data.get('main_categories', {})]. *)
Definition catalog := list (string * category_data).

(** Truthiness of [product.get('sku')]: absent and empty are both false. *)
Definition sku_of (p : product) : option string :=
  match p_sku p with
  | Some EmptyString => None
  | other => other
  end.

(** A Python [set] of strings: membership and insertion. *)
Definition set_add (x : string) (l : list string) : list string :=
  if in_list x l then l else x :: l.

(** [collect_existing_skus]. *)
Definition collect_products (acc : list string) (products : list item)
  : list string :=
  fold_left (fun acc it =>
    match it with
    | Dict p => match sku_of p with Some k => set_add k acc | None => acc end
    | NotDict => acc
    end) products acc.

Definition collect_category (acc : list string) (data : category_data)
  : list string :=
  fold_left (fun acc kv =>
    match snd kv with
    | IsList products => collect_products acc products
    | NotList => acc
    end) data acc.

Definition collect_existing_skus (product_data : catalog) : list string :=
  fold_left (fun acc kv => collect_category acc (snd kv)) product_data [].

Record assignment := mkAssignment {
  a_category : string;
  a_product_type : string;
  a_product_index : nat;
  a_product_name : string;
  generated_sku : string
}.

(** The local variables of [generate_and_assign_skus], and the lines it
    sends to [logging.error]. *)
Record run_state := mkState {
  existing_skus : list string;
  sku_counters : list (string * N);
  assignment_log : list assignment;
  skus_generated : N;
  skus_assigned : N;
  conflicts_resolved : N;
  error_log : list string
}.

(** [sku_counters] is a [defaultdict(int)]. *)
Fixpoint counter_get (key : string) (m : list (string * N)) : N :=
  match m with
  | [] => 0%N
  | (k, v) :: r => if String.eqb k key then v else counter_get key r
  end.

Fixpoint counter_incr (key : string) (m : list (string * N))
  : list (string * N) :=
  match m with
  | [] => [(key, 1%N)]
  | (k, v) :: r =>
      if String.eqb k key then (k, (v + 1)%N) :: r
      else (k, v) :: counter_incr key r
  end.

Definition bump (key : string) (s : run_state) : run_state :=
  mkState (existing_skus s) (counter_incr key (sku_counters s))
          (assignment_log s) (skus_generated s) (skus_assigned s)
          (conflicts_resolved s) (error_log s).

Definition count_conflict (s : run_state) : run_state :=
  mkState (existing_skus s) (sku_counters s) (assignment_log s)
          (skus_generated s) (skus_assigned s)
          (conflicts_resolved s + 1)%N (error_log s).

Definition log_error (msg : string) (s : run_state) : run_state :=
  mkState (existing_skus s) (sku_counters s) (assignment_log s)
          (skus_generated s) (skus_assigned s)
          (conflicts_resolved s) (error_log s ++ [msg]).

(** The [while final_sku in existing_skus] loop.  The Python variable
    [counter] starts at 1 and the loop leaves through [break] once it
    exceeds 1000; [remaining] is [1000 - counter], so the loop is entered
    with [remaining = 999] and the [break] is the case [remaining = 0]. *)
Fixpoint ensure_unique (remaining : nat) (category product_type key : string)
    (s : run_state) (final_sku : string) : option (run_state * string) :=
  if in_list final_sku (existing_skus s) then
    let s1 := bump key (count_conflict s) in
    do next_sku <- generate_sku category product_type
                     (counter_get key (sku_counters s1));
    match remaining with
    | O =>
        Some (log_error ("Could not generate unique SKU for " ++ key) s1,
              next_sku)
    | S r => ensure_unique r category product_type key s1 next_sku
    end
  else Some (s, final_sku).

Definition set_sku (p : product) (k : string) : product :=
  mkProduct (Some k) (p_name p).

Definition name_or (default : string) (p : product) : string :=
  match p_name p with Some n => n | None => default end.

(** The body of [for i, product in enumerate(products)]. *)
Definition assign_product (dry_run : bool) (category product_type : string)
    (i : nat) (it : item) (s : run_state) : option (run_state * item) :=
  match it with
  | NotDict => Some (s, it)
  | Dict p =>
      match sku_of p with
      | Some _ => Some (s, it)
      | None =>
          let key := category ++ "/" ++ product_type in
          let s1 := bump key s in
          do base_sku <- generate_sku category product_type
                           (counter_get key (sku_counters s1));
          do r <- ensure_unique 999 category product_type key s1 base_sku;
          let (s2, final_sku) := r in
          let entry := mkAssignment category product_type i
                         (name_or "Unknown" p) final_sku in
          Some (mkState (set_add final_sku (existing_skus s2))
                        (sku_counters s2)
                        (assignment_log s2 ++ [entry])
                        (skus_generated s2 + 1)%N
                        (if dry_run then skus_assigned s2
                         else (skus_assigned s2 + 1)%N)
                        (conflicts_resolved s2)
                        (error_log s2),
                if dry_run then it else Dict (set_sku p final_sku))
      end
  end.

Fixpoint assign_products (dry_run : bool) (category product_type : string)
    (i : nat) (products : list item) (s : run_state)
  : option (run_state * list item) :=
  match products with
  | [] => Some (s, [])
  | it :: rest =>
      do r <- assign_product dry_run category product_type i it s;
      let (s1, it') := r in
      do r' <- assign_products dry_run category product_type (S i) rest s1;
      let (s2, rest') := r' in
      Some (s2, it' :: rest')
  end.

Fixpoint assign_category (dry_run : bool) (category : string)
    (data : category_data) (s : run_state)
  : option (run_state * category_data) :=
  match data with
  | [] => Some (s, [])
  | (product_type, NotList) :: rest =>
      do r <- assign_category dry_run category rest s;
      let (s1, rest') := r in
      Some (s1, (product_type, NotList) :: rest')
  | (product_type, IsList products) :: rest =>
      do r <- assign_products dry_run category product_type 0 products s;
      let (s1, products') := r in
      do r' <- assign_category dry_run category rest s1;
      let (s2, rest') := r' in
      Some (s2, (product_type, IsList products') :: rest')
  end.

Fixpoint assign_catalog (dry_run : bool) (product_data : catalog)
    (s : run_state) : option (run_state * catalog) :=
  match product_data with
  | [] => Some (s, [])
  | (category, data) :: rest =>
      do r <- assign_category dry_run category data s;
      let (s1, data') := r in
      do r' <- assign_catalog dry_run rest s1;
      let (s2, rest') := r' in
      Some (s2, (category, data') :: rest')
  end.

(** [generate_and_assign_skus]: the final state (statistics, assignment
    log, logged errors) and the catalog as the call leaves it.  [None] is
    an exception escaping the call. *)
Definition generate_and_assign_skus (product_data : catalog) (dry_run : bool)
  : option (run_state * catalog) :=
  assign_catalog dry_run product_data
    (mkState (collect_existing_skus product_data) [] [] 0 0 0 []).

(** The SKUs a run proposes, in assignment order. *)
Definition proposed_skus (s : run_state) : list string :=
  map generated_sku (assignment_log s).

(** A catalog with one bucket whose SKUs [HTHMM001] to [HTHMM1001] are
    taken, followed by one product that still lacks a SKU. *)
Definition taken_hammers : list item :=
  map (fun n => Dict (mkProduct
                        (Some ("HTHMM" ++ format_03d (N.of_nat n)))
                        (Some "Hammer")))
      (seq 1 1001).

Definition crowded_catalog : catalog :=
  [("HAND TOOLS",
    [("HAMMERS",
      IsList (taken_hammers ++ [Dict (mkProduct None (Some "Mallet"))]))])].

End Sku.

(* ------------------------------------------------------------------ *)
(** * The streaming event handler ([stream_event_handler.py]) *)

Module StreamHandler.
Import PyStr.

(** ** The pattern [!?\[[^\]]*\]\(sandbox:/mnt/data[^)]*\)]

    Both starred classes exclude the character that must follow them, so
    the greedy run is the only way to match and backtracking over a star
    never finds another match.  [!?] is tried non-empty first. *)

Fixpoint skip_until (stop : ascii) (s : string) : string :=
  match s with
  | EmptyString => EmptyString
  | String c r => if Ascii.eqb c stop then s else skip_until stop r
  end.

Fixpoint strip_prefix (p s : string) : option string :=
  match p, s with
  | EmptyString, _ => Some s
  | String a p', String b s' =>
      if Ascii.eqb a b then strip_prefix p' s' else None
  | String _ _, EmptyString => None
  end.

(** A match of [\[[^\]]*\]\(sandbox:/mnt/data[^)]*\)] at the head of
    [s]: what follows the match. *)
Definition match_link (s : string) : option string :=
  match s with
  | String "[" r =>
      match skip_until "]" r with
      | String "]" r1 =>
          match strip_prefix "(sandbox:/mnt/data" r1 with
          | Some r2 =>
              match skip_until ")" r2 with
              | String ")" r3 => Some r3
              | _ => None
              end
          | None => None
          end
      | _ => None
      end
  | _ => None
  end.

(** [markdown_pattern.match] at the head of [s]. *)
Definition match_at (s : string) : option string :=
  match s with
  | String "!" r =>
      match match_link r with
      | Some rest => Some rest
      | None => match_link s
      end
  | _ => match_link s
  end.

(** [list(markdown_pattern.finditer(s))] is non-empty. *)
Fixpoint has_match (s : string) : bool :=
  match match_at s with
  | Some _ => true
  | None =>
      match s with
      | EmptyString => false
      | String _ r => has_match r
      end
  end.

(** [markdown_pattern.sub("", s)]: scanning resumes after each match,
    which is never empty, so [S (length s)] steps are enough. *)
Fixpoint sub_steps (steps : nat) (s : string) : string :=
  match steps with
  | O => s
  | S k =>
      match s with
      | EmptyString => EmptyString
      | String c r =>
          match match_at s with
          | Some rest => sub_steps k rest
          | None => String c (sub_steps k r)
          end
      end
  end.

Definition sub (s : string) : string := sub_steps (S (String.length s)) s.

(** ** The handler *)

Inductive queue_item :=
| Text (content : string)
| File (file_info : string).

Record handler := mkHandler {
  assistant_message : string;
  token_queue : list queue_item;
  is_closed : bool;
  text_buffer : string
}.

Definition max_buffer_size : Z := 1000.

(** [__init__]. *)
Definition init : handler := mkHandler "" [] false "".

Definition set_buffer (b : string) (h : handler) : handler :=
  mkHandler (assistant_message h) (token_queue h) (is_closed h) b.

(** [put_safely]; its boolean result is ignored by every caller here. *)
Definition put_safely (x : queue_item) (h : handler) : handler :=
  if is_closed h then h
  else mkHandler (assistant_message h) (token_queue h ++ [x])
                 (is_closed h) (text_buffer h).

(** [_process_buffered_text]. *)
Definition process_buffered_text (h : handler) : handler :=
  let buf := text_buffer h in
  if negb (nonempty buf) then h
  else
    let h1 :=
      if has_match buf then
        let filtered_text := sub buf in
        let h' := if nonempty filtered_text
                  then put_safely (Text filtered_text) h else h in
        set_buffer "" h'
      else
        let image_start_idx := rfind "![" buf in
        let link_start_idx := rfind "[" buf in
        let exclamation_idx := rfind "!" buf in
        let partial_start_idx :=
          if negb (image_start_idx =? -1)%Z then image_start_idx
          else if negb (link_start_idx =? -1)%Z then
            (if (image_start_idx =? -1)%Z
                || (image_start_idx + 1 <? link_start_idx)%Z
             then link_start_idx else (-1)%Z)
          else if negb (exclamation_idx =? -1)%Z
                  && (exclamation_idx =? len buf - 1)%Z
          then exclamation_idx
          else (-1)%Z in
        if negb (partial_start_idx =? -1)%Z then
          let text_to_send := take (Z.to_nat partial_start_idx) buf in
          let h' := set_buffer (drop (Z.to_nat partial_start_idx) buf) h in
          if nonempty text_to_send
          then put_safely (Text text_to_send) h' else h'
        else set_buffer "" (put_safely (Text buf) h)
    in
    if (max_buffer_size <? len (text_buffer h1))%Z
    then set_buffer "" (put_safely (Text (text_buffer h1)) h1)
    else h1.

(** [on_message_delta], on the text of the delta. *)
Definition on_message_delta (delta_text : string) (h : handler) : handler :=
  if nonempty delta_text then
    process_buffered_text
      (mkHandler (assistant_message h ++ delta_text) (token_queue h)
                 (is_closed h) (text_buffer h ++ delta_text))
  else h.

(** [on_done]. *)
Definition on_done (h : handler) : handler :=
  if nonempty (text_buffer h) then
    let filtered_text := sub (text_buffer h) in
    let h' := if nonempty filtered_text
              then put_safely (Text filtered_text) h else h in
    set_buffer "" h'
  else h.

(** A whole turn: the deltas in order, then the end of the stream. *)
Definition feed (deltas : list string) (h : handler) : handler :=
  fold_left (fun h d => on_message_delta d h) deltas h.

Definition run (deltas : list string) : handler :=
  on_done (feed deltas init).

(** The contents of the text items of a queue, in order. *)
Fixpoint emitted_text (q : list queue_item) : list string :=
  match q with
  | [] => []
  | Text c :: r => c :: emitted_text r
  | File _ :: r => emitted_text r
  end.

Definition emitted (deltas : list string) : list string :=
  emitted_text (token_queue (run deltas)).

Definition image_ref : string := "![img](sandbox:/mnt/data/x.png)".

Definition message : string := "see " ++ image_ref ++ " done".

End StreamHandler.

(* ------------------------------------------------------------------ *)
(** * The web chat relay ([shared/webapp/app.py]) *)

Module WebApp.
Import PyStr.

(** ** JSON values, as [json.loads] returns them and [json.dumps] prints them

    A number is kept as the text Python prints for it, with whether it is
    zero (all the relay ever asks of a number is its truth value). *)

#[local] Unset Elimination Schemes.
Inductive json :=
| JNull
| JBool (b : bool)
| JNum (text : string) (zero : bool)
| JStr (s : string)
| JArr (items : list json)
| JObj (fields : list (string * json)).
#[local] Set Elimination Schemes.

(** [bool(v)]. *)
Definition truthy (v : json) : bool :=
  match v with
  | JNull => false
  | JBool b => b
  | JNum _ zero => negb zero
  | JStr s => nonempty s
  | JArr items => match items with [] => false | _ => true end
  | JObj fields => match fields with [] => false | _ => true end
  end.

(** [type(v).__name__]; a number printed with a fraction, an exponent or
    as [NaN]/[Infinity] is a [float]. *)
Definition type_name (v : json) : string :=
  match v with
  | JNull => "NoneType"
  | JBool _ => "bool"
  | JNum text _ =>
      if contains "." text || contains "e" text || contains "N" text
         || contains "I" text
      then "float" else "int"
  | JStr _ => "str"
  | JArr _ => "list"
  | JObj _ => "dict"
  end.

(** [d.get(key)] on a dict; an absent key gives [None], which is falsy
    like [JNull]. *)
Fixpoint dict_get (key : string) (fields : list (string * json)) : json :=
  match fields with
  | [] => JNull
  | (k, v) :: r => if String.eqb k key then v else dict_get key r
  end.

Definition hex_digit (n : nat) : ascii :=
  if (n <? 10)%nat then ascii_of_nat (48 + n) else ascii_of_nat (87 + n).

(** One character of a string under [json.dumps] with [ensure_ascii]. *)
Definition escape_char (c : ascii) : string :=
  let n := nat_of_ascii c in
  if Ascii.eqb c "034" then "\" ++ dquote
  else if Ascii.eqb c "\" then "\\"
  else if Ascii.eqb c "010" then "\n"
  else if Ascii.eqb c "013" then "\r"
  else if Ascii.eqb c "009" then "\t"
  else if Ascii.eqb c "008" then "\b"
  else if Ascii.eqb c "012" then "\f"
  else if (32 <=? n)%nat && (n <=? 126)%nat then String c EmptyString
  else "\u00" ++ String (hex_digit (n / 16)) (String (hex_digit (n mod 16)) EmptyString).

Fixpoint escape (s : string) : string :=
  match s with
  | EmptyString => EmptyString
  | String c r => escape_char c ++ escape r
  end.

Definition dumps_str (s : string) : string := dquote ++ escape s ++ dquote.

(** [json.dumps(v)] with the default separators. *)
Fixpoint json_dumps (v : json) : string :=
  match v with
  | JNull => "null"
  | JBool true => "true"
  | JBool false => "false"
  | JNum text _ => text
  | JStr s => dumps_str s
  | JArr items =>
      "[" ++ (fix go (l : list json) : string :=
                match l with
                | [] => ""
                | x :: r =>
                    match r with
                    | [] => json_dumps x
                    | _ => json_dumps x ++ ", " ++ go r
                    end
                end) items ++ "]"
  | JObj fields =>
      "{" ++ (fix go (l : list (string * json)) : string :=
                match l with
                | [] => ""
                | (k, x) :: r =>
                    match r with
                    | [] => dumps_str k ++ ": " ++ json_dumps x
                    | _ => dumps_str k ++ ": " ++ json_dumps x ++ ", " ++ go r
                    end
                end) fields ++ "}"
  end.

(** ** Server-sent events *)

(** [f"data: {json.dumps(payload)}\n\n"]. *)
Definition sse (payload : json) : string :=
  "data: " ++ json_dumps payload ++ nl ++ nl.

(** The literal [data: [DONE]\n\n]. *)
Definition done_event : string := "data: [DONE]" ++ nl ++ nl.

Definition error_event (msg : string) : string :=
  sse (JObj [("error", JStr msg)]).

(** ** Exceptions the relay meets *)

Inductive exn :=
| RequestError (msg : string)            (* httpx.RequestError and subclasses *)
| HTTPException (status : N) (detail : string)
| OtherError (msg : string).             (* any other Exception *)

(** [str(e)]; Starlette prints an [HTTPException] as [status: detail]. *)
Definition exn_str (e : exn) : string :=
  match e with
  | RequestError msg => msg
  | HTTPException status detail => decimal status ++ ": " ++ detail
  | OtherError msg => msg
  end.

Section Relay.

(** Library functions taken as given: [json.loads] ([None] is
    [json.JSONDecodeError]) and [bytes.decode("utf-8")] (the right
    injection carries the text of the [UnicodeDecodeError]). *)
Variable json_loads : string -> option json.
Variable decode_utf8 : list byte -> string + string.

(** *** [upload_file] *)

Record upload := mkUpload {
  filename : option string;
  content : list byte
}.

Inductive upload_response :=
| Accepted (combined_message : string) (name : option string)
| Failed (error : string).

(** How an f-string prints [file.filename]. *)
Definition show_filename (f : option string) : string :=
  match f with Some n => n | None => "None" end.

Fixpoint last_segment (l : list string) : string :=
  match l with
  | [] => ""
  | [x] => x
  | _ :: r => last_segment r
  end.

(** [file.filename.lower().split(".")[-1] if file.filename and "." in
    file.filename else ""]. *)
Definition file_extension (f : option string) : string :=
  match f with
  | Some n =>
      if nonempty n && contains "." n
      then last_segment (split_on "." (lower n))
      else ""
  | None => ""
  end.

Definition max_upload : Z := 10 * 1024 * 1024.

(** The body of the [try] block: the text extracted from the file and the
    combined message, or the exception raised. *)
Definition extract_text (file : upload) : exn + string :=
  if (max_upload <? Z.of_nat (List.length (content file)))%Z
  then inl (HTTPException 413 "File too large (max 10MB)")
  else
    let file_extension := file_extension (filename file) in
    if in_dec string_dec file_extension ["txt"; "md"] then
      match decode_utf8 (content file) with
      | inl text => inr text
      | inr err => inl (OtherError err)
      end
    else if in_dec string_dec file_extension ["pdf"] then
      inr ("[PDF file: " ++ show_filename (filename file) ++ "]")
    else if in_dec string_dec file_extension ["doc"; "docx"] then
      inr ("[Word document: " ++ show_filename (filename file) ++ "]")
    else inr ("[Uploaded file: " ++ show_filename (filename file) ++ "]").

Definition combine (message : option string) (file_text : string) : string :=
  match message with
  | Some m =>
      if nonempty m
      then m ++ nl ++ nl ++ "Attached file content:" ++ nl ++ file_text
      else "Please analyze this file:" ++ nl ++ nl ++ file_text
  | None => "Please analyze this file:" ++ nl ++ nl ++ file_text
  end.

(** What a route does besides answering: the requests it sends to the
    agent runtime, in order. *)
Record agent_request := mkRequest {
  req_method : string;
  req_path : string;
  req_body : json
}.

(** [upload_file]: the response, and the requests sent to the agent
    runtime while serving it (the route sends none). *)
Definition upload_file (file : upload) (message : option string)
  : upload_response * list agent_request :=
  match extract_text file with
  | inr file_text => (Accepted (combine message file_text) (filename file), [])
  | inl e => (Failed ("Error processing file: " ++ exn_str e), [])
  end.

(** *** [_generate_stream] *)

(** What the agent runtime does with the streamed POST: the connection
    fails, or it answers with a status and a body read chunk by chunk,
    the read possibly failing after the chunks received. *)
Record response := mkResponse {
  status_code : N;
  chunks : list string;
  read_failure : option exn
}.

Inductive upstream :=
| Refused (e : exn)
| Answered (r : response).

(** The [for line in lines] loop: the events yielded, and the exception
    that left the loop if one did.  A line whose payload has a truthy
    [done] ends the loop over this chunk ([break]). *)
Fixpoint relay_lines (lines : list string) : list string * option exn :=
  match lines with
  | [] => ([], None)
  | line :: rest =>
      if startswith "data: " line then
        match json_loads (drop 6 line) with
        | None => relay_lines rest
        | Some (JObj fields) =>
            if truthy (dict_get "content" fields) then
              match dict_get "content" fields with
              | JStr _ =>
                  let (evs, raised) := relay_lines rest in
                  (sse (JObj [("content", dict_get "content" fields)]) :: evs,
                   raised)
              | other =>
                  ([], Some (OtherError
                     ("can only concatenate str (not " ++ dquote
                      ++ type_name other ++ dquote ++ ") to str")))
              end
            else if truthy (dict_get "file_info" fields) then
              let (evs, raised) := relay_lines rest in
              (sse (JObj [("file", dict_get "file_info" fields)]) :: evs, raised)
            else if truthy (dict_get "error" fields) then
              let (evs, raised) := relay_lines rest in
              (sse (JObj [("error", dict_get "error" fields)]) :: evs, raised)
            else if truthy (dict_get "done" fields) then ([], None)
            else relay_lines rest
        | Some other =>
            ([], Some (OtherError
               ("'" ++ type_name other ++ "' object has no attribute 'get'")))
        end
      else relay_lines rest
  end.

(** The [async for chunk in response.aiter_text()] loop. *)
Fixpoint relay_chunks (cs : list string) : list string * option exn :=
  match cs with
  | [] => ([], None)
  | chunk :: rest =>
      if nonempty (strip chunk) then
        let (evs, raised) := relay_lines (split_on "010" (strip chunk)) in
        match raised with
        | Some e => (evs, Some e)
        | None =>
            let (evs', raised') := relay_chunks rest in
            ((evs ++ evs')%list, raised')
        end
      else relay_chunks rest
  end.

(** The two [except] clauses. *)
Definition handler_event (e : exn) : string :=
  match e with
  | RequestError _ =>
      error_event ("Connection error to agent service: " ++ exn_str e)
  | _ => error_event ("Streaming error: " ++ exn_str e)
  end.

Definition request_data (message session_id rls_user_id : string) : json :=
  JObj [("message", JStr message); ("session_id", JStr session_id);
        ("rls_user_id", JStr rls_user_id)].

(** [_generate_stream]: every string the generator yields, in order, when
    the agent runtime reacts to the request as [agent] says. *)
Definition generate_stream (agent : agent_request -> upstream)
    (message session_id rls_user_id : string) : list string :=
  match agent (mkRequest "POST" "/chat/stream"
                 (request_data message session_id rls_user_id)) with
  | Refused e => [handler_event e]
  | Answered r =>
      if negb (status_code r =? 200)%N then
        [error_event ("Agent service error: " ++ decimal (status_code r))]
      else
        let (evs, raised) := relay_chunks (chunks r) in
        match raised with
        | Some e => (evs ++ [handler_event e])%list
        | None =>
            match read_failure r with
            | Some e => (evs ++ [handler_event e])%list
            | None => (evs ++ [done_event])%list
            end
        end
  end.

(** [stream_chat], the route itself: two guards, each answering with a
    one-event stream, then the proxy. *)
Definition stream_chat (agent : agent_request -> upstream)
    (message : string) (session_id rls_user_id : option string)
  : list string :=
  if negb (nonempty (strip message)) then [error_event "Empty message"]
  else
    match rls_user_id with
    | Some (String c r) =>
        let session_id :=
          match session_id with
          | Some (String c' r') => String c' r'
          | _ => "default"
          end in
        generate_stream agent message session_id (String c r)
    | _ => [error_event "RLS User ID is required"]
    end.

End Relay.

(** Decoding of 7-bit content, on which UTF-8 is the identity; used to
    run [upload_file] on plain ASCII files. *)
Fixpoint decode_7bit (bs : list byte) : string + string :=
  match bs with
  | [] => inl EmptyString
  | b :: r =>
      if (Byte.to_nat b <? 128)%nat then
        match decode_7bit r with
        | inl s => inl (String (ascii_of_byte b) s)
        | inr e => inr e
        end
      else inr "'utf-8' codec can't decode byte"
  end.

End WebApp.

(* ------------------------------------------------------------------ *)
(** * Row-level security ([generate_zava_postgres.py], [create_database_schema]) *)

Module Rls.
Import PyStr.

(** ** Values *)

(** A [UUID] column holds 128 bits; [::text] prints them as 32 lower-case
    hexadecimal digits grouped 8-4-4-4-12. *)
Definition uuid := N.

Definition hex_char (d : N) : ascii :=
  if (d <? 10)%N then ascii_of_N (48 + d) else ascii_of_N (87 + d).

(** The [n] lowest hexadecimal digits of [v], most significant first. *)
Fixpoint hex (n : nat) (v : N) : string :=
  match n with
  | O => EmptyString
  | S k => hex k (v / 16) ++ String (hex_char (v mod 16)) EmptyString
  end.

Definition uuid_text (u : uuid) : string :=
  let h := hex 32 u in
  take 8 h ++ "-" ++ take 4 (drop 8 h) ++ "-" ++ take 4 (drop 12 h) ++ "-"
  ++ take 4 (drop 16 h) ++ "-" ++ drop 20 h.

Definition SUPER_MANAGER_UUID : string :=
  "00000000-0000-0000-0000-000000000000".

#[global] Arguments hex : simpl never.
#[global] Arguments uuid_text : simpl never.

(** SQL truth values: [None] is [NULL]. *)
Definition sql_bool := option bool.

Definition sql_or (a b : sql_bool) : sql_bool :=
  match a, b with
  | Some true, _ | _, Some true => Some true
  | Some false, Some false => Some false
  | _, _ => None
  end.

Definition sql_and (a b : sql_bool) : sql_bool :=
  match a, b with
  | Some false, _ | _, Some false => Some false
  | Some true, Some true => Some true
  | _, _ => None
  end.

Definition sql_eq_text (a b : option string) : sql_bool :=
  match a, b with
  | Some x, Some y => Some (String.eqb x y)
  | _, _ => None
  end.

Definition sql_eq_int (a b : option Z) : sql_bool :=
  match a, b with
  | Some x, Some y => Some (x =? y)%Z
  | _, _ => None
  end.

(** A [WHERE] clause, and a policy's [USING] clause, keep a row when the
    condition is true; false and [NULL] both drop it. *)
Definition holds (c : sql_bool) : bool :=
  match c with Some true => true | _ => false end.

(** ** Tables (the columns the policies read) *)

Record store := mkStore {
  store_id : Z;
  store_name : string;
  rls_user_id : uuid
}.

Record customer := mkCustomer {
  customer_id : Z;
  primary_store_id : option Z
}.

Record order := mkOrder {
  order_id : Z;
  o_customer_id : Z;
  o_store_id : Z
}.

Record order_item := mkOrderItem {
  order_item_id : Z;
  oi_order_id : Z;
  oi_store_id : Z
}.

Record inventory_row := mkInventory {
  i_store_id : Z;
  i_product_id : Z;
  stock_level : Z
}.

Record database := mkDatabase {
  stores : list store;
  customers : list customer;
  orders : list order;
  order_items : list order_item;
  inventory : list inventory_row
}.

(** [current_setting('app.current_rls_user_id', true)]: the session
    variable, [NULL] when it was never set. *)
Definition session := option string.

(** ** Policies *)

(** [EXISTS (SELECT 1 FROM stores s WHERE s.store_id = <row's store>
    AND s.rls_user_id::text = current_setting(...))]. *)
Definition store_of_session (db : database) (sess : session)
    (row_store : option Z) : bool :=
  existsb (fun s =>
    holds (sql_and (sql_eq_int (Some (store_id s)) row_store)
                   (sql_eq_text (Some (uuid_text (rls_user_id s))) sess)))
    (stores db).

Definition is_super_manager (sess : session) : sql_bool :=
  sql_eq_text sess (Some SUPER_MANAGER_UUID).

(** The [USING] clause shared by [store_manager_orders],
    [store_manager_order_items] and [store_manager_inventory]. *)
Definition store_keyed_policy (db : database) (sess : session)
    (row_store : Z) : sql_bool :=
  sql_or (is_super_manager sess)
         (Some (store_of_session db sess (Some row_store))).

Definition store_manager_orders (db : database) (sess : session)
    (o : order) : sql_bool :=
  store_keyed_policy db sess (o_store_id o).

Definition store_manager_order_items (db : database) (sess : session)
    (oi : order_item) : sql_bool :=
  store_keyed_policy db sess (oi_store_id oi).

Definition store_manager_inventory (db : database) (sess : session)
    (r : inventory_row) : sql_bool :=
  store_keyed_policy db sess (i_store_id r).

(** [EXISTS (SELECT 1 FROM orders o JOIN stores s ON o.store_id =
    s.store_id WHERE o.customer_id = <row's customer> AND
    s.rls_user_id::text = current_setting(...))]. *)
Definition ordered_from_session_store (db : database) (sess : session)
    (c : customer) : bool :=
  existsb (fun o =>
    existsb (fun s =>
      holds (sql_eq_int (Some (o_store_id o)) (Some (store_id s)))
      && holds (sql_and
                  (sql_eq_int (Some (o_customer_id o)) (Some (customer_id c)))
                  (sql_eq_text (Some (uuid_text (rls_user_id s))) sess)))
      (stores db))
    (orders db).

Definition store_manager_customers (db : database) (sess : session)
    (c : customer) : sql_bool :=
  sql_or (sql_or (is_super_manager sess)
                 (Some (store_of_session db sess (primary_store_id c))))
         (Some (ordered_from_session_store db sess c)).

(** ** Queries under the policies: [SELECT * FROM <table>] in a session *)

Definition select_orders (db : database) (sess : session) : list order :=
  filter (fun o => holds (store_manager_orders db sess o)) (orders db).

Definition select_order_items (db : database) (sess : session)
  : list order_item :=
  filter (fun oi => holds (store_manager_order_items db sess oi))
         (order_items db).

Definition select_inventory (db : database) (sess : session)
  : list inventory_row :=
  filter (fun r => holds (store_manager_inventory db sess r)) (inventory db).

Definition select_customers (db : database) (sess : session)
  : list customer :=
  filter (fun c => holds (store_manager_customers db sess c)) (customers db).

(** [SELECT COUNT( * ) FROM orders]. *)
Definition count_orders (db : database) (sess : session) : nat :=
  List.length (select_orders db sess).

(** A session that identifies nobody: the variable is unset, empty, or
    names neither the super manager nor any store. *)
Definition unidentified (db : database) (sess : session) : Prop :=
  sess = None
  \/ sess = Some ""
  \/ exists u, sess = Some u
       /\ u <> SUPER_MANAGER_UUID
       /\ forall s, In s (stores db) -> uuid_text (rls_user_id s) <> u.

(** Two of the workshop's stores, with orders, items, stock and customers
    at each. *)
Definition seattle : uuid := 0xf47ac10b58cc4372a5670e02b2c3d479%N.
Definition bellevue : uuid := 0x6ba7b8109dad11d180b400c04fd430c8%N.

Definition demo_db : database :=
  mkDatabase
    [mkStore 1 "Zava Retail Seattle" seattle;
     mkStore 2 "Zava Retail Bellevue" bellevue]
    [mkCustomer 1 (Some 1%Z); mkCustomer 2 (Some 2%Z); mkCustomer 3 None]
    [mkOrder 1 1 1; mkOrder 2 2 2; mkOrder 3 3 2; mkOrder 4 1 2]
    [mkOrderItem 1 1 1; mkOrderItem 2 2 2]
    [mkInventory 1 7 40; mkInventory 2 7 12].

End Rls.

(* ------------------------------------------------------------------ *)
(** * Python numbers *)

Module PyNum.

(** ** Decimal amounts

    Prices are decimal amounts and the claims about them are stated
    "within rounding tolerance": they are modelled as exact rationals.
    For a catalog price in whole cents the quotient by [0.67] lies at
    least [1/13400] away from every half-cent boundary, far beyond the
    error of a binary64 division, so the cent chosen by [round(x, 2)] is
    the one chosen here. *)

(** Rounding to the nearest integer, ties to even: [round(x)]. *)
Definition round_half_even (q : Q) : Z :=
  let fl := Qfloor q in
  match (q - inject_Z fl ?= 1 # 2)%Q with
  | Lt => fl
  | Gt => (fl + 1)%Z
  | Eq => if Z.even fl then fl else (fl + 1)%Z
  end.

(** [round(x, 2)] and [round(x, 1)]. *)
Definition round2 (q : Q) : Q := (inject_Z (round_half_even (q * 100)) / 100)%Q.
Definition round1 (q : Q) : Q := (inject_Z (round_half_even (q * 10)) / 10)%Q.

(** [max(0, x)]. *)
Definition max0 (q : Q) : Q := if Qlt_le_dec 0 q then q else 0%Q.

(** ** binary64 *)

(** [float(n)] for a small non-negative integer. *)
Definition float_of_int (n : Z) : float := of_uint63 (Uint63.of_Z n).

(** [int(x)]: truncation toward zero; [None] stands for the
    [ValueError]/[OverflowError] raised on NaN and infinities. *)
Definition py_int (x : float) : option Z :=
  match Prim2SF x with
  | S754_zero _ => Some 0%Z
  | S754_finite s m e =>
      let a := if (0 <=? e)%Z then (Zpos m * 2 ^ e)%Z
               else (Zpos m / 2 ^ (- e))%Z in
      Some (if s then (- a)%Z else a)
  | _ => None
  end.

(** [round(x)] on a float: nearest integer, ties to even. *)
Definition py_round (x : float) : option Z :=
  match Prim2SF x with
  | S754_zero _ => Some 0%Z
  | S754_finite s m e =>
      let a :=
        if (0 <=? e)%Z then (Zpos m * 2 ^ e)%Z
        else
          let d := (2 ^ (- e))%Z in
          let q := (Zpos m / d)%Z in
          let r := (Zpos m mod d)%Z in
          match (2 * r ?= d)%Z with
          | Lt => q
          | Gt => (q + 1)%Z
          | Eq => if Z.even q then q else (q + 1)%Z
          end in
      Some (if s then (- a)%Z else a)
  | _ => None
  end.

End PyNum.

(* ------------------------------------------------------------------ *)
(** * Seeding products and orders (both database generators) *)

Module Seeder.
Import PyStr PyNum.

(** ** [insert_products] *)

(** A product of the catalog: [product_details]. *)
Record product_details := mkDetails {
  d_name : string;
  d_sku : option string;
  d_price : Q;
  d_description : string
}.

(** [main_categories]: category name to sub-dictionary; a key of the
    sub-dictionary is a product type, or the seasonal multipliers. *)
Definition subcategories := list (string * list product_details).
Definition main_categories := list (string * subcategories).

(** A tuple appended to [products_data]. *)
Record product_row := mkRow {
  sku : string;
  product_name : string;
  category_id : Z;
  type_id : Z;
  cost : Q;
  base_price : Q;
  product_description : string
}.

(** A dict filled from rows in order: a later row replaces an earlier
    one with the same key. *)
Fixpoint dict_of_rows {K V} (eqb : K -> K -> bool) (rows : list (K * V))
    (key : K) : option V :=
  match rows with
  | [] => None
  | (k, v) :: r =>
      match dict_of_rows eqb r key with
      | Some v' => Some v'
      | None => if eqb k key then Some v else None
      end
  end.

Definition type_key_eqb (a b : Z * string) : bool :=
  (fst a =? fst b)%Z && String.eqb (snd a) (snd b).

(** [format(n, "06d")]. *)
Definition format_06d (n : N) : string :=
  let d := decimal n in
  PyStr.take (6 - String.length d) "000000" ++ d.

(** The selling price for a 33% gross margin. *)
Definition selling_price (cost : Q) : Q := round2 (cost / (67 # 100)).

(** The loop over [product_list]; [acc] is [products_data] so far. *)
Definition add_products (category_id type_id : Z)
    (product_list : list product_details) (acc : list product_row)
  : list product_row :=
  fold_left (fun acc product_details =>
    let sku :=
      match d_sku product_details with
      | Some k => k
      | None => "SKU" ++ format_06d (N.of_nat (List.length acc) + 1)
      end in
    let cost := d_price product_details in
    let base_price := selling_price cost in
    (acc ++ [mkRow sku (d_name product_details) category_id type_id
                   cost base_price (d_description product_details)])%list)
    product_list acc.

(** The loop over a category's sub-dictionary. *)
Definition add_subcategories (type_mapping : Z * string -> option Z)
    (category_id : Z) (subs : subcategories) (acc : list product_row)
  : list product_row :=
  fold_left (fun acc kv =>
    let '(subcategory, product_list) := kv in
    if String.eqb subcategory "washington_seasonal_multipliers" then acc
    else match product_list with
         | [] => acc
         | _ =>
             match type_mapping (category_id, subcategory) with
             | Some type_id =>
                 if (type_id =? 0)%Z then acc
                 else add_products category_id type_id product_list acc
             | None => acc
             end
         end)
    subs acc.

(** The loop over [main_categories]; [None] is the [KeyError] of
    [category_mapping[main_category]]. *)
Fixpoint products_data (category_mapping : string -> option Z)
    (type_mapping : Z * string -> option Z)
    (cats : main_categories) (acc : list product_row)
  : option (list product_row) :=
  match cats with
  | [] => Some acc
  | (main_category, subs) :: rest =>
      match category_mapping main_category with
      | None => None
      | Some category_id =>
          products_data category_mapping type_mapping rest
            (add_subcategories type_mapping category_id subs acc)
      end
  end.

(** The Postgres variant reads rows by column name. *)
Record category_record := mkCategory { cat_id : Z; cat_name : string }.
Record type_record := mkType { ty_id : Z; ty_name : string; ty_category : Z }.

Definition insert_products_postgres (category_rows : list category_record)
    (type_rows : list type_record) (cats : main_categories)
  : option (list product_row) :=
  products_data
    (dict_of_rows String.eqb
       (map (fun row => (cat_name row, cat_id row)) category_rows))
    (dict_of_rows type_key_eqb
       (map (fun row => ((ty_category row, ty_name row), ty_id row)) type_rows))
    cats [].

(** The SQL Server variant reads rows by position: [(category_id,
    category_name)] and [(type_id, type_name, category_id)]. *)
Definition insert_products_sql_server (category_rows : list (Z * string))
    (type_rows : list (Z * string * Z)) (cats : main_categories)
  : option (list product_row) :=
  products_data
    (dict_of_rows String.eqb
       (map (fun row => (snd row, fst row)) category_rows))
    (dict_of_rows type_key_eqb
       (map (fun row => let '(id, name, cat) := row in ((cat, name), id))
            type_rows))
    cats [].

(** [(base_price - cost) / base_price]. *)
Definition gross_margin (row : product_row) : Q :=
  ((base_price row - cost row) / base_price row)%Q.

(** ** [insert_orders]: how many orders a customer gets *)

(** The population and weights of the [random.choices] call. *)
Definition base_orders_population : list Z := [0; 1; 2; 3; 4; 5]%Z.
Definition base_orders_weights : list Z := [20; 40; 20; 10; 7; 3]%Z.

(** [max(1, int(base_orders * order_frequency))]. *)
Definition num_orders (base_orders : Z) (order_frequency : float)
  : option Z :=
  option_map (Z.max 1)
    (py_int (PrimFloat.mul (float_of_int base_orders) order_frequency)).

(** The count as the specification words it:
    [max(1, round(base_orders * order_frequency))]. *)
Definition num_orders_rounded (base_orders : Z) (order_frequency : float)
  : option Z :=
  option_map (Z.max 1)
    (py_round (PrimFloat.mul (float_of_int base_orders) order_frequency)).

(** The random draws made for one customer: the preferred store and the
    base number of orders. *)
Record draw := mkDraw {
  preferred_store : string;
  base_orders : Z
}.

(** [reference_data['stores']], reduced to the multiplier read here, and
    the [stores] table. *)
Definition store_config := list (string * float).
Definition store_table := list (string * Z).

(** [get_store_multipliers(name)['orders']]. *)
Definition order_frequency (stores : store_config) (name : string) : float :=
  match dict_of_rows String.eqb stores name with
  | Some f => f
  | None => 1%float
  end.

(** [get_store_id_by_name]. *)
Definition get_store_id_by_name (table : store_table) (name : string) : Z :=
  match find (fun row => String.eqb (fst row) name) table with
  | Some row => snd row
  | None => 1%Z
  end.

(** An element of [orders_data], without its date. *)
Record order_header := mkHeader {
  h_customer_id : Z;
  h_store_id : Z
}.

(** The loop [for customer_id in range(1, num_customers + 1)], one draw
    per customer; [None] is an exception leaving the loop. *)
Fixpoint insert_orders (stores : store_config) (table : store_table)
    (customer_id : Z) (draws : list draw) : option (list order_header) :=
  match draws with
  | [] => Some []
  | d :: rest =>
      let store_id := get_store_id_by_name table (preferred_store d) in
      match num_orders (base_orders d)
              (order_frequency stores (preferred_store d)) with
      | None => None
      | Some n =>
          match insert_orders stores table (customer_id + 1) rest with
          | None => None
          | Some later =>
              Some (repeat (mkHeader customer_id store_id) (Z.to_nat n)
                    ++ later)%list
          end
      end
  end.

(** The orders generated for one customer. *)
Definition orders_of (customer_id : Z) (orders : list order_header) : nat :=
  List.length (filter (fun h => (h_customer_id h =? customer_id)%Z) orders).

End Seeder.

(* ------------------------------------------------------------------ *)
(** * Vector similarity search ([sales_analysis_postgres.py]) *)

Module Similarity.
Import PyStr PyNum.

(** A row of the join of [product_description_embeddings] and
    [products], with the cosine distance pgvector computed between its
    embedding and the query. *)
Record candidate := mkCandidate {
  product_id : Z;
  product_sku : string;
  similarity_distance : Q
}.

(** The conversion as the machine computes it, on binary64. *)
Definition distance_threshold64 (similarity_threshold : float) : float :=
  PrimFloat.sub 1%float (PrimFloat.div similarity_threshold 100%float).

(** The same conversion on exact numbers. *)
Definition distance_threshold (similarity_threshold : Q) : Q :=
  (1 - similarity_threshold / 100)%Q.

(** [ORDER BY similarity_distance]. *)
Fixpoint insert_by_distance (c : candidate) (l : list candidate)
  : list candidate :=
  match l with
  | [] => [c]
  | x :: r =>
      if Qle_bool (similarity_distance c) (similarity_distance x)
      then c :: l
      else x :: insert_by_distance c r
  end.

Definition order_by_distance (l : list candidate) : list candidate :=
  fold_right insert_by_distance [] l.

(** The query: [WHERE distance <= $3 ORDER BY distance LIMIT $2].
    PostgreSQL refuses a negative [LIMIT]. *)
Definition fetch (table : list candidate) (limit : Z) (threshold : Q)
  : string + list candidate :=
  if (limit <? 0)%Z then inl "LIMIT must not be negative"
  else inr (firstn (Z.to_nat limit)
              (order_by_distance
                 (filter (fun c => Qle_bool (similarity_distance c) threshold)
                         table))).

(** [round(max(0, (1 - d) * 100), 1)]. *)
Definition similarity_percent (d : Q) : Q :=
  round1 (max0 ((1 - d) * 100)).

(** The JSON envelope: rows with the appended [sp] column, the
    "no products" message, or the error. *)
Inductive envelope :=
| Rows (r : list (candidate * Q)) (n : nat)
| NoProducts (threshold : Q)
| SearchFailed (err : string).

(** [search_products_by_similarity]. *)
Definition search_products_by_similarity (table : list candidate)
    (max_rows : Z) (similarity_threshold : Q) : envelope :=
  let max_rows := Z.min max_rows 100 in
  let distance_threshold := distance_threshold similarity_threshold in
  match fetch table max_rows distance_threshold with
  | inl e => SearchFailed ("PostgreSQL semantic search failed: " ++ e)
  | inr [] => NoProducts similarity_threshold
  | inr rows =>
      let data_rows :=
        map (fun row => (row, similarity_percent (similarity_distance row)))
            rows in
      Rows data_rows (List.length data_rows)
  end.

(** The rows an envelope carries. *)
Definition returned (e : envelope) : list (candidate * Q) :=
  match e with
  | Rows r _ => r
  | _ => []
  end.

End Similarity.

(* ------------------------------------------------------------------ *)
(** * The SKU assigner: the analysis pass ([generate_skus.py]) *)

Module SkuReport.
Import PyStr Sku.

(** An entry of [stats['categories_needing_skus'][key]]. *)
Record needing := mkNeeding {
  n_index : nat;
  n_name : string
}.

(** The dict [analyze_missing_skus] returns;
    [categories_needing_skus] is a [defaultdict(list)], in key order of
    first use. *)
Record analysis := mkAnalysis {
  total_products : nat;
  missing_skus : nat;
  has_skus : nat;
  categories_needing_skus : list (string * list needing)
}.

(** [d[key].append(x)] on a [defaultdict(list)]. *)
Fixpoint append_at (key : string) (x : needing)
    (d : list (string * list needing)) : list (string * list needing) :=
  match d with
  | [] => [(key, [x])]
  | (k, l) :: r =>
      if String.eqb k key then (k, (l ++ [x])%list) :: r
      else (k, l) :: append_at key x r
  end.

(** The body of [for i, product in enumerate(products)]. *)
Definition analyze_product (key : string) (i : nat) (it : item)
    (a : analysis) : analysis :=
  match it with
  | NotDict => a
  | Dict p =>
      match sku_of p with
      | Some _ =>
          mkAnalysis (S (total_products a)) (missing_skus a)
                     (S (has_skus a)) (categories_needing_skus a)
      | None =>
          mkAnalysis (S (total_products a)) (S (missing_skus a))
                     (has_skus a)
                     (append_at key
                        (mkNeeding i
                           (name_or ("Product " ++ decimal (N.of_nat (i + 1)))
                                    p))
                        (categories_needing_skus a))
      end
  end.

Fixpoint analyze_products (key : string) (i : nat) (products : list item)
    (a : analysis) : analysis :=
  match products with
  | [] => a
  | it :: rest =>
      analyze_products key (S i) rest (analyze_product key i it a)
  end.

Definition analyze_category (category : string) (data : category_data)
    (a : analysis) : analysis :=
  fold_left (fun a kv =>
    match snd kv with
    | IsList products =>
        analyze_products (category ++ "/" ++ fst kv) 0 products a
    | NotList => a
    end) data a.

(** [analyze_missing_skus]. *)
Definition analyze_missing_skus (product_data : catalog) : analysis :=
  fold_left (fun a kv => analyze_category (fst kv) (snd kv) a)
            product_data (mkAnalysis 0 0 0 []).

(** A catalog with two buckets that derive the same codes: three
    products lack a SKU and [HTHMM001] is taken. *)
Definition mixed_catalog : catalog :=
  [("HAND TOOLS",
    [("HAMMERS",
      IsList [Dict (mkProduct (Some "HTHMM001") (Some "Claw Hammer"));
              Dict (mkProduct None (Some "Sledge Hammer"));
              NotDict;
              Dict (mkProduct (Some "") None)]);
     ("washington_seasonal_multipliers", IsList [NotDict; NotDict]);
     ("notes", NotList)]);
   ("HEAVY TOOLS",
    [("HAMMOCKS", IsList [Dict (mkProduct None (Some "Rope Hammock"))])])].

(** What a dry run and a real run of the assigner leave on that
    catalog. *)
Definition no_run : run_state := mkState [] [] [] 0 0 0 [].

Definition mixed_dry_state : run_state :=
  Eval vm_compute in
    match generate_and_assign_skus mixed_catalog true with
    | Some (s, _) => s
    | None => no_run
    end.

Definition mixed_real_state : run_state :=
  Eval vm_compute in
    match generate_and_assign_skus mixed_catalog false with
    | Some (s, _) => s
    | None => no_run
    end.

Definition mixed_completed : catalog :=
  Eval vm_compute in
    match generate_and_assign_skus mixed_catalog false with
    | Some (_, c) => c
    | None => []
    end.

End SkuReport.

(* ------------------------------------------------------------------ *)
(** * The streaming event handler: closing and files *)

Module HandlerLifecycle.
Import PyStr StreamHandler.

(** [cleanup]: a second call does nothing; the first closes the handler,
    clears the buffer and drains the queue. *)
Definition cleanup (h : handler) : handler :=
  if is_closed h then h
  else mkHandler (assistant_message h) [] true "".

(** [on_thread_message], on the file descriptors [get_files] returned. *)
Definition on_thread_message (files : list string) (h : handler) : handler :=
  fold_left (fun h file_info => put_safely (File file_info) h) files h.

(** [get_queue_size]. *)
Definition get_queue_size (h : handler) : Z :=
  Z.of_nat (List.length (token_queue h)).

(** The events the agent stream dispatches to the handler; the other
    callbacks ([on_thread_run], [on_run_step], [on_error], ...) only log
    or store run details and touch none of the four fields. *)
Inductive event :=
| MessageDelta (text : string)
| ThreadMessage (files : list string)
| Done
| Cleanup.

Definition dispatch (h : handler) (e : event) : handler :=
  match e with
  | MessageDelta text => on_message_delta text h
  | ThreadMessage files => on_thread_message files h
  | Done => on_done h
  | Cleanup => cleanup h
  end.

Definition dispatch_all (events : list event) (h : handler) : handler :=
  fold_left dispatch events h.

(** The text of the deltas among the events, in order. *)
Fixpoint delta_text (events : list event) : string :=
  match events with
  | [] => ""
  | MessageDelta text :: r => text ++ delta_text r
  | _ :: r => delta_text r
  end.

End HandlerLifecycle.

(* ------------------------------------------------------------------ *)
(** * The schema provider ([mcp_server/sales_analysis/sales_analysis_postgres.py]) *)

Module Provider.
Import PyStr.

Definition CUSTOMERS_TABLE : string := "customers".
Definition PRODUCTS_TABLE : string := "products".
Definition ORDERS_TABLE : string := "orders".
Definition ORDER_ITEMS_TABLE : string := "order_items".
Definition STORES_TABLE : string := "stores".
Definition CATEGORIES_TABLE : string := "categories".
Definition PRODUCT_TYPES_TABLE : string := "product_types".
Definition INVENTORY_TABLE : string := "inventory".

(** [s.split(sep, 1)]: cut at the first separator, if there is one. *)
Fixpoint cut_first (sep : ascii) (s : string) : option (string * string) :=
  match s with
  | EmptyString => None
  | String c r =>
      if Ascii.eqb c sep then Some (EmptyString, r)
      else match cut_first sep r with
           | Some (a, b) => Some (String c a, b)
           | None => None
           end
  end.

Definition split_once (sep : ascii) (s : string) : list string :=
  match cut_first sep s with
  | Some (a, b) => [a; b]
  | None => [s]
  end.

(** The text of the [ValueError]. *)
Definition format_error (table : string) : string :=
  "Table name '" ++ table
  ++ "' must be in 'schema.table' format (e.g., 'retail.customers')".

(** [_parse_table_name]; the left injection is the [ValueError]. *)
Definition parse_table_name (table : string) : string + string * string :=
  if negb (contains "." table) then inl (format_error table)
  else
    match split_once "." table with
    | [schema; table_name] =>
        if negb (nonempty schema) || negb (nonempty table_name)
        then inl (format_error table)
        else inr (schema, table_name)
    | _ => inl (format_error table)
    end.

(** [_get_qualified_table_name]. *)
Definition get_qualified_table_name (table : string) : string + string :=
  if negb (contains "." table) then inl (format_error table)
  else
    match parse_table_name table with
    | inr _ => inr table
    | inl e => inl e
    end.

(** [infer_relationship_type]. *)
Definition infer_relationship_type (references_table : string) : string :=
  let table_name :=
    match parse_table_name references_table with
    | inr (_, table_name) => table_name
    | inl _ => references_table
    end in
  if in_dec string_dec table_name
       [CUSTOMERS_TABLE; PRODUCTS_TABLE; STORES_TABLE; CATEGORIES_TABLE;
        PRODUCT_TYPES_TABLE; ORDERS_TABLE]
  then "many_to_one" else "one_to_many".

(** ** Table metadata and its cache *)

Section Metadata.

(** The dictionary built for a table, and the two things taken as
    given: the database as the session of an identity sees it, and the
    formatter of a dictionary.

    [table_exists schema table] is the [SELECT EXISTS] on
    [information_schema.tables]; [describe rls_user_id table_name
    schema_name parsed_table_name] is the dictionary
    [_get_table_metadata] builds from the rows fetched on the
    connection, whose session identity is [rls_user_id]; both may raise
    (left injection, the text of the exception). *)
Variable schema_data : Type.
Variable table_exists : string -> string -> string + bool.
Variable describe : string -> string -> string -> string -> string + schema_data.
Variable format_schema_metadata_for_ai : schema_data -> string.

(** [self._schema_cache], a dict keyed by the table name as given. *)
Definition schema_cache := list (string * schema_data).

Fixpoint cache_get (table_name : string) (cache : schema_cache)
  : option schema_data :=
  match cache with
  | [] => None
  | (k, v) :: r => if String.eqb k table_name then Some v
                   else cache_get table_name r
  end.

(** [cache[table_name] = v]. *)
Fixpoint cache_set (table_name : string) (v : schema_data)
    (cache : schema_cache) : schema_cache :=
  match cache with
  | [] => [(table_name, v)]
  | (k, w) :: r =>
      if String.eqb k table_name then (k, v) :: r
      else (k, w) :: cache_set table_name v r
  end.

(** [_get_table_metadata] on a connection whose session identity is
    [rls_user_id]. *)
Definition get_table_metadata (cache : schema_cache)
    (rls_user_id table_name : string)
  : (string + schema_data) * schema_cache :=
  match cache_get table_name cache with
  | Some cached => (inr cached, cache)
  | None =>
      match parse_table_name table_name with
      | inl e => (inl e, cache)
      | inr (schema_name, parsed_table_name) =>
          match describe rls_user_id table_name schema_name
                  parsed_table_name with
          | inl e => (inl e, cache)
          | inr data => (inr data, cache_set table_name data cache)
          end
      end
  end.

(** The body of the loop of [get_table_metadata_from_list]: the text
    appended for one table. *)
Definition table_section (cache : schema_cache)
    (rls_user_id table_name : string) : string * schema_cache :=
  let failed e :=
    "Error retrieving " ++ table_name ++ " schema: " ++ e ++ nl in
  match parse_table_name table_name with
  | inl e => (failed e, cache)
  | inr (schema_name, parsed_table_name) =>
      match table_exists schema_name parsed_table_name with
      | inl e => (failed e, cache)
      | inr false =>
          ("**ERROR:** Table '" ++ table_name ++ "' not found" ++ nl, cache)
      | inr true =>
          match get_table_metadata cache rls_user_id table_name with
          | (inl e, cache') => (failed e, cache')
          | (inr data, cache') =>
              (nl ++ nl ++ format_schema_metadata_for_ai data, cache')
          end
      end
  end.

Fixpoint table_sections (cache : schema_cache) (rls_user_id : string)
    (table_names : list string) : string * schema_cache :=
  match table_names with
  | [] => ("", cache)
  | table_name :: rest =>
      let (s, cache') := table_section cache rls_user_id table_name in
      let (r, cache'') := table_sections cache' rls_user_id rest in
      (s ++ r, cache'')
  end.

(** [get_table_metadata_from_list], once the connection is acquired and
    its session identity set. *)
Definition get_table_metadata_from_list (cache : schema_cache)
    (table_names : list string) (rls_user_id : string)
  : string * schema_cache :=
  match table_names with
  | [] =>
      ("Error: table_names parameter is required and cannot be empty", cache)
  | _ => table_sections cache rls_user_id table_names
  end.

End Metadata.

End Provider.
(* ------------------------------------------------------------------ *)
(** * The database generator: batches, dates, months
    ([data/database/generate_zava_postgres.py]) *)

Module Generator.
Import PyStr.

(** ** [batch_insert] *)

(** [range(start, stop, step)] for a positive step, on indices;
    [fuel] bounds the number of elements. *)
Fixpoint range_from (fuel start stop step : nat) : list nat :=
  match fuel with
  | O => []
  | S fuel' =>
      if (start <? stop)%nat
      then start :: range_from fuel' (start + step) stop step
      else []
  end.

(** [data[i:j]] for [0 <= i <= j]. *)
Definition slice {A} (data : list A) (i j : nat) : list A :=
  firstn (j - i) (skipn i data).

(** [batch_insert]: the row lists handed to [executemany], in order.
    A step of zero makes [range] raise its [ValueError]; a negative
    step gives the empty range. *)
Definition batch_insert {A} (data : list A) (batch_size : Z)
  : string + list (list A) :=
  if (batch_size =? 0)%Z then inl "range() arg 3 must not be zero"
  else if (batch_size <? 0)%Z then inr []
  else
    let step := Z.to_nat batch_size in
    inr (map (fun i => slice data i (i + step))
             (range_from (List.length data) 0 (List.length data) step)).

(** The rows a table receives from these calls. *)
Definition inserted {A} (calls : string + list (list A)) : list A :=
  match calls with
  | inr batches => List.concat batches
  | inl _ => []
  end.

(** ** The day of an order ([insert_orders]) *)

(** The years [weighted_year_choice] draws from. *)
Definition order_years : list Z := [2020; 2021; 2022; 2023; 2024; 2025; 2026]%Z.

(** The upper bound of [random.randint(1, max_day)]. *)
Definition max_day (year month : Z) : Z :=
  if (month =? 2)%Z then
    (if negb (year mod 4 =? 0)%Z then 28 else 29)%Z
  else if existsb (Z.eqb month) [4; 6; 9; 11]%Z then 30%Z
  else 31%Z.

(** The calendar of [datetime.date]: [_is_leap] and [_days_in_month]. *)
Definition is_leap (year : Z) : bool :=
  (year mod 4 =? 0)%Z
  && (negb (year mod 100 =? 0)%Z || (year mod 400 =? 0)%Z).

Definition days_in_month (year month : Z) : Z :=
  if (month =? 2)%Z && is_leap year then 29%Z
  else nth (Z.to_nat month)
         [-1; 31; 28; 31; 30; 31; 30; 31; 31; 30; 31; 30; 31]%Z 0%Z.

(** [date(year, month, day)] returns, rather than raising [ValueError]. *)
Definition date_ok (year month day : Z) : bool :=
  (1 <=? year)%Z && (year <=? 9999)%Z
  && (1 <=? month)%Z && (month <=? 12)%Z
  && (1 <=? day)%Z && (day <=? days_in_month year month)%Z.

(** ** The comparison of peak months ([verify_seasonal_patterns]) *)

(** [abs(a - b) <= 3 or abs(a - b) >= 9]. *)
Definition month_match (a b : Z) : bool :=
  (Z.abs (a - b) <=? 3)%Z || (9 <=? Z.abs (a - b))%Z.

End Generator.
(* ------------------------------------------------------------------ *)
(** * The database generator: customers
    ([data/database/generate_zava_postgres.py]) *)

Module Customers.
Import PyStr Generator.

(** A row of [SELECT store_id, store_name FROM stores]. *)
Record store_row := mkStore {
  store_id : Z;
  store_name : string
}.

(** What the faker and the random generator return for one customer:
    [fake.first_name()], [fake.last_name()], the three numbers of
    [generate_phone_number] and [weighted_store_choice()]. *)
Record customer_draw := mkCustomerDraw {
  fake_first_name : string;
  fake_last_name : string;
  area : N;
  exchange : N;
  line : N;
  preferred_store_name : string
}.

(** A tuple of [customers_data]. *)
Record customer_row := mkCustomer {
  first_name : string;
  last_name : string;
  email : string;
  phone : string;
  primary_store_id : Z
}.

(** [generate_phone_number], on the numbers drawn. *)
Definition generate_phone_number (d : customer_draw) : string :=
  "(" ++ decimal (area d) ++ ") " ++ decimal (exchange d)
  ++ "-" ++ decimal (line d).

(** The loop over [store_rows] with its fallback to the first row;
    [store_rows] is not empty here. *)
Definition primary_store (store_rows : list store_row)
    (preferred_store_name : string) : Z :=
  match find (fun row => String.eqb (store_name row) preferred_store_name)
             store_rows with
  | Some row => store_id row
  | None =>
      match store_rows with
      | row :: _ => store_id row
      | [] => 0%Z
      end
  end.

(** The body of the loop, for customer number [i]. *)
Definition customer (store_rows : list store_row) (i : N)
    (d : customer_draw) : customer_row :=
  let first_name := replace_char "'" "''" (fake_first_name d) in
  let last_name := replace_char "'" "''" (fake_last_name d) in
  let email :=
    lower first_name ++ "." ++ lower last_name ++ "." ++ decimal i
    ++ "@example.com" in
  mkCustomer first_name last_name email (generate_phone_number d)
             (primary_store store_rows (preferred_store_name d)).

(** [for i in range(1, num_customers + 1)], one draw per customer. *)
Fixpoint customers_data (store_rows : list store_row) (i : N)
    (draws : list customer_draw) : list customer_row :=
  match draws with
  | [] => []
  | d :: rest =>
      customer store_rows i d :: customers_data store_rows (i + 1) rest
  end.

(** [insert_customers]: the batches sent to the [customers] table, or
    the exception raised. *)
Definition insert_customers (store_rows : list store_row)
    (draws : list customer_draw) : string + list (list customer_row) :=
  match store_rows with
  | [] => inl "No stores found! Please insert stores first."
  | _ => batch_insert (customers_data store_rows 1 draws) 1000
  end.

End Customers.
(* ------------------------------------------------------------------ *)
(** * The database generator: orders and their items
    ([data/database/generate_zava_postgres.py], [insert_orders]) *)

Module OrderSeeder.
Import PyStr PyNum Seeder Generator.

(** A row of the query on [products] joined with [categories], with
    [float(row['base_price'])]. *)
Record priced_product := mkPriced {
  p_product_id : Z;
  p_base_price : float;
  p_category_name : string
}.

(** [product_prices], a dict filled row by row. *)
Definition product_prices (product_rows : list priced_product)
    (product_id : Z) : option float :=
  dict_of_rows Z.eqb
    (map (fun row => (p_product_id row, p_base_price row)) product_rows)
    product_id.

(** [list(product_prices.keys())]: the keys in the order in which they
    were first inserted. *)
Fixpoint dict_keys (seen : list Z) (rows : list priced_product) : list Z :=
  match rows with
  | [] => []
  | row :: r =>
      if existsb (Z.eqb (p_product_id row)) seen then dict_keys seen r
      else p_product_id row :: dict_keys (p_product_id row :: seen) r
  end.

Definition available_product_ids (product_rows : list priced_product)
  : list Z :=
  dict_keys [] product_rows.

(** [category_products.get(name)]: the ids of the rows of a category,
    in row order; [None] when no row has it. *)
Definition category_products (product_rows : list priced_product)
    (category_name : string) : option (list Z) :=
  match filter (fun row => String.eqb (p_category_name row) category_name)
               product_rows with
  | [] => None
  | l => Some (map p_product_id l)
  end.

(** [random.choice(seq)], on the index drawn; [None] is the
    [IndexError] on an empty sequence. *)
Definition choice {A} (seq : list A) (r : nat) : option A :=
  match seq with
  | [] => None
  | _ => nth_error seq (r mod List.length seq)
  end.

(** What the random generator returns while one item is built:
    [random.random() < 0.9], the index of the product chosen, the
    quantity, [random.uniform(0.8, 1.2)], [random.random() < 0.15] and
    the discount chosen. *)
Record item_draw := mkItemDraw {
  from_category : bool;
  pick : nat;
  quantity : Z;
  price_variation : float;
  discounted : bool;
  discount_choice : Z
}.

(** And while one order is built: the year, the month, the day, the
    category selected, and the draws of its items ([num_items] of
    them). *)
Record order_draw := mkOrderDraw {
  year : Z;
  month : Z;
  day : Z;
  selected_category : string;
  item_draws : list item_draw
}.

(** And for one customer: the store and the base number of orders, and
    the draws of the orders, by their rank. *)
Record customer_draw := mkCustomerDraw {
  store_draw : draw;
  order_draws : nat -> order_draw
}.

(** The tuples of [orders_data] and [order_items_data]. *)
Record order_row := mkOrder {
  o_customer_id : Z;
  o_store_id : Z;
  o_date : Z * Z * Z
}.

Record order_item_row := mkItem {
  i_order_id : Z;
  i_store_id : Z;
  i_product_id : Z;
  i_quantity : Z;
  i_unit_price : float;
  i_discount_percent : Z;
  i_discount_amount : float;
  i_total_amount : float
}.

(** A call of [executemany]. *)
Inductive batch :=
| OrdersBatch (rows : list order_row)
| ItemsBatch (rows : list order_item_row).

Record state := mkState {
  total_orders : Z;
  orders_data : list order_row;
  order_items_data : list order_item_row;
  sent : list batch
}.

(** The body of [for _ in range(num_items)]; [seasonal] is the truth
    value of [seasonal_categories]. *)
Definition order_item (seasonal : bool) (product_rows : list priced_product)
    (order_id store_id : Z) (selected_category : string) (d : item_draw)
  : string + order_item_row :=
  let chosen :=
    match (if seasonal then category_products product_rows selected_category
           else None) with
    | Some ids =>
        if from_category d then choice ids (pick d)
        else choice (available_product_ids product_rows) (pick d)
    | None => choice (available_product_ids product_rows) (pick d)
    end in
  match chosen with
  | None => inl "Cannot choose from an empty sequence"
  | Some product_id =>
      match product_prices product_rows product_id with
      | None => inl "KeyError"
      | Some base_price =>
          let quantity := quantity d in
          let unit_price := PrimFloat.mul base_price (price_variation d) in
          let gross := PrimFloat.mul unit_price (float_of_int quantity) in
          let discount_percent :=
            if discounted d then discount_choice d else 0%Z in
          let discount_amount :=
            if discounted d
            then PrimFloat.div
                   (PrimFloat.mul gross (float_of_int discount_percent))
                   100%float
            else 0%float in
          let total_amount := PrimFloat.sub gross discount_amount in
          inr (mkItem order_id store_id product_id quantity unit_price
                      discount_percent discount_amount total_amount)
      end
  end.

Fixpoint order_items (seasonal : bool) (product_rows : list priced_product)
    (order_id store_id : Z) (selected_category : string)
    (draws : list item_draw) (st : state) : state * option string :=
  match draws with
  | [] => (st, None)
  | d :: rest =>
      match order_item seasonal product_rows order_id store_id
              selected_category d with
      | inl e => (st, Some e)
      | inr item =>
          order_items seasonal product_rows order_id store_id
            selected_category rest
            (mkState (total_orders st) (orders_data st)
                     (order_items_data st ++ [item]) (sent st))
      end
  end.

(** The body of [for _ in range(num_orders)], for the orders of one
    customer in turn. *)
Fixpoint customer_orders (seasonal : bool)
    (product_rows : list priced_product) (customer_id store_id : Z)
    (draws : list order_draw) (st : state) : state * option string :=
  match draws with
  | [] => (st, None)
  | d :: rest =>
      let order_id := (total_orders st + 1)%Z in
      if date_ok (year d) (month d) (day d) then
        let st1 :=
          mkState order_id
            (orders_data st
             ++ [mkOrder customer_id store_id (year d, month d, day d)])
            (order_items_data st) (sent st) in
        match order_items seasonal product_rows order_id store_id
                (selected_category d) (item_draws d) st1 with
        | (st2, Some e) => (st2, Some e)
        | (st2, None) =>
            customer_orders seasonal product_rows customer_id store_id
              rest st2
        end
      else
        (mkState order_id (orders_data st) (order_items_data st) (sent st),
         Some "day is out of range for month")
  end.

(** [batch_insert] with its default batch size, added to the calls
    made so far. *)
Definition send {A} (wrap : list A -> batch) (data : list A)
    (calls : list batch) : list batch :=
  match batch_insert data 1000 with
  | inr batches => (calls ++ map wrap batches)%list
  | inl _ => calls
  end.

(** The two [if ...: await batch_insert(...)] blocks. *)
Definition flush (reset : bool) (st : state) : state :=
  let st1 :=
    match orders_data st with
    | [] => st
    | data =>
        mkState (total_orders st) (if reset then [] else data)
                (order_items_data st) (send OrdersBatch data (sent st))
    end in
  match order_items_data st1 with
  | [] => st1
  | data =>
      mkState (total_orders st1) (orders_data st1)
              (if reset then [] else data) (send ItemsBatch data (sent st1))
  end.

(** [for customer_id in range(1, num_customers + 1)], one draw per
    customer. *)
Fixpoint customers_loop (stores : store_config) (table : store_table)
    (seasonal : bool) (product_rows : list priced_product)
    (customer_id : Z) (draws : list customer_draw) (st : state)
  : state * option string :=
  match draws with
  | [] => (st, None)
  | d :: rest =>
      let preferred_store := preferred_store (store_draw d) in
      let store_id := get_store_id_by_name table preferred_store in
      match num_orders (base_orders (store_draw d))
              (order_frequency stores preferred_store) with
      | None => (st, Some "cannot convert float to integer")
      | Some n =>
          match customer_orders seasonal product_rows customer_id store_id
                  (map (order_draws d) (seq 0 (Z.to_nat n))) st with
          | (st1, Some e) => (st1, Some e)
          | (st1, None) =>
              let st2 :=
                if (customer_id mod 1000 =? 0)%Z then flush true st1
                else st1 in
              customers_loop stores table seasonal product_rows
                (customer_id + 1) rest st2
          end
      end
  end.

(** [insert_orders]: the calls of [executemany] it made, in order, and
    the exception that ended it if one did. *)
Definition insert_orders (stores : store_config) (table : store_table)
    (seasonal : bool) (product_rows : list priced_product)
    (draws : list customer_draw) : list batch * option string :=
  match customers_loop stores table seasonal product_rows 1 draws
          (mkState 0 [] [] []) with
  | (st, Some e) => (sent st, Some e)
  | (st, None) => (sent (flush false st), None)
  end.

(** The rows the two tables received. *)
Fixpoint orders_sent (calls : list batch) : list order_row :=
  match calls with
  | [] => []
  | OrdersBatch rows :: r => (rows ++ orders_sent r)%list
  | ItemsBatch _ :: r => orders_sent r
  end.

Fixpoint items_sent (calls : list batch) : list order_item_row :=
  match calls with
  | [] => []
  | OrdersBatch _ :: r => items_sent r
  | ItemsBatch rows :: r => (rows ++ items_sent r)%list
  end.

End OrderSeeder.
(* ------------------------------------------------------------------ *)
(** * Configuration ([workshop/config.py] and
    [mcp_server/sales_analysis/config.py]) *)

Module Config.
Import PyStr.

(** ** [_clean_env_value] *)

(** [s.lstrip(c)], [s.rstrip(c)] and [s.strip(c)] for one character. *)
Fixpoint lstrip_char (c : ascii) (s : string) : string :=
  match s with
  | EmptyString => EmptyString
  | String x r => if Ascii.eqb x c then lstrip_char c r else s
  end.

Definition rstrip_char (c : ascii) (s : string) : string :=
  rev_str EmptyString (lstrip_char c (rev_str EmptyString s)).

Definition strip_char (c : ascii) (s : string) : string :=
  rstrip_char c (lstrip_char c s).

(** [_clean_env_value]: the double quotes at the two ends are
    stripped, then the single quotes; an empty value stays empty. *)
Definition clean_env_value (value : string) : string :=
  if nonempty value then strip_char "'" (strip_char "034" value) else "".

(** ** The pattern [(IngestionEndpoint|LiveEndpoint)=([^;]+)/] *)

(** The alternation, at the start of [s]: the key matched and the text
    after it. *)
Definition match_key (s : string) : option (string * string) :=
  if startswith "IngestionEndpoint" s
  then Some ("IngestionEndpoint", drop 17 s)
  else if startswith "LiveEndpoint" s
  then Some ("LiveEndpoint", drop 12 s)
  else None.

(** The longest run of characters other than [;] at the start of [s],
    and the text after it. *)
Fixpoint span_value (s : string) : string * string :=
  match s with
  | EmptyString => (EmptyString, EmptyString)
  | String c r =>
      if Ascii.eqb c ";" then (EmptyString, s)
      else let (v, rest) := span_value r in (String c v, rest)
  end.

(** The text before and after the last [/] of [s]. *)
Fixpoint cut_last_slash (s : string) : option (string * string) :=
  match s with
  | EmptyString => None
  | String c r =>
      match cut_last_slash r with
      | Some (a, b) => Some (String c a, b)
      | None => if Ascii.eqb c "/" then Some (EmptyString, r) else None
      end
  end.

(** A match of the pattern at the start of [s]: its replacement
    [\1=\2] and the text after the match.  The group [[^;]+] is greedy
    and not empty, so it ends before the last [/] of the run that has
    something before it. *)
Definition match_endpoint (s : string) : option (string * string) :=
  match match_key s with
  | Some (key, String "=" r) =>
      let (value, rest) := span_value r in
      match cut_last_slash value with
      | Some (String c g, w) => Some (key ++ "=" ++ String c g, w ++ rest)
      | _ => None
      end
  | _ => None
  end.

(** [re.sub(pattern, r"\1=\2", s)]: the matches are replaced from left
    to right and the search goes on after each match. *)
Fixpoint sub_steps (fuel : nat) (s : string) : string :=
  match fuel with
  | O => s
  | S k =>
      match s with
      | EmptyString => EmptyString
      | String c r =>
          match match_endpoint s with
          | Some (replacement, rest) => replacement ++ sub_steps k rest
          | None => String c (sub_steps k r)
          end
      end
  end.

Definition sub (s : string) : string := sub_steps (String.length s) s.

(** The property [applicationinsights_connection_string], on the
    cleaned value of the environment variable. *)
Definition applicationinsights_connection_string
    (appinsights_connection_string : string) : string :=
  if negb (nonempty appinsights_connection_string) then ""
  else sub appinsights_connection_string.

End Config.
(* ================================================================== *)
(** * Theorems *)

(* ------------------------------------------------------------------ *)
(** ** Lists *)

Module ListFacts.

Lemma filter_none {A} (f : A -> bool) (l : list A) :
  (forall x, In x l -> f x = false) -> filter f l = [].
Proof.
  induction l as [|x l IH]; intro H; simpl; [reflexivity|].
  rewrite (H x (or_introl eq_refl)). apply IH.
  intros y Hy. apply H. now right.
Qed.

Lemma filter_all {A} (f : A -> bool) (l : list A) :
  (forall x, In x l -> f x = true) -> filter f l = l.
Proof.
  induction l as [|x l IH]; intro H; simpl; [reflexivity|].
  rewrite (H x (or_introl eq_refl)). f_equal. apply IH.
  intros y Hy. apply H. now right.
Qed.

Lemma firstn_In {A} (n : nat) (l : list A) (x : A) :
  In x (firstn n l) -> In x l.
Proof.
  intro H. rewrite <- (firstn_skipn n l). apply in_or_app. now left.
Qed.

End ListFacts.

(* ------------------------------------------------------------------ *)
(** ** Strings *)

Module PyStrFacts.
Import PyStr.

Lemma length_app (a b : string) :
  String.length (a ++ b) = (String.length a + String.length b)%nat.
Proof. induction a as [|c a IH]; simpl; [reflexivity|now rewrite IH]. Qed.

Lemma app_assoc (a b c : string) : (a ++ b) ++ c = a ++ (b ++ c).
Proof. induction a as [|x a IH]; simpl; [reflexivity|now rewrite IH]. Qed.

Lemma take_length (n : nat) (s : string) :
  String.length (take n s) = Nat.min n (String.length s).
Proof.
  revert s. induction n as [|n IH]; intros [|c s]; simpl; try reflexivity.
  now rewrite IH.
Qed.

Lemma take_app (a b : string) : take (String.length a) (a ++ b) = a.
Proof. induction a as [|c a IH]; simpl; [now destruct b|now rewrite IH]. Qed.

Lemma drop_app (a b : string) : drop (String.length a) (a ++ b) = b.
Proof. induction a as [|c a IH]; simpl; [now destruct b|exact IH]. Qed.

Lemma drop_drop (n m : nat) (s : string) :
  drop m (drop n s) = drop (n + m) s.
Proof.
  revert s. induction n as [|n IH]; intro s; simpl.
  - now destruct s.
  - destruct s as [|c s]; [now destruct m|apply IH].
Qed.

Lemma drop_length (n : nat) (s : string) :
  String.length (drop n s) = (String.length s - n)%nat.
Proof.
  revert s. induction n as [|n IH]; intros [|c s]; simpl; try reflexivity.
  apply IH.
Qed.

End PyStrFacts.

(* ------------------------------------------------------------------ *)
(** ** Row-level security *)

Module RlsFacts.
Import Rls PyStrFacts ListFacts.

Lemma holds_or (a b : sql_bool) :
  holds (sql_or a b) = holds a || holds b.
Proof. destruct a as [[|]|], b as [[|]|]; reflexivity. Qed.

Lemma holds_and (a b : sql_bool) :
  holds (sql_and a b) = holds a && holds b.
Proof. destruct a as [[|]|], b as [[|]|]; reflexivity. Qed.

Lemma is_super_manager_spec (sess : session) :
  holds (is_super_manager sess) = true <-> sess = Some SUPER_MANAGER_UUID.
Proof.
  unfold is_super_manager.
  destruct sess as [u|]; simpl.
  - destruct (String.eqb_spec u SUPER_MANAGER_UUID) as [E|N]; split; intro H.
    + now rewrite E.
    + reflexivity.
    + discriminate H.
    + injection H as H. contradiction.
  - split; intro H; discriminate H.
Qed.

(** The [EXISTS] over [stores] finds a store exactly when some store has
    the row's id and prints as the session's identity. *)
Lemma holds_eq_int (a b : Z) :
  holds (sql_eq_int (Some a) (Some b)) = true <-> a = b.
Proof.
  cbn [holds sql_eq_int]. destruct (Z.eqb_spec a b); split; intro H;
    try reflexivity; try assumption; try discriminate H; contradiction.
Qed.

Lemma holds_eq_text (a b : string) :
  holds (sql_eq_text (Some a) (Some b)) = true <-> a = b.
Proof.
  cbn [holds sql_eq_text]. destruct (String.eqb_spec a b); split; intro H;
    try reflexivity; try assumption; try discriminate H; contradiction.
Qed.

(** The [EXISTS] over [stores] finds a store exactly when some store has
    the row's id and prints as the session's identity. *)
Lemma store_of_session_spec (db : database) (sess : session) (sid : option Z) :
  store_of_session db sess sid = true <->
  exists s, In s (stores db)
            /\ sid = Some (store_id s)
            /\ sess = Some (uuid_text (rls_user_id s)).
Proof.
  unfold store_of_session. rewrite existsb_exists.
  split.
  - intros (s & Hin & H). exists s. split; [exact Hin|].
    rewrite holds_and in H. apply andb_true_iff in H as [H1 H2].
    destruct sid as [z|]; [|discriminate H1].
    destruct sess as [u|]; [|discriminate H2].
    apply holds_eq_int in H1. apply holds_eq_text in H2.
    split; congruence.
  - intros (s & Hin & Hsid & Hsess). exists s. split; [exact Hin|].
    rewrite holds_and, Hsid, Hsess. apply andb_true_iff.
    split; [now apply holds_eq_int | now apply holds_eq_text].
Qed.

Lemma store_keyed_policy_spec (db : database) (sess : session) (sid : Z) :
  holds (store_keyed_policy db sess sid) = true <->
  sess = Some SUPER_MANAGER_UUID
  \/ exists s, In s (stores db)
               /\ store_id s = sid
               /\ sess = Some (uuid_text (rls_user_id s)).
Proof.
  unfold store_keyed_policy. rewrite holds_or, orb_true_iff.
  rewrite is_super_manager_spec.
  replace (holds (Some (store_of_session db sess (Some sid))))
    with (store_of_session db sess (Some sid))
    by (now destruct (store_of_session db sess (Some sid))).
  rewrite store_of_session_spec.
  split; (intros [H|(s & Hin & H1 & H2)]; [left; exact H|right; exists s]).
  - injection H1 as H1. split; [exact Hin|]. split; [symmetry; exact H1|exact H2].
  - split; [exact Hin|]. split; [congruence|exact H2].
Qed.

Lemma hex_length (n : nat) (v : N) : String.length (hex n v) = n.
Proof.
  revert v. induction n as [|n IH]; intro v.
  - reflexivity.
  - change (hex (S n) v)
      with (hex n (v / 16) ++ String (hex_char (v mod 16)) EmptyString).
    rewrite length_app, IH. simpl. lia.
Qed.

(** A printed UUID is never the empty string. *)
Lemma uuid_text_nonempty (u : uuid) : uuid_text u <> "".
Proof.
  unfold uuid_text. intro H.
  apply (f_equal String.length) in H.
  rewrite length_app, take_length, hex_length in H.
  change (Nat.min 8 32) with 8%nat in H. discriminate H.
Qed.

(** An unidentified session passes neither test of a policy. *)
Lemma unidentified_not_super (db : database) (sess : session) :
  unidentified db sess -> holds (is_super_manager sess) = false.
Proof.
  intros H. destruct (holds (is_super_manager sess)) eqn:E; [|reflexivity].
  apply is_super_manager_spec in E. subst sess.
  destruct H as [H|[H|(u & H & Hu & _)]]; try discriminate H.
  injection H as H. now subst u.
Qed.

Lemma unidentified_no_store (db : database) (sess : session) (s : store) :
  unidentified db sess -> In s (stores db) ->
  holds (sql_eq_text (Some (uuid_text (rls_user_id s))) sess) = false.
Proof.
  intros H Hin. destruct sess as [u|]; [|reflexivity].
  apply not_true_is_false. intro E. apply holds_eq_text in E.
  destruct H as [H|[H|(u' & H & _ & Hall)]].
  - discriminate H.
  - injection H as H. subst u. exact (uuid_text_nonempty (rls_user_id s) E).
  - injection H as H. subst u'. exact (Hall s Hin E).
Qed.

Lemma unidentified_store_of_session (db : database) (sess : session)
    (sid : option Z) :
  unidentified db sess -> store_of_session db sess sid = false.
Proof.
  intro H. unfold store_of_session.
  apply not_true_is_false. rewrite existsb_exists.
  intros (s & Hin & Hs). rewrite holds_and in Hs.
  rewrite (unidentified_no_store db sess s H Hin), andb_false_r in Hs.
  discriminate Hs.
Qed.

Lemma unidentified_ordered (db : database) (sess : session) (c : customer) :
  unidentified db sess -> ordered_from_session_store db sess c = false.
Proof.
  intro H. unfold ordered_from_session_store.
  apply not_true_is_false. rewrite existsb_exists.
  intros (o & _ & Ho). rewrite existsb_exists in Ho.
  destruct Ho as (s & Hin & Hs).
  rewrite holds_and in Hs.
  rewrite (unidentified_no_store db sess s H Hin) in Hs.
  rewrite !andb_false_r in Hs. discriminate Hs.
Qed.

(** C1. The [store_manager_orders] predicate admits an order exactly when
    the session identity is the super-manager UUID or is the printed
    [rls_user_id] of the store the order belongs to.  Hence a session
    with any other identity reads only orders of a store carrying that
    identity, and the super manager reads every order: the same rows and
    the same count as the unfiltered table. *)
Theorem c1_orders_partition :
  (forall db sess o,
      holds (store_manager_orders db sess o) = true <->
      sess = Some SUPER_MANAGER_UUID
      \/ exists s, In s (stores db)
                   /\ store_id s = o_store_id o
                   /\ sess = Some (uuid_text (rls_user_id s)))
  /\ (forall db ident o,
        ident <> SUPER_MANAGER_UUID ->
        In o (select_orders db (Some ident)) ->
        exists s, In s (stores db)
                  /\ store_id s = o_store_id o
                  /\ uuid_text (rls_user_id s) = ident)
  /\ (forall db,
        select_orders db (Some SUPER_MANAGER_UUID) = orders db
        /\ count_orders db (Some SUPER_MANAGER_UUID) = List.length (orders db)).
Proof.
  split; [|split].
  - intros db sess o. apply store_keyed_policy_spec.
  - intros db ident o Hne Hin.
    apply filter_In in Hin as [_ Hadm].
    apply store_keyed_policy_spec in Hadm as [H|(s & Hs & Hid & H)].
    + injection H as H. contradiction.
    + exists s. injection H as H. now repeat split.
  - intro db.
    assert (E : select_orders db (Some SUPER_MANAGER_UUID) = orders db).
    { apply filter_all. intros o _. apply store_keyed_policy_spec. now left. }
    split; [exact E|]. unfold count_orders. now rewrite E.
Qed.

(** The partition on the two-store database: Seattle's manager reads
    Seattle's single order, the super manager all four. *)
Lemma c1_orders_partition_witness :
  map order_id (select_orders demo_db (Some (uuid_text seattle))) = [1%Z]
  /\ (forall o, In o (select_orders demo_db (Some (uuid_text seattle))) ->
        exists s, In s (stores demo_db)
                  /\ store_id s = o_store_id o
                  /\ uuid_text (rls_user_id s) = uuid_text seattle)
  /\ count_orders demo_db (Some SUPER_MANAGER_UUID) = 4%nat.
Proof.
  split; [reflexivity|split].
  - intros o Ho.
    apply (proj1 (proj2 c1_orders_partition) demo_db (uuid_text seattle) o).
    + vm_compute. discriminate.
    + exact Ho.
  - reflexivity.
Defined.

(** C10. The policies fail closed: when the session variable is unset,
    empty, or names neither the super manager nor any store, a query of
    [orders], [order_items], [inventory] or [customers] returns no row. *)
Theorem c10_fail_closed (db : database) (sess : session) :
  unidentified db sess ->
  select_orders db sess = []
  /\ select_order_items db sess = []
  /\ select_inventory db sess = []
  /\ select_customers db sess = [].
Proof.
  intro H.
  assert (K : forall sid, holds (store_keyed_policy db sess sid) = false).
  { intro sid. unfold store_keyed_policy.
    rewrite holds_or, (unidentified_not_super db sess H).
    now rewrite (unidentified_store_of_session db sess (Some sid) H). }
  repeat split; apply filter_none; intros x _.
  - apply K.
  - apply K.
  - apply K.
  - unfold store_manager_customers.
    rewrite !holds_or, (unidentified_not_super db sess H).
    rewrite (unidentified_store_of_session db sess _ H).
    now rewrite (unidentified_ordered db sess x H).
Qed.

(** Fail-closed on the two-store database, for the unset variable. *)
Lemma c10_fail_closed_witness :
  select_orders demo_db None = []
  /\ select_order_items demo_db None = []
  /\ select_inventory demo_db None = []
  /\ select_customers demo_db None = [].
Proof.
  apply (c10_fail_closed demo_db None). left. reflexivity.
Defined.

End RlsFacts.

(* ------------------------------------------------------------------ *)
(** ** The SKU assigner *)

Module SkuFacts.
Import Sku.

(** *** What the assigner guarantees when the retry bound is not hit *)

Lemma in_list_In (x : string) (l : list string) :
  in_list x l = true <-> In x l.
Proof.
  unfold in_list. rewrite existsb_exists. split.
  - intros (y & Hy & E). apply String.eqb_eq in E. now subst.
  - intro H. exists x. split; [exact H|apply String.eqb_refl].
Qed.

Lemma set_add_In (k x : string) (l : list string) :
  In k (set_add x l) <-> k = x \/ In k l.
Proof.
  unfold set_add. destruct (in_list x l) eqn:E.
  - apply in_list_In in E. split; [now right|]. intros [->|H]; assumption.
  - simpl. intuition congruence.
Qed.

(** The retry loop leaves the set and the log alone; it ends on a SKU
    outside the set unless it logged the error. *)
Lemma ensure_unique_spec (category product_type key : string)
    (remaining : nat) :
  forall s sku s' final,
    ensure_unique remaining category product_type key s sku = Some (s', final) ->
    existing_skus s' = existing_skus s
    /\ assignment_log s' = assignment_log s
    /\ exists extra,
         error_log s' = (error_log s ++ extra)%list
         /\ (extra = [] -> in_list final (existing_skus s) = false).
Proof.
  induction remaining as [|r IH]; intros s sku s' final H;
    cbn [ensure_unique] in H;
    destruct (in_list sku (existing_skus s)) eqn:M.
  - destruct (generate_sku _ _ _) as [next|]; [|discriminate H].
    injection H as <- <-. repeat split.
    eexists. split; [reflexivity|]. discriminate.
  - injection H as <- <-. repeat split.
    exists []. split; [now rewrite List.app_nil_r|]. now intros _.
  - destruct (generate_sku _ _ _) as [next|]; [|discriminate H].
    cbn [bind] in H. apply IH in H as (E & L & extra & X & F).
    repeat split; [exact E|exact L|].
    exists extra. split; [exact X|exact F].
  - injection H as <- <-. repeat split.
    exists []. split; [now rewrite List.app_nil_r|]. now intros _.
Qed.

(** One product: nothing happens, or one SKU is proposed and joins the
    set. *)
Lemma assign_product_spec (dry_run : bool) (category product_type : string)
    (i : nat) (it : item) (s s' : run_state) (it' : item) :
  assign_product dry_run category product_type i it s = Some (s', it') ->
  (dry_run = true -> it' = it)
  /\ (s' = s
      \/ exists final extra,
           proposed_skus s' = (proposed_skus s ++ [final])%list
           /\ existing_skus s' = set_add final (existing_skus s)
           /\ error_log s' = (error_log s ++ extra)%list
           /\ (extra = [] -> in_list final (existing_skus s) = false)).
Proof.
  unfold assign_product. destruct it as [p|].
  - destruct (sku_of p).
    + intro H. injection H as <- <-. split; [reflexivity|now left].
    + destruct (generate_sku _ _ _) as [base|]; [|discriminate].
      cbn [bind].
      destruct (ensure_unique _ _ _ _ _ _) as [[s2 final]|] eqn:U;
        [|discriminate].
      cbn [bind]. intro H. injection H as <- <-.
      apply ensure_unique_spec in U as (E & L & extra & X & F).
      split; [now intros ->|]. right. exists final, extra.
      unfold proposed_skus.
      cbn [existing_skus assignment_log error_log sku_counters] in *.
      rewrite L, E, map_app. repeat split; assumption.
  - intro H. injection H as <- <-. split; [reflexivity|now left].
Qed.

(** The SKUs proposed so far are pairwise distinct, none of them is one
    of the [initial] SKUs, and the set holds them all and the initial
    ones. *)
Definition sound (initial : list string) (s : run_state) : Prop :=
  NoDup (proposed_skus s)
  /\ (forall k, In k (proposed_skus s) -> ~ In k initial)
  /\ (forall k, In k (proposed_skus s) -> In k (existing_skus s))
  /\ (forall k, In k initial -> In k (existing_skus s)).

Lemma assign_product_sound (initial : list string) (dry_run : bool)
    (category product_type : string) (i : nat) (it : item)
    (s s' : run_state) (it' : item) :
  assign_product dry_run category product_type i it s = Some (s', it') ->
  error_log s' = [] ->
  (error_log s = [] /\ (sound initial s -> sound initial s'))
  /\ (dry_run = true -> it' = it).
Proof.
  intros H Herr.
  apply assign_product_spec in H as [Hdry [->|(final & extra & P & E & X & F)]].
  - split; [|exact Hdry]. split; [exact Herr|tauto].
  - split; [|exact Hdry].
    rewrite X in Herr. apply List.app_eq_nil in Herr as [H0 Hx].
    split; [exact H0|]. intros (ND & Hnew & Hin & Hinit).
    specialize (F Hx).
    assert (Hfresh : ~ In final (existing_skus s)).
    { intro K. apply in_list_In in K. rewrite K in F. discriminate F. }
    unfold sound. rewrite P, E. repeat split.
    + apply NoDup_app; [exact ND|constructor; [intros []|constructor]|].
      intros k Hk [Ek|[]]. subst k. exact (Hfresh (Hin _ Hk)).
    + intros k Hk. apply in_app_or in Hk as [Hk|[Ek|[]]].
      * exact (Hnew k Hk).
      * subst k. intro K. exact (Hfresh (Hinit _ K)).
    + intros k Hk. apply set_add_In.
      apply in_app_or in Hk as [Hk|[Ek|[]]];
        [right; exact (Hin k Hk)|left; now subst k].
    + intros k Hk. apply set_add_In. right. exact (Hinit k Hk).
Qed.

Lemma assign_products_sound (initial : list string) (dry_run : bool)
    (category product_type : string) (products : list item) :
  forall i s s' products',
    assign_products dry_run category product_type i products s
    = Some (s', products') ->
    error_log s' = [] ->
    (error_log s = [] /\ (sound initial s -> sound initial s'))
    /\ (dry_run = true -> products' = products).
Proof.
  induction products as [|it rest IH]; intros i s s' products' H Herr;
    cbn [assign_products] in H.
  - injection H as <- <-. split; [split; [exact Herr|tauto]|reflexivity].
  - destruct (assign_product _ _ _ _ _ _) as [[s1 it']|] eqn:A;
      [|discriminate H].
    cbn [bind] in H.
    destruct (assign_products _ _ _ _ rest s1) as [[s2 rest']|] eqn:B;
      [|discriminate H].
    cbn [bind] in H. injection H as <- <-.
    destruct (IH _ _ _ _ B Herr) as [[E1 S1] D1].
    destruct (assign_product_sound initial _ _ _ _ _ _ _ _ A E1)
      as [[E0 S0] D0].
    split; [split; [exact E0|tauto]|].
    intro Hd. now rewrite (D0 Hd), (D1 Hd).
Qed.

Lemma assign_category_sound (initial : list string) (dry_run : bool)
    (category : string) (data : category_data) :
  forall s s' data',
    assign_category dry_run category data s = Some (s', data') ->
    error_log s' = [] ->
    (error_log s = [] /\ (sound initial s -> sound initial s'))
    /\ (dry_run = true -> data' = data).
Proof.
  induction data as [|[ty [products|]] rest IH]; intros s s' data' H Herr;
    cbn [assign_category] in H.
  - injection H as <- <-. split; [split; [exact Herr|tauto]|reflexivity].
  - destruct (assign_products _ _ _ _ _ _) as [[s1 products']|] eqn:A;
      [|discriminate H].
    cbn [bind] in H.
    destruct (assign_category _ _ rest s1) as [[s2 rest']|] eqn:B;
      [|discriminate H].
    cbn [bind] in H. injection H as <- <-.
    destruct (IH _ _ _ B Herr) as [[E1 S1] D1].
    destruct (assign_products_sound initial _ _ _ _ _ _ _ _ A E1)
      as [[E0 S0] D0].
    split; [split; [exact E0|tauto]|].
    intro Hd. now rewrite (D0 Hd), (D1 Hd).
  - destruct (assign_category _ _ rest s) as [[s1 rest']|] eqn:B;
      [|discriminate H].
    cbn [bind] in H. injection H as <- <-.
    destruct (IH _ _ _ B Herr) as [[E1 S1] D1].
    split; [split; [exact E1|exact S1]|].
    intro Hd. now rewrite (D1 Hd).
Qed.

Lemma assign_catalog_sound (initial : list string) (dry_run : bool)
    (product_data : catalog) :
  forall s s' product_data',
    assign_catalog dry_run product_data s = Some (s', product_data') ->
    error_log s' = [] ->
    (error_log s = [] /\ (sound initial s -> sound initial s'))
    /\ (dry_run = true -> product_data' = product_data).
Proof.
  induction product_data as [|[category data] rest IH];
    intros s s' product_data' H Herr; cbn [assign_catalog] in H.
  - injection H as <- <-. split; [split; [exact Herr|tauto]|reflexivity].
  - destruct (assign_category _ _ _ _) as [[s1 data']|] eqn:A;
      [|discriminate H].
    cbn [bind] in H.
    destruct (assign_catalog _ rest s1) as [[s2 rest']|] eqn:B;
      [|discriminate H].
    cbn [bind] in H. injection H as <- <-.
    destruct (IH _ _ _ B Herr) as [[E1 S1] D1].
    destruct (assign_category_sound initial _ _ _ _ _ _ A E1)
      as [[E0 S0] D0].
    split; [split; [exact E0|tauto]|].
    intro Hd. now rewrite (D0 Hd), (D1 Hd).
Qed.

(** X25. A run that logs no error proposes pairwise distinct SKUs, none of
    which existed before; and a dry run hands the catalog back as it
    received it, so a second dry run proposes the same SKUs. *)
Theorem assigner_sound_without_errors (product_data product_data' : catalog)
    (dry_run : bool) (s : run_state) :
  generate_and_assign_skus product_data dry_run = Some (s, product_data') ->
  error_log s = [] ->
  NoDup (proposed_skus s)
  /\ (forall k, In k (proposed_skus s) ->
        ~ In k (collect_existing_skus product_data))
  /\ (dry_run = true ->
        product_data' = product_data
        /\ generate_and_assign_skus product_data' dry_run
           = Some (s, product_data')).
Proof.
  unfold generate_and_assign_skus. intros H Herr.
  pose proof H as H'.
  apply (assign_catalog_sound (collect_existing_skus product_data)) in H
    as [[_ S] D]; [|exact Herr].
  destruct S as (ND & Hnew & _ & _).
  { repeat split; cbn; try constructor; try tauto. }
  split; [exact ND|]. split; [exact Hnew|].
  intro Hd. specialize (D Hd). subst product_data'. now split.
Qed.

(** C5. The derivation on the specification's five examples: four give
    the stated code, and ["HAMMERS"], seven letters long, takes its first
    letter and the next two consonants, which is [HMM] and not the [HAM]
    of the function's own docstring. *)
Theorem c5_code_derivation_examples :
  generate_category_code "HAND TOOLS" = Some "HT"
  /\ generate_category_code "LUMBER & BUILDING MATERIALS" = Some "LB"
  /\ generate_type_code "SCREWDRIVERS" = "SCR"
  /\ generate_type_code "PLYWOOD" = "PLY"
  /\ generate_type_code "HAMMERS" = "HMM".
Proof. repeat split; reflexivity. Qed.

(** C4. A bucket whose next 1001 sequence numbers are all taken: the
    retry loop gives up after 1000 attempts, logs the error, and the SKU
    it stopped at, [HTHMM1001], is proposed although it already belongs
    to a product of the catalog.  The dry run leaves the catalog as it
    was. *)
Theorem c4_retry_bound_proposes_taken_sku :
  exists s,
    generate_and_assign_skus crowded_catalog true = Some (s, crowded_catalog)
    /\ proposed_skus s = ["HTHMM1001"]
    /\ in_list "HTHMM1001" (collect_existing_skus crowded_catalog) = true
    /\ conflicts_resolved s = 1000%N
    /\ error_log s = ["Could not generate unique SKU for HAND TOOLS/HAMMERS"].
Proof.
  eexists. split; [vm_compute; reflexivity|].
  split; [reflexivity|].
  split; [vm_compute; reflexivity|].
  split; reflexivity.
Qed.

End SkuFacts.

(* ------------------------------------------------------------------ *)
(** ** The streaming event handler *)

Module StreamFacts.
Import PyStr PyStrFacts StreamHandler.

Fixpoint concat_str (l : list string) : string :=
  match l with
  | [] => ""
  | x :: r => x ++ concat_str r
  end.

Lemma concat_str_app (a b : list string) :
  concat_str (a ++ b) = concat_str a ++ concat_str b.
Proof.
  induction a as [|x a IH]; simpl; [reflexivity|].
  now rewrite IH, app_assoc.
Qed.

Lemma emitted_text_app (a b : list queue_item) :
  emitted_text (a ++ b) = (emitted_text a ++ emitted_text b)%list.
Proof.
  induction a as [|[c|f] a IH]; simpl; [reflexivity| |exact IH].
  now rewrite IH.
Qed.

(** What one delta does to an open handler depends on its buffer only:
    [step buf delta] is the items queued and the buffer left. *)
Definition step (buf delta : string) : list queue_item * string :=
  let h := on_message_delta delta (mkHandler "" [] false buf) in
  (token_queue h, text_buffer h).

Lemma put_safely_open (x : queue_item) (am : string) (q : list queue_item)
    (b : string) :
  put_safely x (mkHandler am q false b) = mkHandler am (q ++ [x]) false b.
Proof. reflexivity. Qed.

Lemma process_frame (am : string) (q : list queue_item) (buf : string) :
  let h0 := process_buffered_text (mkHandler "" [] false buf) in
  process_buffered_text (mkHandler am q false buf)
  = mkHandler am (q ++ token_queue h0) false (text_buffer h0).
Proof.
  unfold process_buffered_text, set_buffer.
  cbn [text_buffer assistant_message token_queue is_closed].
  repeat match goal with
  | |- context [if ?c then _ else _] =>
      lazymatch c with
      | context [if _ then _ else _] => fail
      | _ => destruct c eqn:?
      end; rewrite ?put_safely_open;
      cbn [text_buffer assistant_message token_queue is_closed]
  end;
  rewrite ?app_nil_r; cbn [app]; rewrite <- ?List.app_assoc; reflexivity.
Qed.

Lemma delta_frame (h : handler) (d : string) :
  is_closed h = false ->
  let h' := on_message_delta d h in
  token_queue h' = (token_queue h ++ fst (step (text_buffer h) d))%list
  /\ text_buffer h' = snd (step (text_buffer h) d)
  /\ is_closed h' = false.
Proof.
  destruct h as [am q cl buf]. cbn [is_closed text_buffer token_queue].
  intros ->. unfold step, on_message_delta.
  cbn [is_closed text_buffer token_queue assistant_message].
  destruct (nonempty d).
  - rewrite (process_frame (am ++ d) q (buf ++ d)).
    rewrite (process_frame ("" ++ d) [] (buf ++ d)).
    cbn [is_closed text_buffer token_queue]. now repeat split.
  - cbn [is_closed text_buffer token_queue fst snd].
    now rewrite app_nil_r.
Qed.

(** The state after the first [k] characters of [message] have arrived,
    however they were cut into deltas: the buffer holds the part of the
    image reference read so far, and the text queued so far reads
    [visible k]. *)
Definition ref_start : nat := 4.
Definition ref_end : nat := 35.
Definition total : nat := 40.

Definition buf_at (k : nat) : string :=
  if (ref_start <=? k)%nat && (k <? ref_end)%nat
  then take (k - ref_start) (drop ref_start message)
  else "".

Definition visible (k : nat) : string :=
  if (k <=? ref_start)%nat then take k message
  else if (k <? ref_end)%nat then "see "
  else "see " ++ take (k - ref_end) (drop ref_end message).

Definition clean (chunk : string) : bool := negb (contains image_ref chunk).

(** One delta of [n] characters arriving at position [a] moves the state
    at [a] to the state at [a + n] and queues only clean text. *)
Definition step_ok (a n : nat) : bool :=
  let (out, buf) := step (buf_at a) (take n (drop a message)) in
  String.eqb buf (buf_at (a + n))
  && String.eqb (visible a ++ concat_str (emitted_text out)) (visible (a + n))
  && forallb clean (emitted_text out).

Definition table_ok : bool :=
  forallb (fun a => forallb (step_ok a) (seq 1 (total - a))) (seq 0 (S total)).

Lemma table_checked : table_ok = true.
Proof. vm_compute. reflexivity. Qed.

Lemma step_table (a n : nat) :
  (1 <= n)%nat -> (a + n <= total)%nat -> step_ok a n = true.
Proof.
  intros Hn Han.
  pose proof table_checked as T. unfold table_ok in T.
  rewrite forallb_forall in T.
  assert (Ha : In a (seq 0 (S total))) by (apply in_seq; unfold total in *; lia).
  specialize (T a Ha). rewrite forallb_forall in T.
  apply T. apply in_seq. unfold total in *. lia.
Qed.

Lemma message_length : String.length message = total.
Proof. reflexivity. Qed.

(** Feeding the rest of the message from position [a]. *)
Lemma feed_invariant (deltas : list string) :
  forall (a : nat) (h : handler),
    (a <= total)%nat ->
    concat_str deltas = drop a message ->
    is_closed h = false ->
    text_buffer h = buf_at a ->
    exists out,
      token_queue (feed deltas h) = (token_queue h ++ out)%list
      /\ text_buffer (feed deltas h) = ""
      /\ visible a ++ concat_str (emitted_text out) = visible total
      /\ forallb clean (emitted_text out) = true.
Proof.
  induction deltas as [|d rest IH]; intros a h Ha Hcat Hopen Hbuf.
  - assert (a = total).
    { apply (f_equal String.length) in Hcat.
      rewrite drop_length, message_length in Hcat.
      cbn [concat_str String.length] in Hcat. unfold total in *. lia. }
    subst a. exists []. cbn [feed fold_left].
    rewrite List.app_nil_r, Hbuf. repeat split.
  - cbn [concat_str] in Hcat.
    destruct (nonempty d) eqn:Hd.
    + set (n := String.length d).
      assert (Hn : (1 <= n)%nat) by (subst n; destruct d; [discriminate Hd|simpl; lia]).
      assert (Han : (a + n <= total)%nat).
      { apply (f_equal String.length) in Hcat.
        rewrite length_app, drop_length, message_length in Hcat.
        fold n in Hcat. unfold total in *. lia. }
      assert (Ed : d = take n (drop a message)).
      { rewrite <- Hcat. subst n. now rewrite take_app. }
      assert (Er : concat_str rest = drop (a + n) message).
      { rewrite <- drop_drop, <- Hcat. subst n. now rewrite drop_app. }
      pose proof (step_table a n Hn Han) as T. unfold step_ok in T.
      rewrite <- Ed in T.
      destruct (delta_frame h d Hopen) as (Hq & Hb & Hc).
      rewrite Hbuf in Hq, Hb.
      destruct (step (buf_at a) d) as [out1 buf1].
      cbn [fst snd] in Hq, Hb.
      apply andb_true_iff in T as [T T3]. apply andb_true_iff in T as [T1 T2].
      apply String.eqb_eq in T1, T2. subst buf1.
      destruct (IH (a + n)%nat (on_message_delta d h) Han Er Hc Hb)
        as (out2 & Q & B & V & C).
      exists (out1 ++ out2)%list. cbn [feed fold_left].
      change (fold_left (fun h d => on_message_delta d h) rest
                (on_message_delta d h))
        with (feed rest (on_message_delta d h)).
      rewrite Q, Hq, <- List.app_assoc. split; [reflexivity|].
      split; [exact B|].
      rewrite emitted_text_app, concat_str_app, <- app_assoc, T2.
      split; [exact V|].
      now rewrite forallb_app, T3, C.
    + destruct d; [|discriminate Hd]. cbn [append] in Hcat.
      destruct (IH a h Ha Hcat Hopen Hbuf) as (out & Q & B & V & C).
      exists out. cbn [feed fold_left].
      change (on_message_delta "" h) with h.
      now repeat split.
Qed.

(** C3. Fed the four deltas of the specification, the handler queues
    ["see "] and then [" done"].  However the message is cut into deltas,
    the queued text reads ["see "] followed by [" done"] and no queued
    item contains the image reference. *)
Theorem c3_markdown_buffer :
  emitted ["see "; "![img]("; "sandbox:/mnt/data/x.png)"; " done"]
  = ["see "; " done"]
  /\ forall deltas,
       concat_str deltas = message ->
       concat_str (emitted deltas) = "see " ++ " done"
       /\ forallb (fun chunk => negb (contains image_ref chunk))
            (emitted deltas) = true.
Proof.
  split; [reflexivity|].
  intros deltas Hcat.
  destruct (feed_invariant deltas 0 init (Nat.le_0_l _) Hcat eq_refl eq_refl)
    as (out & Q & B & V & C).
  unfold emitted, run, on_done. rewrite B. cbn [nonempty].
  rewrite Q. cbn [init token_queue app].
  split; [exact V|exact C].
Qed.

(** Another cut of the same message, through the reference and through
    the closing parenthesis. *)
Lemma c3_markdown_buffer_witness :
  concat_str (emitted ["see !"; "[img](sandbox:/mnt"; "/data/x.png"; ") do"; "ne"])
  = "see " ++ " done".
Proof.
  apply (proj2 c3_markdown_buffer). reflexivity.
Defined.

End StreamFacts.

(* ------------------------------------------------------------------ *)
(** ** The web chat relay *)

Module WebFacts.
Import PyStr PyStrFacts WebApp.

(** *** Uploads *)

Definition too_large_error : string :=
  "Error processing file: 413: File too large (max 10MB)".

(** C9. An upload of exactly 10MB + 1 byte is answered with the "too
    large" error, and an upload of a [.md] file within the limit whose
    content decodes is answered with a message carrying the decoded
    content as the extracted text; in neither case is anything sent to
    the agent runtime. *)
Theorem c9_upload (decode_utf8 : list byte -> string + string)
    (file : upload) (message : option string) :
  (Z.of_nat (List.length (content file)) = (10 * 1024 * 1024 + 1)%Z ->
     upload_file decode_utf8 file message = (Failed too_large_error, [])
     /\ contains "too large" too_large_error = true)
  /\ (forall text,
        file_extension (filename file) = "md" ->
        (Z.of_nat (List.length (content file)) <= 10 * 1024 * 1024)%Z ->
        decode_utf8 (content file) = inl text ->
        extract_text decode_utf8 file = inr text
        /\ upload_file decode_utf8 file message
           = (Accepted (combine message text) (filename file), [])).
Proof.
  split.
  - intro Hlen. split; [|reflexivity].
    unfold upload_file, extract_text.
    replace (max_upload <? Z.of_nat (List.length (content file)))%Z with true.
    + reflexivity.
    + symmetry. apply Z.ltb_lt. rewrite Hlen. reflexivity.
  - intros text Hext Hlen Hdec.
    assert (E : extract_text decode_utf8 file = inr text).
    { unfold extract_text.
      replace (max_upload <? Z.of_nat (List.length (content file)))%Z
        with false by (symmetry; apply Z.ltb_ge; exact Hlen).
      rewrite Hext, Hdec. reflexivity. }
    split; [exact E|]. unfold upload_file. now rewrite E.
Qed.

Definition oversized : upload :=
  mkUpload (Some "dump.bin") (repeat x00 (N.to_nat 10485761)).

Definition readme : upload :=
  mkUpload (Some "README.MD") [x23; x20; x5a; x61; x76; x61].

(** Both cases on concrete files: 10485761 zero bytes, and a six-byte
    Markdown file. *)
Lemma c9_upload_witness :
  upload_file decode_7bit oversized None = (Failed too_large_error, [])
  /\ upload_file decode_7bit readme (Some "what is this?")
     = (Accepted (combine (Some "what is this?") "# Zava") (Some "README.MD"),
        []).
Proof.
  split.
  - apply (c9_upload decode_7bit oversized None).
    unfold oversized. cbn [content].
    rewrite repeat_length, N_nat_Z. reflexivity.
  - apply (c9_upload decode_7bit readme (Some "what is this?")).
    + reflexivity.
    + vm_compute. discriminate.
    + reflexivity.
Defined.

(** *** The stream proxy *)

Lemma sse_object_not_done (fields : list (string * json)) :
  String.eqb (sse (JObj fields)) done_event = false.
Proof.
  unfold sse, done_event. cbn [json_dumps].
  destruct fields; reflexivity.
Qed.

(** An event the relay forwards or builds from an exception: a JSON
    object on a [data:] line. *)
Definition is_data_event (e : string) : Prop :=
  exists fields, e = sse (JObj fields).

Lemma data_event_not_done (e : string) : is_data_event e -> e <> done_event.
Proof.
  intros [fields ->] H. apply String.eqb_eq in H.
  rewrite sse_object_not_done in H. discriminate H.
Qed.

Lemma handler_event_is_data (e : exn) : is_data_event (handler_event e).
Proof. destruct e; eexists; reflexivity. Qed.

Section RelayFacts.

Variable json_loads : string -> option json.

Lemma relay_lines_events (lines : list string) :
  Forall is_data_event (fst (relay_lines json_loads lines)).
Proof.
  induction lines as [|line rest IH]; cbn [relay_lines]; [constructor|].
  destruct (startswith "data: " line); [|exact IH].
  destruct (json_loads (drop 6 line)) as [[| | | | |fields]|];
    try exact IH; try constructor.
  destruct (relay_lines json_loads rest) as [evs raised].
  cbn [fst] in IH.
  destruct (truthy (dict_get "content" fields)).
  { destruct (dict_get "content" fields); cbn [fst]; try constructor;
      [eexists; reflexivity|exact IH]. }
  destruct (truthy (dict_get "file_info" fields)).
  { cbn [fst]. constructor; [eexists; reflexivity|exact IH]. }
  destruct (truthy (dict_get "error" fields)).
  { cbn [fst]. constructor; [eexists; reflexivity|exact IH]. }
  destruct (truthy (dict_get "done" fields)); [constructor|exact IH].
Qed.

Lemma relay_chunks_events (cs : list string) :
  Forall is_data_event (fst (relay_chunks json_loads cs)).
Proof.
  induction cs as [|chunk rest IH]; cbn [relay_chunks]; [constructor|].
  destruct (nonempty (strip chunk)); [|exact IH].
  pose proof (relay_lines_events (split_on "010" (strip chunk))) as L.
  destruct (relay_lines json_loads (split_on "010" (strip chunk)))
    as [evs [e|]]; cbn [fst] in *; [exact L|].
  destruct (relay_chunks json_loads rest) as [evs' raised'].
  cbn [fst] in *. apply Forall_app. now split.
Qed.

(** The agent runtime answered 200 and nothing was raised while its body
    was relayed. *)
Definition clean_run (up : upstream) : bool :=
  match up with
  | Refused _ => false
  | Answered r =>
      (status_code r =? 200)%N
      && match snd (relay_chunks json_loads (chunks r)) with
         | Some _ => false
         | None => true
         end
      && match read_failure r with
         | Some _ => false
         | None => true
         end
  end.

(** C2, as the code has it.  A stream is a run of forwarded events, none
    of them the sentinel, and one final event: the sentinel
    [data: [DONE]\n\n] when the agent runtime answered 200 and nothing
    was raised while relaying, and otherwise an error event, after which
    no sentinel is sent. *)
Theorem c2_stream_termination (agent : agent_request -> upstream)
    (message session_id rls_user_id : string) :
  exists body final,
    generate_stream json_loads agent message session_id rls_user_id
    = (body ++ [final])%list
    /\ Forall (fun e => e <> done_event) body
    /\ if clean_run (agent (mkRequest "POST" "/chat/stream"
                              (request_data message session_id rls_user_id)))
       then final = done_event
       else (exists msg, final = error_event msg) /\ final <> done_event.
Proof.
  unfold generate_stream, clean_run.
  destruct (agent _) as [e|r].
  - exists [], (handler_event e). split; [reflexivity|].
    split; [constructor|]. split.
    + destruct e; eexists; reflexivity.
    + apply data_event_not_done, handler_event_is_data.
  - destruct (status_code r =? 200)%N; cbn [negb andb].
    + pose proof (relay_chunks_events (chunks r)) as F.
      destruct (relay_chunks json_loads (chunks r)) as [evs raised].
      cbn [fst snd] in *.
      assert (B : Forall (fun e => e <> done_event) evs).
      { eapply Forall_impl; [|exact F]. exact data_event_not_done. }
      destruct raised as [e|].
      * exists evs, (handler_event e). repeat split; try assumption.
        -- destruct e; eexists; reflexivity.
        -- apply data_event_not_done, handler_event_is_data.
      * destruct (read_failure r) as [e|].
        -- exists evs, (handler_event e). repeat split; try assumption.
           ++ destruct e; eexists; reflexivity.
           ++ apply data_event_not_done, handler_event_is_data.
        -- exists evs, done_event. now repeat split.
    + eexists [], _. split; [reflexivity|]. split; [constructor|]. split.
      * eexists; reflexivity.
      * apply data_event_not_done. eexists; reflexivity.
Qed.

End RelayFacts.

(** The guards of the route answer in the same way as the proxy does on
    a failure: one error event, and no sentinel after it. *)
Lemma stream_chat_guards (json_loads : string -> option json)
    (agent : agent_request -> upstream) (session_id : option string) :
  stream_chat json_loads agent "   " session_id (Some "x")
  = [error_event "Empty message"]
  /\ stream_chat json_loads agent "hello" session_id None
     = [error_event "RLS User ID is required"]
  /\ stream_chat json_loads agent "hello" session_id (Some "")
     = [error_event "RLS User ID is required"].
Proof. repeat split; reflexivity. Qed.

(** [json.loads] on the payloads the examples use, and on text that is
    not JSON. *)
Definition hi_payload : json := JObj [("content", JStr "Hi")].
Definition done_payload : json := JObj [("done", JBool true)].

Definition sample_loads (s : string) : option json :=
  if String.eqb s (json_dumps hi_payload) then Some hi_payload
  else if String.eqb s (json_dumps done_payload) then Some done_payload
  else None.

(** The agent runtime answers 200 with one chunk of three lines: a
    content event, a line that is not JSON, and the completion signal. *)
Definition answers_hi (_ : agent_request) : upstream :=
  Answered (mkResponse 200
    ["data: " ++ json_dumps hi_payload ++ nl
     ++ "data: not json" ++ nl
     ++ "data: " ++ json_dumps done_payload ++ nl ++ nl]
    None).

(** The agent runtime cannot be reached. *)
Definition unreachable (_ : agent_request) : upstream :=
  Refused (RequestError "All connection attempts failed").

(** On the normal path the content is forwarded, the malformed line is
    skipped and the sentinel closes the stream. *)
Lemma relay_forwards_and_closes :
  generate_stream sample_loads answers_hi "hello" "default"
    "00000000-0000-0000-0000-000000000000"
  = [sse hi_payload; done_event].
Proof. reflexivity. Qed.

(** Against C2 as stated: when the connection fails the stream is the
    error event alone, and that event is not the sentinel. *)
Lemma c2_connection_failure_counterexample :
  generate_stream sample_loads unreachable "hello" "default"
    "00000000-0000-0000-0000-000000000000"
  = [error_event
       "Connection error to agent service: All connection attempts failed"]
  /\ String.eqb
       (error_event
          "Connection error to agent service: All connection attempts failed")
       done_event = false.
Proof. split; reflexivity. Qed.

End WebFacts.

(* ------------------------------------------------------------------ *)
(** ** Rounding *)

Module NumFacts.
Import PyNum.
Open Scope Q_scope.

Lemma round_half_even_bounds (q : Q) :
  q - (1 # 2) <= inject_Z (round_half_even q) <= q + (1 # 2).
Proof.
  unfold round_half_even.
  pose proof (Qfloor_le q) as L. pose proof (Qlt_floor q) as U.
  rewrite inject_Z_plus in U. change (inject_Z 1) with 1 in U.
  destruct (Qcompare_spec (q - inject_Z (Qfloor q)) (1 # 2)) as [E|E|E].
  - destruct (Z.even (Qfloor q)); [|rewrite inject_Z_plus; change (inject_Z 1) with 1]; lra.
  - lra.
  - rewrite inject_Z_plus; change (inject_Z 1) with 1. lra.
Qed.

Lemma round_half_even_floor (q : Q) : (Qfloor q <= round_half_even q)%Z.
Proof.
  unfold round_half_even.
  destruct (q - inject_Z (Qfloor q) ?= 1 # 2); [destruct (Z.even _)| |]; lia.
Qed.

Lemma round_half_even_above (z : Z) (q : Q) :
  inject_Z z <= q -> (z <= round_half_even q)%Z.
Proof.
  intro H. apply Qfloor_resp_le in H. rewrite Qfloor_Z in H.
  pose proof (round_half_even_floor q). lia.
Qed.

Lemma round1_bounds (q : Q) : q - (1 # 20) <= round1 q <= q + (1 # 20).
Proof.
  unfold round1. pose proof (round_half_even_bounds (q * 10)) as [L U].
  split.
  - apply Qle_shift_div_l; [reflexivity|]. lra.
  - apply Qle_shift_div_r; [reflexivity|]. lra.
Qed.

Lemma round2_bounds (q : Q) : q - (1 # 200) <= round2 q <= q + (1 # 200).
Proof.
  unfold round2. pose proof (round_half_even_bounds (q * 100)) as [L U].
  split.
  - apply Qle_shift_div_l; [reflexivity|]. lra.
  - apply Qle_shift_div_r; [reflexivity|]. lra.
Qed.

Lemma max0_ge (q t : Q) : t <= q -> t <= max0 q.
Proof. unfold max0. destruct (Qlt_le_dec 0 q); lra. Qed.

(** A threshold on the tenths grid is kept by rounding to one decimal. *)
Lemma round1_grid (q t : Q) (z : Z) :
  t == inject_Z z / 10 -> t <= q -> t <= round1 q.
Proof.
  intros Ht Hq. unfold round1. rewrite Ht.
  apply Qle_shift_div_l; [reflexivity|].
  assert (E : inject_Z z / 10 * 10 == inject_Z z) by field.
  rewrite E. rewrite <- Zle_Qle. apply round_half_even_above. lra.
Qed.

End NumFacts.

(* ------------------------------------------------------------------ *)
(** ** Vector similarity search *)

Module SimilarityFacts.
Import PyNum NumFacts ListFacts Similarity.
Open Scope Q_scope.

Lemma insert_by_distance_In (c x : candidate) (l : list candidate) :
  In x (insert_by_distance c l) <-> x = c \/ In x l.
Proof.
  induction l as [|y l IH]; cbn [insert_by_distance].
  - simpl. intuition congruence.
  - destruct (Qle_bool _ _); simpl in *; rewrite ?IH; intuition congruence.
Qed.

Lemma order_by_distance_In (x : candidate) (l : list candidate) :
  In x (order_by_distance l) <-> In x l.
Proof.
  induction l as [|y l IH]; cbn [order_by_distance fold_right]; [tauto|].
  fold (order_by_distance l). rewrite insert_by_distance_In, IH.
  simpl. intuition congruence.
Qed.

(** What the query returns: at most [limit] rows, each a row of the
    table within the distance threshold. *)
Lemma fetch_rows (table rows : list candidate) (limit : Z) (threshold : Q) :
  fetch table limit threshold = inr rows ->
  (List.length rows <= Z.to_nat limit)%nat
  /\ forall c, In c rows ->
       In c table /\ similarity_distance c <= threshold.
Proof.
  unfold fetch. destruct (limit <? 0)%Z; [discriminate|].
  intro H. injection H as <-. split.
  - rewrite length_firstn. apply Nat.le_min_l.
  - intros c Hc. apply firstn_In in Hc.
    apply order_by_distance_In, filter_In in Hc as [Hin Hle].
    split; [exact Hin|]. now apply Qle_bool_iff.
Qed.

Lemma similarity_percent_threshold (d t : Q) :
  d <= distance_threshold t ->
  t - (1 # 20) <= similarity_percent d
  /\ forall z, t == inject_Z z / 10 -> t <= similarity_percent d.
Proof.
  unfold distance_threshold, similarity_percent. intro H.
  assert (K : t <= max0 ((1 - d) * 100)).
  { apply max0_ge.
    assert (E : t == (1 - (1 - t / 100)) * 100) by field.
    rewrite E at 1. lra. }
  split.
  - pose proof (round1_bounds (max0 ((1 - d) * 100))) as [L _]. lra.
  - intros z Hz. now apply (round1_grid _ t z).
Qed.

(** C7. On binary64 a threshold of 30 becomes the cutoff [0.7] and a
    threshold of 100 the cutoff [0.0], as [1 - percent/100] gives on the
    exact numbers too.  The search returns at most [min(max_rows, 100)]
    rows; each returned row is a row of the table, its appended percent
    is [round(max(0, (1 - d) * 100), 1)], which is at least the threshold
    up to the half-tenth of that rounding, and at least the threshold
    itself when the threshold has one decimal. *)
Theorem c7_similarity_search :
  (distance_threshold64 30 = 0.7%float
   /\ distance_threshold64 100 = 0%float)
  /\ (distance_threshold 30 == 7 # 10 /\ distance_threshold 100 == 0)
  /\ forall (table : list candidate) (max_rows : Z) (t : Q),
       (List.length (returned (search_products_by_similarity table max_rows t))
        <= Z.to_nat (Z.min max_rows 100))%nat
       /\ (List.length
             (returned (search_products_by_similarity table max_rows t))
           <= 100)%nat
       /\ forall row sp,
            In (row, sp)
               (returned (search_products_by_similarity table max_rows t)) ->
            In row table
            /\ sp = similarity_percent (similarity_distance row)
            /\ t - (1 # 20) <= sp
            /\ forall z, t == inject_Z z / 10 -> t <= sp.
Proof.
  split; [split; reflexivity|].
  split; [split; reflexivity|].
  intros table max_rows t. unfold search_products_by_similarity.
  destruct (fetch table (Z.min max_rows 100) (distance_threshold t))
    as [e|rows] eqn:F.
  - cbn [returned List.length].
    split; [apply Nat.le_0_l|]. split; [apply Nat.le_0_l|].
    intros row sp H. destruct H.
  - apply fetch_rows in F as [Hlen Hrows].
    assert (R : returned
                  match rows with
                  | [] => NoProducts t
                  | _ :: _ =>
                      Rows (map (fun row =>
                                   (row, similarity_percent
                                           (similarity_distance row))) rows)
                           (List.length
                              (map (fun row =>
                                      (row, similarity_percent
                                              (similarity_distance row)))
                                   rows))
                  end
                = map (fun row =>
                         (row, similarity_percent (similarity_distance row)))
                      rows).
    { destruct rows; reflexivity. }
    rewrite R, length_map. split; [exact Hlen|]. split.
    + etransitivity; [exact Hlen|]. lia.
    + intros row sp Hin. apply in_map_iff in Hin as (c & E & Hc).
      injection E as E1 E2. subst row sp. destruct (Hrows c Hc) as [Ht Hd].
      split; [exact Ht|]. split; [reflexivity|].
      now apply similarity_percent_threshold.
Qed.

(** Three products at distances 0.12, 0.55 and 0.91 from the query,
    searched with the default threshold of 30 and room for two rows:
    the two within distance 0.7 come back, nearest first, at 88.0 and
    45.0 percent. *)
Definition shelf : list candidate :=
  [mkCandidate 3 "PWDRL003" (91 # 100);
   mkCandidate 1 "PWDRL001" (55 # 100);
   mkCandidate 2 "PWDRL002" (12 # 100)].

Lemma c7_similarity_search_witness :
  map (fun r => product_id (fst r))
      (returned (search_products_by_similarity shelf 2 30)) = [2; 1]%Z
  /\ forall row sp,
       In (row, sp) (returned (search_products_by_similarity shelf 2 30)) ->
       30 <= sp.
Proof.
  split; [reflexivity|].
  intros row sp Hin.
  destruct (proj2 (proj2 c7_similarity_search) shelf 2%Z 30) as (_ & _ & H).
  destruct (H row sp Hin) as (_ & _ & _ & G).
  apply (G 300%Z). reflexivity.
Defined.

End SimilarityFacts.

(* ------------------------------------------------------------------ *)
(** ** Seeding products and orders *)

Module SeederFacts.
Import PyNum NumFacts ListFacts Seeder.
Open Scope Q_scope.

(** *** Products *)

(** [row] was built from product [p]. *)
Definition built_from (p : product_details) (row : product_row) : Prop :=
  product_name row = d_name p
  /\ cost row = d_price p
  /\ base_price row = selling_price (cost row).

(** [row] was built from a product of the catalog. *)
Definition from_catalog (cats : main_categories) (row : product_row) : Prop :=
  exists category subs product_type product_list p,
    In (category, subs) cats
    /\ In (product_type, product_list) subs
    /\ In p product_list
    /\ built_from p row.

Lemma add_products_rows (category_id type_id : Z)
    (product_list : list product_details) :
  forall acc row,
    In row (add_products category_id type_id product_list acc) ->
    In row acc \/ exists p, In p product_list /\ built_from p row.
Proof.
  unfold add_products.
  induction product_list as [|p rest IH]; intros acc row H; cbn [fold_left] in H.
  - now left.
  - apply IH in H as [H|(q & Hq & B)].
    + apply in_app_or in H as [H|[<-|[]]].
      * now left.
      * right. exists p. split; [now left|].
        unfold built_from. cbn [product_name cost base_price].
        repeat split; reflexivity.
    + right. exists q. split; [now right|exact B].
Qed.

Lemma add_subcategories_rows (type_mapping : Z * string -> option Z)
    (category_id : Z) (subs : subcategories) :
  forall acc row,
    In row (add_subcategories type_mapping category_id subs acc) ->
    In row acc
    \/ exists product_type product_list p,
         In (product_type, product_list) subs
         /\ In p product_list /\ built_from p row.
Proof.
  unfold add_subcategories.
  induction subs as [|[ty pl] rest IH]; intros acc row H; cbn [fold_left] in H.
  - now left.
  - apply IH in H as [H|(ty' & pl' & p & Hin & Hp & B)].
    + destruct (String.eqb ty "washington_seasonal_multipliers");
        [now left|].
      destruct pl as [|p0 pl]; [now left|].
      destruct (type_mapping (category_id, ty)) as [tid|]; [|now left].
      destruct (tid =? 0)%Z; [now left|].
      apply add_products_rows in H as [H|(p & Hp & B)]; [now left|].
      right. exists ty, (p0 :: pl), p. split; [now left|].
      split; [exact Hp|exact B].
    + right. exists ty', pl', p. split; [now right|].
      split; [exact Hp|exact B].
Qed.

Lemma products_data_rows (category_mapping : string -> option Z)
    (type_mapping : Z * string -> option Z) (cats : main_categories) :
  forall acc rows row,
    products_data category_mapping type_mapping cats acc = Some rows ->
    In row rows ->
    In row acc \/ from_catalog cats row.
Proof.
  induction cats as [|[category subs] rest IH]; intros acc rows row H Hin;
    cbn [products_data] in H.
  - injection H as <-. now left.
  - destruct (category_mapping category) as [cid|]; [|discriminate H].
    destruct (IH _ _ row H Hin) as [K|(c & s & ty & pl & p & H1 & H2 & H3 & B)].
    + apply add_subcategories_rows in K as [K|(ty & pl & p & H2 & H3 & B)];
        [now left|].
      right. exists category, subs, ty, pl, p.
      split; [now left|]. split; [exact H2|]. split; [exact H3|exact B].
    + right. exists c, s, ty, pl, p. split; [now right|].
      split; [exact H2|]. split; [exact H3|exact B].
Qed.

(** The selling price is within half a cent of [cost / 0.67]. *)
Lemma selling_price_bounds (c : Q) :
  c / (67 # 100) - (1 # 200) <= selling_price c <= c / (67 # 100) + (1 # 200).
Proof. apply round2_bounds. Qed.

Lemma margin_times_price (c b : Q) :
  0 < b -> ((b - c) / b - (33 # 100)) * b == (67 # 100) * b - c.
Proof. intro H. field. lra. Qed.

Lemma margin_bound (row : product_row) :
  base_price row = selling_price (cost row) ->
  0 < base_price row ->
  Qabs (gross_margin row - (33 # 100)) * base_price row <= 67 # 20000.
Proof.
  intros E Hb. unfold gross_margin.
  set (b := base_price row) in *. set (c := cost row) in *.
  assert (A : Qabs ((b - c) / b - (33 # 100)) * b
              == Qabs (((b - c) / b - (33 # 100)) * b)).
  { rewrite Qabs_Qmult, (Qabs_pos b); [reflexivity|lra]. }
  rewrite A, (margin_times_price c b Hb).
  apply Qabs_Qle_condition.
  pose proof (selling_price_bounds c) as [L U]. rewrite <- E in L, U.
  assert (X : c / (67 # 100) == c * (100 # 67)) by field.
  rewrite X in L, U. lra.
Qed.

Lemma margin_bound_from_one (row : product_row) :
  base_price row = selling_price (cost row) ->
  1 <= cost row ->
  Qabs (gross_margin row - (33 # 100)) <= 1 # 400.
Proof.
  intros E Hc.
  pose proof (selling_price_bounds (cost row)) as [L _]. rewrite <- E in L.
  assert (X : cost row / (67 # 100) == cost row * (100 # 67)) by field.
  rewrite X in L.
  assert (Hb : 134 # 100 <= base_price row) by lra.
  pose proof (margin_bound row E ltac:(lra)) as M.
  apply (Qmult_le_r _ _ (base_price row)); [lra|].
  eapply Qle_trans; [exact M|]. lra.
Qed.

(** C8. Every product row that either generator inserts is built from a
    product of the catalog: its cost is that product's catalog price and
    its base price is [round(cost / 0.67, 2)].  The realized gross margin
    then differs from 0.33 by at most [0.00335 / base_price], the effect
    of rounding the price to the cent, which is within a quarter of a
    percentage point for every cost of at least 1. *)
Theorem c8_margin_invariant (cats : main_categories)
    (rows : list product_row) (row : product_row) :
  (exists category_rows type_rows,
      insert_products_postgres category_rows type_rows cats = Some rows)
  \/ (exists category_rows type_rows,
        insert_products_sql_server category_rows type_rows cats = Some rows) ->
  In row rows ->
  from_catalog cats row
  /\ base_price row = round2 (cost row / (67 # 100))
  /\ (0 < base_price row ->
      Qabs (gross_margin row - (33 # 100)) * base_price row <= 67 # 20000)
  /\ (1 <= cost row -> Qabs (gross_margin row - (33 # 100)) <= 1 # 400).
Proof.
  intros H Hin.
  assert (F : from_catalog cats row).
  { destruct H as [(cr & tr & H)|(cr & tr & H)];
      (eapply products_data_rows in H; [|exact Hin]);
      destruct H as [[]|H]; exact H. }
  assert (E : base_price row = selling_price (cost row)).
  { destruct F as (c & s & ty & pl & p & _ & _ & _ & _ & _ & E). exact E. }
  split; [exact F|]. split; [exact E|]. split.
  - now apply margin_bound.
  - now apply margin_bound_from_one.
Qed.

(** A catalog of one category with one product type, two products and
    the seasonal multipliers, seeded by the Postgres variant. *)
Definition small_catalog : main_categories :=
  [("HAND TOOLS",
    [("HAMMERS",
      [mkDetails "Claw Hammer" (Some "HTHAM001") (1999 # 100) "16 oz";
       mkDetails "Sledge Hammer" None (45 # 1) "8 lb"]);
     ("washington_seasonal_multipliers", [])])].

Definition small_rows : list product_row :=
  [mkRow "HTHAM001" "Claw Hammer" 1 1 (1999 # 100)
         (selling_price (1999 # 100)) "16 oz";
   mkRow "SKU000002" "Sledge Hammer" 1 1 (45 # 1)
         (selling_price (45 # 1)) "8 lb"].

Lemma c8_margin_invariant_witness :
  insert_products_postgres [mkCategory 1 "HAND TOOLS"] [mkType 1 "HAMMERS" 1]
    small_catalog = Some small_rows
  /\ selling_price (1999 # 100) == 2984 # 100
  /\ forall row, In row small_rows ->
       Qabs (gross_margin row - (33 # 100)) <= 1 # 400.
Proof.
  split; [reflexivity|]. split; [reflexivity|].
  intros row Hin.
  refine (proj2 (proj2 (proj2
            (c8_margin_invariant small_catalog small_rows row _ Hin))) _).
  - left. exists [mkCategory 1 "HAND TOOLS"], [mkType 1 "HAMMERS" 1].
    reflexivity.
  - destruct Hin as [<-|[<-|[]]]; vm_compute; discriminate.
Defined.

(** *** Orders *)

Open Scope Z_scope.

(** Truncation and rounding of the same float differ by at most one, and
    not at all once both are raised to 1 from below. *)
Lemma int_vs_round (x : float) :
  match py_int x, py_round x with
  | Some t, Some r =>
      1 <= Z.max 1 t /\ Z.max 1 t <= Z.max 1 r <= Z.max 1 t + 1
  | None, None => True
  | _, _ => False
  end.
Proof.
  unfold py_int, py_round. destruct (Prim2SF x) as [s|s| |s m e]; try exact I.
  - cbn. lia.
  - destruct (0 <=? e) eqn:He.
    + destruct s; lia.
    + apply Z.leb_gt in He.
      assert (Hd : 0 < 2 ^ (- e)) by (apply Z.pow_pos_nonneg; lia).
      pose proof (Z.div_pos (Zpos m) (2 ^ (- e)) ltac:(lia) Hd) as Hq.
      destruct (2 * (Zpos m mod 2 ^ (- e)) ?= 2 ^ (- e));
        [destruct (Z.even _)| |]; destruct s; lia.
Qed.

(** Every order generated from customer [first] on belongs to a customer
    numbered [first] or more. *)
Lemma insert_orders_customers (stores : store_config) (table : store_table)
    (draws : list draw) :
  forall first orders h,
    insert_orders stores table first draws = Some orders ->
    In h orders -> first <= h_customer_id h.
Proof.
  induction draws as [|d rest IH]; intros first orders h H Hin;
    cbn [insert_orders] in H.
  - injection H as <-. destruct Hin.
  - destruct (num_orders _ _) as [n|]; [|discriminate H].
    destruct (insert_orders stores table (first + 1) rest) as [later|] eqn:L;
      [|discriminate H].
    injection H as <-. apply in_app_or in Hin as [Hin|Hin].
    + apply repeat_spec in Hin. subst h. cbn. lia.
    + specialize (IH _ _ h L Hin). lia.
Qed.

Lemma orders_of_app (c : Z) (a b : list order_header) :
  orders_of c (a ++ b) = (orders_of c a + orders_of c b)%nat.
Proof. unfold orders_of. now rewrite filter_app, length_app. Qed.

Lemma orders_of_repeat (c c' s : Z) (n : nat) :
  orders_of c (repeat (mkHeader c' s) n) = if c' =? c then n else 0%nat.
Proof.
  unfold orders_of. induction n as [|n IH]; cbn [repeat filter h_customer_id].
  - now destruct (c' =? c).
  - destruct (c' =? c); cbn [List.length]; [now rewrite IH|exact IH].
Qed.

Lemma orders_of_later (c : Z) (orders : list order_header) :
  (forall h, In h orders -> c < h_customer_id h) -> orders_of c orders = 0%nat.
Proof.
  intro H. unfold orders_of.
  rewrite filter_none; [reflexivity|].
  intros h Hin. apply Z.eqb_neq. specialize (H h Hin). lia.
Qed.

(** C6, as the code has it.  A seeding run that completes gives the
    customer of each draw [max(1, int(b * f))] orders, where [b] is the
    base count drawn for the customer and [f] the order-frequency
    multiplier of the store drawn: the product is truncated toward zero.
    The count is at least 1, never above the rounded count
    [max(1, round(b * f))], and at most one below it. *)
Theorem c6_orders_per_customer (stores : store_config) (table : store_table)
    (draws : list draw) :
  forall (first : Z) (orders : list order_header) (k : nat) (d : draw),
    insert_orders stores table first draws = Some orders ->
    nth_error draws k = Some d ->
    exists n r,
      num_orders (base_orders d)
        (order_frequency stores (preferred_store d)) = Some n
      /\ num_orders_rounded (base_orders d)
           (order_frequency stores (preferred_store d)) = Some r
      /\ orders_of (first + Z.of_nat k) orders = Z.to_nat n
      /\ 1 <= n /\ n <= r <= n + 1.
Proof.
  induction draws as [|d0 rest IH]; intros first orders k d H Hk.
  - destruct k; discriminate Hk.
  - cbn [insert_orders] in H.
    destruct (num_orders (base_orders d0) _) as [n|] eqn:N; [|discriminate H].
    destruct (insert_orders stores table (first + 1) rest) as [later|] eqn:L;
      [|discriminate H].
    injection H as <-. rewrite orders_of_app, orders_of_repeat.
    destruct k as [|k].
    + injection Hk as <-.
      pose proof (int_vs_round
                    (PrimFloat.mul (float_of_int (base_orders d0))
                       (order_frequency stores (preferred_store d0)))) as V.
      unfold num_orders in N. unfold num_orders, num_orders_rounded.
      destruct (py_int _) as [t|]; [|discriminate N].
      destruct (py_round _) as [r|]; [|destruct V].
      injection N as <-. exists (Z.max 1 t), (Z.max 1 r).
      split; [reflexivity|]. split; [reflexivity|].
      split; [|exact V].
      replace (first + Z.of_nat 0) with first by lia.
      rewrite Z.eqb_refl, orders_of_later; [lia|].
      intros h Hin. pose proof (insert_orders_customers _ _ _ _ _ h L Hin). lia.
    + cbn [nth_error] in Hk.
      destruct (IH (first + 1) later k d L Hk) as (n' & r' & A & B & C & D).
      exists n', r'. split; [exact A|]. split; [exact B|]. split; [|exact D].
      replace (first + Z.of_nat (S k)) with (first + 1 + Z.of_nat k) by lia.
      rewrite C.
      destruct (first =? first + 1 + Z.of_nat k) eqn:E; [|reflexivity].
      apply Z.eqb_eq in E. lia.
Qed.

(** One store whose multiplier is 1.5 and two customers drawing one and
    three base orders: they get one and four orders, where rounding
    would have given two and four. *)
Definition online_only : store_config := [("Zava Retail Online", 1.5%float)].
Definition online_table : store_table := [("Zava Retail Online", 8)].
Definition two_draws : list draw :=
  [mkDraw "Zava Retail Online" 1; mkDraw "Zava Retail Online" 3].

Definition two_customers : list order_header :=
  repeat (mkHeader 1 8) 1 ++ repeat (mkHeader 2 8) 4.

Lemma c6_orders_per_customer_witness :
  insert_orders online_only online_table 1 two_draws = Some two_customers
  /\ exists n r,
       num_orders 1 1.5 = Some n /\ num_orders_rounded 1 1.5 = Some r
       /\ orders_of 1 two_customers = Z.to_nat n
       /\ 1 <= n /\ n <= r <= n + 1.
Proof.
  split; [reflexivity|].
  apply (c6_orders_per_customer online_only online_table two_draws
           1 two_customers 0 (mkDraw "Zava Retail Online" 1));
    reflexivity.
Defined.

(** Against C6 as stated: with a multiplier of 1.5 a customer whose base
    count is 1 gets one order, and the rounded count is two. *)
Lemma c6_truncation_counterexample :
  option_map (orders_of 1)
    (insert_orders online_only online_table 1
       [mkDraw "Zava Retail Online" 1]) = Some 1%nat
  /\ num_orders_rounded 1 (order_frequency online_only "Zava Retail Online")
     = Some 2.
Proof. split; reflexivity. Qed.

End SeederFacts.

(* ------------------------------------------------------------------ *)
(** ** Text: characters of a string *)

Module TextFacts.
Import PyStr PyStrFacts.

(** Every character of [s] satisfies [p]. *)
Definition all_chars (p : ascii -> bool) (s : string) : bool :=
  match filter_str (fun c => negb (p c)) s with
  | EmptyString => true
  | _ => false
  end.

Lemma all_chars_cons (p : ascii -> bool) (c : ascii) (s : string) :
  all_chars p (String c s) = p c && all_chars p s.
Proof. unfold all_chars. cbn [filter_str]. now destruct (p c). Qed.

Lemma all_chars_app (p : ascii -> bool) (a b : string) :
  all_chars p (a ++ b) = all_chars p a && all_chars p b.
Proof.
  induction a as [|c a IH]; [reflexivity|].
  cbn [append]. rewrite !all_chars_cons, IH. apply andb_assoc.
Qed.

Lemma all_chars_filter (p : ascii -> bool) (s : string) :
  all_chars p (filter_str p s) = true.
Proof.
  induction s as [|c s IH]; [reflexivity|]. cbn [filter_str].
  destruct (p c) eqn:E; [|exact IH]. now rewrite all_chars_cons, E, IH.
Qed.

Lemma all_chars_take (p : ascii -> bool) (n : nat) (s : string) :
  all_chars p s = true -> all_chars p (take n s) = true.
Proof.
  revert s. induction n as [|n IH]; intros [|c s] H; try reflexivity.
  cbn [take]. rewrite all_chars_cons in *.
  apply andb_true_iff in H as [H1 H2]. now rewrite H1, IH.
Qed.

Lemma all_chars_drop (p : ascii -> bool) (n : nat) (s : string) :
  all_chars p s = true -> all_chars p (drop n s) = true.
Proof.
  revert s. induction n as [|n IH]; intros [|c s] H; try exact H.
  cbn [drop]. rewrite all_chars_cons in H.
  apply andb_true_iff in H as [_ H2]. now apply IH.
Qed.

Lemma all_chars_filter_keeps (p q : ascii -> bool) (s : string) :
  all_chars p s = true -> all_chars p (filter_str q s) = true.
Proof.
  induction s as [|c s IH]; intro H; [reflexivity|]. cbn [filter_str].
  rewrite all_chars_cons in H. apply andb_true_iff in H as [H1 H2].
  destruct (q c); [rewrite all_chars_cons, H1|]; now apply IH.
Qed.

Lemma app_empty_r (a : string) : a ++ "" = a.
Proof. induction a as [|c a IH]; simpl; [reflexivity|now rewrite IH]. Qed.

Lemma take_drop (n : nat) (s : string) : take n s ++ drop n s = s.
Proof.
  revert s. induction n as [|n IH]; intros [|c s]; try reflexivity.
  cbn [take drop append]. now rewrite IH.
Qed.

(** [s] holds no occurrence of the character [c]. *)
Definition lacks (c : ascii) (s : string) : bool :=
  all_chars (fun x => negb (Ascii.eqb x c)) s.

Lemma lacks_app (c : ascii) (a b : string) :
  lacks c (a ++ b) = lacks c a && lacks c b.
Proof. apply all_chars_app. Qed.

Lemma lacks_cons (c x : ascii) (s : string) :
  lacks c (String x s) = negb (Ascii.eqb x c) && lacks c s.
Proof. apply all_chars_cons. Qed.

End TextFacts.

(* ------------------------------------------------------------------ *)
(** ** The SKU assigner: codes, analysis and complete runs *)

Module SkuReportFacts.
Import PyStr PyStrFacts TextFacts Sku SkuFacts SkuReport.

(** *** The shape of the codes *)

(** X1. Whatever the product type, its code has at most three
    characters, all of them upper-case letters; it may be shorter than
    the two characters the docstring promises, and is empty for a name
    without letters. *)
Theorem type_code_shape (product_type : string) :
  (String.length (generate_type_code product_type) <= 3)%nat
  /\ all_chars is_upper (generate_type_code product_type) = true
  /\ generate_type_code "2x4" = "X"
  /\ generate_type_code "80/20" = "".
Proof.
  split; [|split; [|split; reflexivity]].
  - unfold generate_type_code.
    set (clean := filter_str is_upper (upper product_type)).
    destruct (String.length clean <=? 3)%nat eqn:E1;
      [now apply Nat.leb_le|].
    destruct (String.length clean <=? 6)%nat;
      [rewrite take_length; lia|].
    destruct (2 <=? String.length _)%nat;
      [rewrite length_app|]; rewrite !take_length; lia.
  - unfold generate_type_code.
    set (clean := filter_str is_upper (upper product_type)).
    assert (U : all_chars is_upper clean = true) by apply all_chars_filter.
    destruct (String.length clean <=? 3)%nat; [exact U|].
    destruct (String.length clean <=? 6)%nat; [now apply all_chars_take|].
    destruct (2 <=? String.length _)%nat; [|now apply all_chars_take].
    rewrite all_chars_app, !all_chars_take; try reflexivity; try exact U.
    now apply all_chars_filter_keeps, all_chars_drop.
Qed.

(** *** Words *)

Lemma rev_str_nonempty (acc s : string) :
  s <> "" -> rev_str acc s <> "".
Proof.
  revert acc. induction s as [|c s IH]; intros acc H; [contradiction|].
  cbn [rev_str]. destruct s as [|d s]; [discriminate|].
  apply IH. discriminate.
Qed.

Lemma close_word_nonempty (cur : string) (acc : list string) :
  Forall (fun w => w <> "") acc -> Forall (fun w => w <> "") (close_word cur acc).
Proof.
  intro H. destruct cur as [|c cur]; [exact H|].
  cbn [close_word]. constructor; [|exact H].
  apply rev_str_nonempty. discriminate.
Qed.

Lemma split_ws_aux_nonempty (s : string) :
  forall cur acc,
    Forall (fun w => w <> "") acc ->
    Forall (fun w => w <> "") (split_ws_aux cur acc s).
Proof.
  induction s as [|c s IH]; intros cur acc H; cbn [split_ws_aux].
  - apply Forall_rev. now apply close_word_nonempty.
  - destruct (is_space c); apply IH; [now apply close_word_nonempty|exact H].
Qed.

(** [split()] returns no word exactly on blank text. *)
Lemma split_ws_aux_nil (s : string) :
  forall cur acc,
    split_ws_aux cur acc s = [] <->
    cur = "" /\ acc = [] /\ all_chars is_space s = true.
Proof.
  induction s as [|c s IH]; intros cur acc; cbn [split_ws_aux].
  - split.
    + intro H. apply (f_equal (@rev string)) in H.
      rewrite rev_involutive in H. cbn in H.
      destruct cur; [now repeat split|discriminate H].
    + intros (-> & -> & _). reflexivity.
  - rewrite all_chars_cons. destruct (is_space c); rewrite IH.
    + split.
      * intros (_ & H & A). destruct cur; [now repeat split|discriminate H].
      * intros (-> & -> & A). now repeat split.
    + split; [intros (H & _); discriminate H|intros (_ & _ & H); discriminate H].
Qed.

Lemma all_chars_space_upper (s : string) :
  all_chars is_space (upper s) = all_chars is_space s.
Proof.
  induction s as [|c s IH]; [reflexivity|].
  unfold upper in *. cbn [map_str]. rewrite !all_chars_cons, IH.
  f_equal. unfold upper_char.
  destruct (is_lower c) eqn:L; [|reflexivity].
  destruct c as [[] [] [] [] [] [] [] []]; try discriminate L; reflexivity.
Qed.

Lemma all_chars_space_replace (s : string) :
  all_chars is_space (replace_char "&" "AND" s) = all_chars is_space s.
Proof.
  induction s as [|c s IH]; [reflexivity|]. cbn [replace_char].
  destruct (Ascii.eqb_spec "&"%char c) as [<-|N].
  - rewrite all_chars_app, all_chars_cons. reflexivity.
  - now rewrite !all_chars_cons, IH.
Qed.

Lemma first_char_length (w c : string) :
  first_char w = Some c -> String.length c = 1%nat.
Proof. destruct w; [discriminate|]. intro H. now injection H as <-. Qed.

Lemma first_char_some (w : string) : w <> "" -> exists c, first_char w = Some c.
Proof. destruct w; [contradiction|]. intros _. eexists. reflexivity. Qed.

(** X2. [generate_category_code] raises exactly when the category is
    blank (empty or all white space); on every other category it returns
    a code of one or two characters. *)
Theorem category_code_shape (category : string) :
  (generate_category_code category = None <->
   all_chars is_space category = true)
  /\ forall code, generate_category_code category = Some code ->
       (1 <= String.length code <= 2)%nat.
Proof.
  unfold generate_category_code.
  set (clean := replace_char "&" "AND" (upper category)).
  assert (B : all_chars is_space clean = all_chars is_space category).
  { unfold clean. now rewrite all_chars_space_replace, all_chars_space_upper. }
  pose proof (split_ws_aux_nonempty clean "" [] (Forall_nil _)) as NE.
  pose proof (split_ws_aux_nil clean "" []) as NIL.
  fold (split_ws clean) in NE, NIL. rewrite B in NIL.
  destruct (split_ws clean) as [|w0 [|w1 rest]] eqn:W.
  - split; [split; [intros _; now apply NIL|reflexivity]|discriminate].
  - inversion NE as [|? ? H0 _]; subst. split.
    + split; [discriminate|]. intro A.
      assert (K : [w0] = []) by (apply NIL; now repeat split). discriminate K.
    + intros code H. injection H as <-.
      destruct w0 as [|c [|d r]]; [contradiction| |]; cbn; lia.
  - inversion NE as [|? ? H0 NE1]; subst.
    inversion NE1 as [|? ? H1 _]; subst.
    destruct (first_char_some w0 H0) as [a Ha].
    destruct (first_char_some w1 H1) as [b Hb].
    assert (L : String.length (a ++ b) = 2%nat).
    { rewrite length_app, (first_char_length _ _ Ha), (first_char_length _ _ Hb).
      reflexivity. }
    assert (NB : all_chars is_space category <> true).
    { intro A. assert (K : w0 :: w1 :: rest = []) by (apply NIL; now repeat split).
      discriminate K. }
    assert (T : forall x : option string,
                x = Some (a ++ b) ->
                (x = None <-> all_chars is_space category = true)
                /\ forall code, x = Some code ->
                     (1 <= String.length code <= 2)%nat).
    { intros x ->. split; [split; [discriminate|intro A; now destruct NB]|].
      intros code H. injection H as <-. lia. }
    assert (S2 : forall s0 s1, s0 <> "" -> s1 <> "" ->
                 exists c, (do x <- first_char s0; do y <- first_char s1;
                            Some (x ++ y)) = Some c
                           /\ String.length c = 2%nat).
    { intros s0 s1 N0 N1.
      destruct (first_char_some s0 N0) as [x Hx].
      destruct (first_char_some s1 N1) as [y Hy].
      exists (x ++ y). rewrite Hx, Hy. cbn [bind]. split; [reflexivity|].
      now rewrite length_app, (first_char_length _ _ Hx),
        (first_char_length _ _ Hy). }
    destruct rest as [|w2 rest].
    + apply T. rewrite Ha, Hb. reflexivity.
    + set (words := w0 :: w1 :: w2 :: rest) in *.
      assert (FS : Forall (fun w => w <> "")
                     (filter (fun w => negb (in_list w stopwords)) words)).
      { apply Forall_forall. intros w Hw. apply filter_In in Hw as [Hw _].
        revert w Hw. now apply Forall_forall. }
      destruct (filter (fun w => negb (in_list w stopwords)) words)
        as [|s0 [|s1 more]].
      * cbn [nth_error words bind]. apply T. rewrite Ha, Hb. reflexivity.
      * cbn [nth_error words bind]. apply T. rewrite Ha, Hb. reflexivity.
      * inversion FS as [|? ? N0 FS1]; subst.
        inversion FS1 as [|? ? N1 _]; subst.
        destruct (S2 s0 s1 N0 N1) as (c & -> & Lc).
        split; [split; [discriminate|intro A; now destruct NB]|].
        intros code H. injection H as <-. lia.
Qed.

(** *** Numbers in decimal *)

Lemma decimal_nonempty (n : N) : decimal n <> "".
Proof.
  unfold decimal. destruct n as [|p]; [discriminate|].
  cbn [N.to_uint]. pose proof (DecimalPos.Unsigned.to_uint_nonnil p) as H.
  destruct (Pos.to_uint p); [contradiction| | | | | | | | | |]; discriminate.
Qed.

Lemma decimal_inj (n m : N) : decimal n = decimal m -> n = m.
Proof.
  unfold decimal. intro H. apply DecimalN.Unsigned.to_uint_inj.
  apply (f_equal NilEmpty.uint_of_string) in H.
  rewrite !NilEmpty.usu in H. now injection H.
Qed.

Lemma append_nonempty_r (a b : string) : b <> "" -> a ++ b <> "".
Proof. destruct a; [easy|discriminate]. Qed.

Lemma format_03d_nonempty (n : N) : format_03d n <> "".
Proof.
  unfold format_03d. pose proof (decimal_nonempty n) as H.
  destruct (String.length (decimal n)) as [|[|[|k]]] eqn:L; try exact H;
    now apply append_nonempty_r.
Qed.

Lemma generate_sku_nonempty (category product_type : string) (n : N)
    (k : string) :
  generate_sku category product_type n = Some k -> k <> "".
Proof.
  unfold generate_sku. destruct (generate_category_code category);
    [|discriminate].
  cbn [bind]. intro H. injection H as <-.
  apply append_nonempty_r, append_nonempty_r, format_03d_nonempty.
Qed.

(** *** Counting *)

(** A product the assigner has to serve: a dict without a SKU. *)
Definition needs_sku (it : item) : bool :=
  match it with
  | Dict p => match sku_of p with Some _ => false | None => true end
  | NotDict => false
  end.

Definition count_needing (products : list item) : nat :=
  List.length (filter needs_sku products).

Fixpoint category_needing (data : category_data) : nat :=
  match data with
  | [] => 0
  | (_, IsList products) :: rest =>
      (count_needing products + category_needing rest)%nat
  | (_, NotList) :: rest => category_needing rest
  end.

Fixpoint catalog_needing (product_data : catalog) : nat :=
  match product_data with
  | [] => 0
  | (_, data) :: rest => (category_needing data + catalog_needing rest)%nat
  end.

Definition listed (d : list (string * list needing)) : nat :=
  fold_right (fun kv n => (List.length (snd kv) + n)%nat) 0%nat d.

Lemma listed_append_at (key : string) (x : needing)
    (d : list (string * list needing)) :
  listed (append_at key x d) = S (listed d).
Proof.
  induction d as [|[k l] r IH]; cbn [append_at listed fold_right snd].
  - reflexivity.
  - destruct (String.eqb k key); cbn [listed fold_right snd].
    + rewrite List.length_app. cbn [List.length]. lia.
    + fold (listed (append_at key x r)). fold (listed r). rewrite IH. lia.
Qed.

(** The analysis is consistent and has counted [n] products in need. *)
Definition counted (n : nat) (a0 a : analysis) : Prop :=
  missing_skus a = (missing_skus a0 + n)%nat
  /\ (total_products a0 = (has_skus a0 + missing_skus a0)%nat ->
      total_products a = (has_skus a + missing_skus a)%nat)
  /\ (missing_skus a0 = listed (categories_needing_skus a0) ->
      missing_skus a = listed (categories_needing_skus a)).

Lemma counted_trans (n m : nat) (a0 a1 a2 : analysis) :
  counted n a0 a1 -> counted m a1 a2 -> counted (n + m) a0 a2.
Proof.
  intros (A & B & C) (A' & B' & C'). unfold counted.
  split; [lia|]. split; [tauto|tauto].
Qed.

Lemma analyze_products_counted (key : string) (products : list item) :
  forall i a,
    counted (count_needing products) a (analyze_products key i products a).
Proof.
  induction products as [|it rest IH]; intros i a; cbn [analyze_products].
  - unfold counted, count_needing. cbn. split; [lia|tauto].
  - replace (count_needing (it :: rest))
      with ((if needs_sku it then 1 else 0) + count_needing rest)%nat
      by (unfold count_needing; cbn [filter]; now destruct (needs_sku it)).
    eapply counted_trans; [|apply IH].
    unfold counted, analyze_product, needs_sku.
    destruct it as [p|]; [destruct (sku_of p)|];
      cbn [missing_skus total_products has_skus categories_needing_skus];
      rewrite ?listed_append_at; (split; [lia|split; lia]).
Qed.

Lemma analyze_category_counted (category : string) (data : category_data) :
  forall a,
    counted (category_needing data) a (analyze_category category data a).
Proof.
  unfold analyze_category.
  induction data as [|[ty [products|]] rest IH]; intro a;
    cbn [fold_left category_needing snd fst].
  - unfold counted. split; [lia|tauto].
  - eapply counted_trans; [apply analyze_products_counted|apply IH].
  - apply IH.
Qed.

Lemma analyze_catalog_counted (product_data : catalog) :
  forall a,
    counted (catalog_needing product_data) a
      (fold_left (fun a kv => analyze_category (fst kv) (snd kv) a)
                 product_data a).
Proof.
  induction product_data as [|[category data] rest IH]; intro a;
    cbn [fold_left catalog_needing snd fst].
  - unfold counted. split; [lia|tauto].
  - eapply counted_trans; [apply analyze_category_counted|apply IH].
Qed.

(** The retry loop changes neither counter of generated and assigned
    SKUs. *)
Lemma ensure_unique_counters (category product_type key : string)
    (remaining : nat) :
  forall s sku s' final,
    ensure_unique remaining category product_type key s sku = Some (s', final) ->
    skus_generated s' = skus_generated s /\ skus_assigned s' = skus_assigned s.
Proof.
  induction remaining as [|r IH]; intros s sku s' final H;
    cbn [ensure_unique] in H;
    destruct (in_list sku (existing_skus s)).
  - destruct (generate_sku _ _ _); [|discriminate H].
    injection H as <- <-. now split.
  - injection H as <- <-. now split.
  - destruct (generate_sku _ _ _); [|discriminate H].
    cbn [bind] in H. now apply IH in H.
  - injection H as <- <-. now split.
Qed.

(** The retry loop ends on a SKU that is not the empty string. *)
Lemma ensure_unique_nonempty (category product_type key : string)
    (remaining : nat) :
  forall s sku s' final,
    sku <> "" ->
    ensure_unique remaining category product_type key s sku = Some (s', final) ->
    final <> "".
Proof.
  induction remaining as [|r IH]; intros s sku s' final Hk H;
    cbn [ensure_unique] in H;
    destruct (in_list sku (existing_skus s)).
  - destruct (generate_sku _ _ _) as [next|] eqn:G; [|discriminate H].
    injection H as _ <-. now apply generate_sku_nonempty in G.
  - now injection H as _ <-.
  - destruct (generate_sku _ _ _) as [next|] eqn:G; [|discriminate H].
    cbn [bind] in H. apply generate_sku_nonempty in G.
    exact (IH _ _ _ _ G H).
  - now injection H as _ <-.
Qed.

(** The tallies of a run: the log, and both counters. *)
Definition tallied (dry_run : bool) (n : nat) (s s' : run_state) : Prop :=
  List.length (assignment_log s') = (List.length (assignment_log s) + n)%nat
  /\ skus_generated s' = (skus_generated s + N.of_nat n)%N
  /\ skus_assigned s'
     = (skus_assigned s + if dry_run then 0 else N.of_nat n)%N.

Lemma tallied_trans (dry_run : bool) (n m : nat) (s0 s1 s2 : run_state) :
  tallied dry_run n s0 s1 -> tallied dry_run m s1 s2 ->
  tallied dry_run (n + m) s0 s2.
Proof.
  intros (A & B & C) (A' & B' & C'). unfold tallied.
  rewrite A', A, B', B, C', C. destruct dry_run; repeat split; lia.
Qed.

Lemma tallied_refl (dry_run : bool) (s : run_state) : tallied dry_run 0 s s.
Proof. unfold tallied. destruct dry_run; repeat split; cbn; lia. Qed.

Lemma assign_product_tallied (dry_run : bool) (category product_type : string)
    (i : nat) (it : item) (s s' : run_state) (it' : item) :
  assign_product dry_run category product_type i it s = Some (s', it') ->
  tallied dry_run (if needs_sku it then 1 else 0) s s'
  /\ needs_sku it' = (if dry_run then needs_sku it else false).
Proof.
  unfold assign_product, needs_sku. destruct it as [p|].
  - destruct (sku_of p) eqn:K.
    + intro H. injection H as <- <-. split; [apply tallied_refl|].
      rewrite K. now destruct dry_run.
    + destruct (generate_sku _ _ _) as [base|] eqn:G; [|discriminate].
      cbn [bind].
      destruct (ensure_unique _ _ _ _ _ _) as [[s2 final]|] eqn:U;
        [|discriminate].
      cbn [bind]. intro H. injection H as <- <-.
      pose proof (ensure_unique_counters _ _ _ _ _ _ _ _ U) as [C1 C2].
      pose proof (ensure_unique_spec _ _ _ _ _ _ _ _ U) as (_ & L & _).
      split.
      * unfold tallied.
        cbn [assignment_log skus_generated skus_assigned bump] in *.
        rewrite List.length_app, L, C1, C2. cbn [List.length].
        destruct dry_run; repeat split; lia.
      * destruct dry_run; [now rewrite K|].
        assert (NE : final <> "").
        { eapply ensure_unique_nonempty; [|exact U].
          now apply generate_sku_nonempty in G. }
        unfold sku_of, set_sku. cbn [p_sku].
        destruct final; [contradiction|reflexivity].
  - intro H. injection H as <- <-. split; [apply tallied_refl|].
    now destruct dry_run.
Qed.

Lemma assign_products_tallied (dry_run : bool) (category product_type : string)
    (products : list item) :
  forall i s s' products',
    assign_products dry_run category product_type i products s
    = Some (s', products') ->
    tallied dry_run (count_needing products) s s'
    /\ count_needing products'
       = (if dry_run then count_needing products else 0%nat).
Proof.
  induction products as [|it rest IH]; intros i s s' products' H;
    cbn [assign_products] in H.
  - injection H as <- <-. split; [apply tallied_refl|now destruct dry_run].
  - destruct (assign_product _ _ _ _ _ _) as [[s1 it']|] eqn:A;
      [|discriminate H].
    cbn [bind] in H.
    destruct (assign_products _ _ _ _ rest s1) as [[s2 rest']|] eqn:B;
      [|discriminate H].
    cbn [bind] in H. injection H as <- <-.
    apply assign_product_tallied in A as [T1 N1].
    apply IH in B as [T2 N2].
    assert (E : forall x l, count_needing (x :: l)
                = ((if needs_sku x then 1 else 0) + count_needing l)%nat).
    { intros x l. unfold count_needing. cbn [filter].
      now destruct (needs_sku x). }
    rewrite !E. split; [eapply tallied_trans; eassumption|].
    rewrite N1, N2. now destruct dry_run.
Qed.

Lemma assign_category_tallied (dry_run : bool) (category : string)
    (data : category_data) :
  forall s s' data',
    assign_category dry_run category data s = Some (s', data') ->
    tallied dry_run (category_needing data) s s'
    /\ category_needing data'
       = (if dry_run then category_needing data else 0%nat).
Proof.
  induction data as [|[ty [products|]] rest IH]; intros s s' data' H;
    cbn [assign_category] in H.
  - injection H as <- <-. split; [apply tallied_refl|now destruct dry_run].
  - destruct (assign_products _ _ _ _ _ _) as [[s1 products']|] eqn:A;
      [|discriminate H].
    cbn [bind] in H.
    destruct (assign_category _ _ rest s1) as [[s2 rest']|] eqn:B;
      [|discriminate H].
    cbn [bind] in H. injection H as <- <-.
    apply assign_products_tallied in A as [T1 N1].
    apply IH in B as [T2 N2]. cbn [category_needing].
    split; [eapply tallied_trans; eassumption|].
    rewrite N1, N2. now destruct dry_run.
  - destruct (assign_category _ _ rest s) as [[s1 rest']|] eqn:B;
      [|discriminate H].
    cbn [bind] in H. injection H as <- <-.
    apply IH in B as [T2 N2]. cbn [category_needing]. now split.
Qed.

Lemma assign_catalog_tallied (dry_run : bool) (product_data : catalog) :
  forall s s' product_data',
    assign_catalog dry_run product_data s = Some (s', product_data') ->
    tallied dry_run (catalog_needing product_data) s s'
    /\ catalog_needing product_data'
       = (if dry_run then catalog_needing product_data else 0%nat).
Proof.
  induction product_data as [|[category data] rest IH];
    intros s s' product_data' H; cbn [assign_catalog] in H.
  - injection H as <- <-. split; [apply tallied_refl|now destruct dry_run].
  - destruct (assign_category _ _ _ _) as [[s1 data']|] eqn:A;
      [|discriminate H].
    cbn [bind] in H.
    destruct (assign_catalog _ rest s1) as [[s2 rest']|] eqn:B;
      [|discriminate H].
    cbn [bind] in H. injection H as <- <-.
    apply assign_category_tallied in A as [T1 N1].
    apply IH in B as [T2 N2]. cbn [catalog_needing].
    split; [eapply tallied_trans; eassumption|].
    rewrite N1, N2. now destruct dry_run.
Qed.

Lemma analysis_missing (product_data : catalog) :
  missing_skus (analyze_missing_skus product_data)
  = catalog_needing product_data.
Proof.
  unfold analyze_missing_skus.
  destruct (analyze_catalog_counted product_data (mkAnalysis 0 0 0 []))
    as (A & _). exact A.
Qed.

(** X3. The analysis adds up: every product is counted once, as having
    a SKU or as missing one, and the products missing one are exactly
    those listed by category.  A run of the assigner that returns has
    generated one SKU per product the analysis counted as missing, and
    assigned as many unless it was a dry run. *)
Theorem analysis_matches_run (product_data product_data' : catalog)
    (dry_run : bool) (s : run_state) :
  generate_and_assign_skus product_data dry_run = Some (s, product_data') ->
  let a := analyze_missing_skus product_data in
  total_products a = (has_skus a + missing_skus a)%nat
  /\ missing_skus a = listed (categories_needing_skus a)
  /\ List.length (assignment_log s) = missing_skus a
  /\ skus_generated s = N.of_nat (missing_skus a)
  /\ skus_assigned s = (if dry_run then 0%N else N.of_nat (missing_skus a)).
Proof.
  intros H a.
  destruct (analyze_catalog_counted product_data (mkAnalysis 0 0 0 []))
    as (_ & B & C).
  fold (analyze_missing_skus product_data) in B, C. fold a in B, C.
  split; [now apply B|]. split; [now apply C|].
  unfold a. rewrite analysis_missing.
  apply assign_catalog_tallied in H as [(T1 & T2 & T3) _].
  cbn [assignment_log skus_generated skus_assigned List.length] in *.
  rewrite T1, T2, T3. destruct dry_run; repeat split; lia.
Qed.

Lemma analysis_matches_run_witness :
  generate_and_assign_skus mixed_catalog true
  = Some (mixed_dry_state, mixed_catalog)
  /\ proposed_skus mixed_dry_state = ["HTHMM002"; "HTHMM003"; "HTHMM004"]
  /\ missing_skus (analyze_missing_skus mixed_catalog) = 3%nat
  /\ List.length (assignment_log mixed_dry_state)
     = missing_skus (analyze_missing_skus mixed_catalog).
Proof.
  assert (H : generate_and_assign_skus mixed_catalog true
              = Some (mixed_dry_state, mixed_catalog))
    by (vm_compute; reflexivity).
  split; [exact H|]. split; [reflexivity|]. split; [reflexivity|].
  exact (proj1 (proj2 (proj2
           (analysis_matches_run mixed_catalog mixed_catalog true
              mixed_dry_state H)))).
Defined.

(** X4. A real run that returns leaves no product without a SKU: the
    analysis of the catalog it writes counts none missing, and a second
    run on that catalog generates no SKU. *)
Theorem real_run_completes_catalog (product_data product_data' : catalog)
    (s : run_state) :
  generate_and_assign_skus product_data false = Some (s, product_data') ->
  missing_skus (analyze_missing_skus product_data') = 0%nat
  /\ forall s2 c2,
       generate_and_assign_skus product_data' false = Some (s2, c2) ->
       assignment_log s2 = [] /\ skus_generated s2 = 0%N.
Proof.
  intro H. apply assign_catalog_tallied in H as [_ N].
  rewrite analysis_missing. split; [exact N|].
  intros s2 c2 H2. apply assign_catalog_tallied in H2 as [(T1 & T2 & _) _].
  rewrite N in T1, T2. cbn [assignment_log skus_generated List.length] in *.
  split; [now apply length_zero_iff_nil|].
  rewrite T2. reflexivity.
Qed.

Lemma real_run_completes_catalog_witness :
  generate_and_assign_skus mixed_catalog false
  = Some (mixed_real_state, mixed_completed)
  /\ missing_skus (analyze_missing_skus mixed_completed) = 0%nat.
Proof.
  assert (H : generate_and_assign_skus mixed_catalog false
              = Some (mixed_real_state, mixed_completed))
    by (vm_compute; reflexivity).
  split; [exact H|].
  exact (proj1 (real_run_completes_catalog mixed_catalog mixed_completed
                  mixed_real_state H)).
Defined.

(** A run that logs no error, on the catalog with two buckets of the
    same codes. *)
Lemma assigner_sound_without_errors_witness :
  generate_and_assign_skus mixed_catalog true
  = Some (mixed_dry_state, mixed_catalog)
  /\ NoDup (proposed_skus mixed_dry_state)
  /\ forall k, In k (proposed_skus mixed_dry_state) ->
       ~ In k (collect_existing_skus mixed_catalog).
Proof.
  assert (H : generate_and_assign_skus mixed_catalog true
              = Some (mixed_dry_state, mixed_catalog))
    by (vm_compute; reflexivity).
  split; [exact H|].
  pose proof (assigner_sound_without_errors mixed_catalog mixed_catalog
                true mixed_dry_state H eq_refl) as (A & B & _).
  split; [exact A|exact B].
Defined.

End SkuReportFacts.

(* ------------------------------------------------------------------ *)
(** ** The streaming event handler: what the buffer keeps and loses *)

Module HandlerFacts.
Import PyStr PyStrFacts TextFacts StreamHandler StreamFacts HandlerLifecycle.

(** *** One pass over the buffer *)

Lemma take_empty_drop (n : nat) (s : string) : take n s = "" -> drop n s = s.
Proof. intro H. rewrite <- (take_drop n s) at 2. now rewrite H. Qed.

(** On an open handler a pass over a non-empty buffer queues text and
    keeps a buffer which, read together, are the buffer it was given,
    without the complete references when there was one. *)
Lemma process_conserves (b : string) :
  let h0 := process_buffered_text (mkHandler "" [] false b) in
  concat_str (emitted_text (token_queue h0)) ++ text_buffer h0
  = if has_match b then sub b else b.
Proof.
  unfold process_buffered_text, set_buffer.
  cbn [text_buffer assistant_message token_queue is_closed].
  destruct (nonempty b) eqn:NB; cbn [negb].
  2:{ destruct b; [|discriminate NB]. reflexivity. }
  destruct (has_match b).
  - destruct (nonempty (sub b)) eqn:NS;
      rewrite ?put_safely_open;
      cbn [text_buffer assistant_message token_queue is_closed];
      change (max_buffer_size <? len "")%Z with false;
      cbn [text_buffer token_queue emitted_text concat_str app].
    + now rewrite !app_empty_r.
    + destruct (sub b); [reflexivity|discriminate NS].
  - repeat match goal with
    | |- context [if ?c then _ else _] =>
        lazymatch c with
        | context [if _ then _ else _] => fail
        | _ => destruct c eqn:?
        end; rewrite ?put_safely_open;
        cbn [text_buffer assistant_message token_queue is_closed]
    end;
    cbn [app emitted_text concat_str];
    rewrite ?emitted_text_app; cbn [app emitted_text concat_str];
    rewrite ?app_empty_r, ?take_drop; try reflexivity;
    repeat match goal with
    | H : nonempty ?s = false |- _ =>
        destruct s eqn:?; [clear H|discriminate H]
    end;
    cbn [append]; rewrite ?app_empty_r, ?take_drop; try reflexivity;
    now apply take_empty_drop.
Qed.

Lemma step_conserves (buf delta : string) :
  delta <> "" ->
  concat_str (emitted_text (fst (step buf delta))) ++ snd (step buf delta)
  = if has_match (buf ++ delta) then sub (buf ++ delta) else buf ++ delta.
Proof.
  intro Hd. unfold step, on_message_delta.
  destruct delta as [|c d]; [contradiction|].
  cbn [nonempty fst snd text_buffer token_queue assistant_message is_closed].
  rewrite (process_frame ("" ++ String c d) [] (buf ++ String c d)).
  cbn [text_buffer token_queue app].
  apply process_conserves.
Qed.

(** X5. A delta arriving at an open handler loses nothing but complete
    references: the text it queues followed by the buffer it keeps is
    the old buffer followed by the delta, with the complete references
    removed when there is one. *)
Theorem delta_conserves_text (h : handler) (delta : string) :
  is_closed h = false ->
  delta <> "" ->
  exists out,
    emitted_text (token_queue (on_message_delta delta h))
    = (emitted_text (token_queue h) ++ out)%list
    /\ concat_str out ++ text_buffer (on_message_delta delta h)
       = if has_match (text_buffer h ++ delta)
         then sub (text_buffer h ++ delta)
         else text_buffer h ++ delta.
Proof.
  intros Hopen Hd.
  destruct (delta_frame h delta Hopen) as (Q & B & _).
  exists (emitted_text (fst (step (text_buffer h) delta))).
  rewrite Q, B, emitted_text_app. split; [reflexivity|].
  now apply step_conserves.
Qed.

Lemma delta_conserves_text_witness :
  exists out,
    emitted_text (token_queue (on_message_delta "b ![x](sandbox:/mnt/data/p.png) c!"
                                 (mkHandler "" [Text "seen"] false "a [")))
    = (["seen"] ++ out)%list
    /\ concat_str out
       ++ text_buffer (on_message_delta "b ![x](sandbox:/mnt/data/p.png) c!"
                         (mkHandler "" [Text "seen"] false "a ["))
       = "a  c!".
Proof.
  exact (delta_conserves_text (mkHandler "" [Text "seen"] false "a [")
           "b ![x](sandbox:/mnt/data/p.png) c!" eq_refl ltac:(discriminate)).
Defined.

(** *** Text without brackets *)

Lemma match_link_lacks (s : string) :
  lacks "[" s = true -> match_link s = None.
Proof.
  destruct s as [|c s]; [reflexivity|]. rewrite lacks_cons.
  intro H. apply andb_true_iff in H as [H _].
  destruct c as [[] [] [] [] [] [] [] []]; try reflexivity; discriminate H.
Qed.

Lemma match_at_lacks (s : string) : lacks "[" s = true -> match_at s = None.
Proof.
  intro H. unfold match_at.
  destruct s as [|c s]; [reflexivity|].
  assert (T : lacks "[" s = true).
  { rewrite lacks_cons in H. now apply andb_true_iff in H as [_ H]. }
  rewrite (match_link_lacks _ H), (match_link_lacks _ T).
  destruct c as [[] [] [] [] [] [] [] []]; reflexivity.
Qed.

Lemma has_match_lacks (s : string) : lacks "[" s = true -> has_match s = false.
Proof.
  induction s as [|c s IH]; intro H; cbn [has_match].
  - reflexivity.
  - rewrite (match_at_lacks _ H). apply IH.
    rewrite lacks_cons in H. now apply andb_true_iff in H as [_ H].
Qed.

Lemma sub_steps_lacks (k : nat) :
  forall s, lacks "[" s = true -> sub_steps k s = s.
Proof.
  induction k as [|k IH]; intros s H; [reflexivity|]. cbn [sub_steps].
  destruct s as [|c s]; [reflexivity|].
  rewrite (match_at_lacks _ H). f_equal. apply IH.
  rewrite lacks_cons in H. now apply andb_true_iff in H as [_ H].
Qed.

Lemma sub_lacks (s : string) : lacks "[" s = true -> sub s = s.
Proof. apply sub_steps_lacks. Qed.

Lemma feed_plain (deltas : list string) :
  forall h,
    is_closed h = false ->
    lacks "[" (text_buffer h) = true ->
    lacks "[" (concat_str deltas) = true ->
    is_closed (feed deltas h) = false
    /\ lacks "[" (text_buffer (feed deltas h)) = true
    /\ concat_str (emitted_text (token_queue (feed deltas h)))
       ++ text_buffer (feed deltas h)
       = concat_str (emitted_text (token_queue h)) ++ text_buffer h
         ++ concat_str deltas.
Proof.
  induction deltas as [|d rest IH]; intros h Hopen Hb Hd; cbn [feed fold_left].
  - cbn [concat_str]. now rewrite app_empty_r.
  - change (fold_left (fun h d => on_message_delta d h) rest
              (on_message_delta d h))
      with (feed rest (on_message_delta d h)).
    cbn [concat_str] in Hd. rewrite lacks_app in Hd.
    apply andb_true_iff in Hd as [Hd Hr].
    destruct d as [|c d].
    + change (on_message_delta "" h) with h. cbn [concat_str append].
      now apply IH.
    + assert (L : lacks "[" (text_buffer h ++ String c d) = true)
        by now rewrite lacks_app, Hb, Hd.
      pose proof (step_conserves (text_buffer h) (String c d)
                    ltac:(discriminate)) as C.
      rewrite (has_match_lacks _ L) in C.
      destruct (delta_frame h (String c d) Hopen) as (Q & B & O).
      assert (L' : lacks "[" (text_buffer (on_message_delta (String c d) h))
                   = true).
      { rewrite B. pose proof L as L2. rewrite <- C, lacks_app in L2.
        now apply andb_true_iff in L2 as [_ L2]. }
      destruct (IH _ O L' Hr) as (A1 & A2 & A3).
      split; [exact A1|]. split; [exact A2|].
      rewrite A3, Q, B, emitted_text_app, concat_str_app.
      cbn [concat_str].
      rewrite (app_assoc (concat_str (emitted_text (token_queue h)))).
      f_equal.
      rewrite <- (app_assoc (text_buffer h)), <- C.
      now rewrite !app_assoc.
Qed.

(** X6. Text that holds no opening bracket reaches the queue whole and
    in order, however it is cut into deltas: exclamation marks are held
    back for a while but never lost. *)
Theorem plain_text_is_delivered (deltas : list string) :
  lacks "[" (concat_str deltas) = true ->
  concat_str (emitted deltas) = concat_str deltas.
Proof.
  intro H.
  destruct (feed_plain deltas init eq_refl eq_refl H) as (O & L & C).
  cbn [init token_queue text_buffer emitted_text concat_str append] in C.
  unfold emitted, run, on_done.
  destruct (feed deltas init) as [am q cl buf].
  cbn [is_closed text_buffer token_queue] in *. subst cl.
  destruct buf as [|c buf].
  - cbn [nonempty token_queue]. now rewrite app_empty_r in C.
  - cbn [nonempty]. rewrite (sub_lacks _ L). cbn [nonempty].
    rewrite put_safely_open. unfold set_buffer.
    cbn [token_queue]. rewrite emitted_text_app, concat_str_app.
    cbn [emitted_text concat_str]. now rewrite app_empty_r.
Qed.

Lemma plain_text_is_delivered_witness :
  emitted ["Done!"; "!"; " 3 > 2 (really)"; "!"]
  = ["Done"; "!"; "! 3 > 2 (really)"; "!"]
  /\ concat_str (emitted ["Done!"; "!"; " 3 > 2 (really)"; "!"])
     = "Done!! 3 > 2 (really)!".
Proof.
  split; [reflexivity|].
  apply (plain_text_is_delivered ["Done!"; "!"; " 3 > 2 (really)"; "!"]).
  reflexivity.
Defined.

(** *** The size of the buffer *)

Lemma on_thread_message_frame (files : list string) :
  forall h,
    text_buffer (on_thread_message files h) = text_buffer h
    /\ is_closed (on_thread_message files h) = is_closed h
    /\ assistant_message (on_thread_message files h) = assistant_message h
    /\ token_queue (on_thread_message files h)
       = if is_closed h then token_queue h
         else (token_queue h ++ map File files)%list.
Proof.
  unfold on_thread_message.
  induction files as [|f rest IH]; intro h; cbn [fold_left map].
  - repeat split; [].
    destruct (is_closed h); [reflexivity|now rewrite List.app_nil_r].
  - destruct (IH (put_safely (File f) h)) as (A & B & C & D).
    rewrite A, B, C, D. unfold put_safely.
    destruct (is_closed h) eqn:E; cbn [text_buffer is_closed
      assistant_message token_queue]; rewrite ?E; repeat split; [].
    now rewrite <- List.app_assoc.
Qed.

Lemma on_thread_message_buffer (files : list string) (h : handler) :
  text_buffer (on_thread_message files h) = text_buffer h.
Proof. apply on_thread_message_frame. Qed.

Lemma process_bounds_any (h : handler) :
  text_buffer h <> "" ->
  (len (text_buffer (process_buffered_text h)) <= max_buffer_size)%Z.
Proof.
  intro H0. unfold process_buffered_text.
  destruct (text_buffer h) as [|c b] eqn:B; [contradiction|].
  cbn [nonempty negb].
  match goal with
  | |- context [if (max_buffer_size <? len (text_buffer ?x))%Z then _ else _] =>
      set (h1 := x)
  end.
  destruct (max_buffer_size <? len (text_buffer h1))%Z eqn:E.
  - unfold set_buffer. cbn [text_buffer]. unfold max_buffer_size, len.
    cbn. lia.
  - now apply Z.ltb_ge in E.
Qed.

(** X7. The buffer never holds more than 1000 characters after an
    event, on an open or a closed handler and whatever the events: what
    would leave more is flushed (or, closed, dropped) at once. *)
Theorem buffer_is_bounded (events : list event) (h : handler) :
  (len (text_buffer h) <= max_buffer_size)%Z ->
  (len (text_buffer (dispatch_all events h)) <= max_buffer_size)%Z.
Proof.
  revert h. unfold dispatch_all.
  induction events as [|e rest IH]; intros h H; cbn [fold_left]; [exact H|].
  apply IH. destruct e as [text|files| |]; cbn [dispatch].
  - destruct text as [|c t]; [exact H|].
    unfold on_message_delta. cbn [nonempty].
    apply process_bounds_any. cbn [text_buffer].
    destruct (text_buffer h); discriminate.
  - now rewrite on_thread_message_buffer.
  - unfold on_done. destruct (nonempty (text_buffer h)); [|exact H].
    unfold set_buffer. cbn [text_buffer]. unfold max_buffer_size. cbn. lia.
  - unfold cleanup. destruct (is_closed h); [exact H|].
    cbn [text_buffer]. unfold max_buffer_size. cbn. lia.
Qed.

Lemma buffer_is_bounded_witness :
  (len (text_buffer
          (dispatch_all [MessageDelta "a ![";
                         MessageDelta (concat_str (repeat "0123456789" 100));
                         ThreadMessage ["chart.png"];
                         MessageDelta "](sandbox:/mnt/data/x.png)"] init))
   <= max_buffer_size)%Z.
Proof.
  apply (buffer_is_bounded
           [MessageDelta "a ![";
            MessageDelta (concat_str (repeat "0123456789" 100));
            ThreadMessage ["chart.png"];
            MessageDelta "](sandbox:/mnt/data/x.png)"] init).
  vm_compute. discriminate.
Defined.

(** *** After the handler is closed *)

Lemma process_closed (h : handler) :
  is_closed h = true ->
  is_closed (process_buffered_text h) = true
  /\ token_queue (process_buffered_text h) = token_queue h
  /\ assistant_message (process_buffered_text h) = assistant_message h.
Proof.
  destruct h as [am q cl buf]. cbn [is_closed]. intros ->.
  unfold process_buffered_text, set_buffer, put_safely.
  cbn [text_buffer assistant_message token_queue is_closed].
  repeat match goal with
  | |- context [if ?c then _ else _] =>
      lazymatch c with
      | context [if _ then _ else _] => fail
      | _ => destruct c eqn:?
      end;
      cbn [text_buffer assistant_message token_queue is_closed]
  end; repeat split.
Qed.

Lemma dispatch_closed (e : event) (h : handler) :
  is_closed h = true ->
  is_closed (dispatch h e) = true
  /\ token_queue (dispatch h e) = token_queue h.
Proof.
  intro H. destruct e as [text|files| |]; cbn [dispatch].
  - unfold on_message_delta. destruct (nonempty text); [|now split].
    match goal with |- context [process_buffered_text ?x] =>
      destruct (process_closed x H) as (A & B & _) end.
    now rewrite A, B.
  - destruct (on_thread_message_frame files h) as (_ & A & _ & B).
    now rewrite A, B, H.
  - unfold on_done, set_buffer, put_safely. rewrite H.
    repeat match goal with
    | |- context [if ?c then _ else _] =>
        lazymatch c with
        | context [if _ then _ else _] => fail
        | _ => destruct c eqn:?
        end;
        cbn [text_buffer assistant_message token_queue is_closed]
    end; now split.
  - unfold cleanup. now rewrite H.
Qed.

Lemma process_keeps_state (h : handler) :
  is_closed (process_buffered_text h) = is_closed h
  /\ assistant_message (process_buffered_text h) = assistant_message h.
Proof.
  destruct h as [am q cl buf].
  unfold process_buffered_text, set_buffer, put_safely.
  cbn [text_buffer assistant_message token_queue is_closed].
  repeat match goal with
  | |- context [if ?c then _ else _] =>
      lazymatch c with
      | context [if _ then _ else _] => fail
      | _ => destruct c eqn:?
      end;
      cbn [text_buffer assistant_message token_queue is_closed]
  end; repeat split.
Qed.

Lemma on_done_keeps_state (h : handler) :
  is_closed (on_done h) = is_closed h
  /\ assistant_message (on_done h) = assistant_message h.
Proof.
  destruct h as [am q cl buf].
  unfold on_done, set_buffer, put_safely.
  cbn [text_buffer assistant_message token_queue is_closed].
  repeat match goal with
  | |- context [if ?c then _ else _] =>
      lazymatch c with
      | context [if _ then _ else _] => fail
      | _ => destruct c eqn:?
      end;
      cbn [text_buffer assistant_message token_queue is_closed]
  end; repeat split.
Qed.

(** Closed handlers that the code can reach have an empty queue. *)
Definition drained (h : handler) : Prop :=
  is_closed h = true -> token_queue h = [].

Lemma dispatch_drained (e : event) (h : handler) :
  drained h -> drained (dispatch h e).
Proof.
  unfold drained. intros I.
  destruct (is_closed h) eqn:E.
  - intros _. destruct (dispatch_closed e h E) as (_ & Q).
    rewrite Q. now apply I.
  - destruct e as [text|files| |]; cbn [dispatch].
    + unfold on_message_delta. destruct (nonempty text).
      * match goal with |- context [process_buffered_text ?x] =>
          destruct (process_keeps_state x) as (A & _) end.
        rewrite A. cbn [is_closed]. rewrite E. discriminate.
      * rewrite E. discriminate.
    + destruct (on_thread_message_frame files h) as (_ & A & _).
      rewrite A, E. discriminate.
    + destruct (on_done_keeps_state h) as (A & _). rewrite A, E. discriminate.
    + unfold cleanup. rewrite E. reflexivity.
Qed.

Lemma dispatch_all_drained (events : list event) :
  forall h, drained h -> drained (dispatch_all events h).
Proof.
  unfold dispatch_all.
  induction events as [|e rest IH]; intros h I; cbn [fold_left]; [exact I|].
  apply IH. now apply dispatch_drained.
Qed.

Lemma dispatch_all_closed (events : list event) :
  forall h, is_closed h = true ->
    is_closed (dispatch_all events h) = true
    /\ token_queue (dispatch_all events h) = token_queue h.
Proof.
  unfold dispatch_all.
  induction events as [|e rest IH]; intros h H; cbn [fold_left]; [now split|].
  destruct (dispatch_closed e h H) as (A & B).
  destruct (IH _ A) as (C & D). now rewrite C, D, B.
Qed.

Lemma cleanup_closes (h : handler) : is_closed (cleanup h) = true.
Proof. unfold cleanup. destruct (is_closed h) eqn:E; [exact E|reflexivity]. Qed.

(** X8. Once [cleanup] has run the handler is silent: whatever events
    came before it and whatever events still arrive after it, the
    queue is empty and the handler closed; nothing sent to a closed
    handler is ever delivered. *)
Theorem closed_handler_is_silent (before after : list event) :
  let h := dispatch_all (before ++ Cleanup :: after) init in
  token_queue h = [] /\ is_closed h = true /\ get_queue_size h = 0%Z.
Proof.
  cbn zeta. unfold dispatch_all. rewrite fold_left_app. cbn [fold_left dispatch].
  fold (dispatch_all before init).
  set (h0 := dispatch_all before init).
  fold (dispatch_all after (cleanup h0)).
  assert (D : drained (cleanup h0)).
  { change (cleanup h0) with (dispatch h0 Cleanup).
    apply dispatch_drained, dispatch_all_drained. intro H. discriminate H. }
  destruct (dispatch_all_closed after _ (cleanup_closes h0)) as (A & B).
  assert (Q : token_queue (dispatch_all after (cleanup h0)) = [])
    by (rewrite B; apply D, cleanup_closes).
  split; [exact Q|]. split; [exact A|].
  unfold get_queue_size. now rewrite Q.
Qed.

(** *** The recorded message *)

Lemma dispatch_message (e : event) (h : handler) :
  assistant_message (dispatch h e)
  = assistant_message h ++ delta_text [e].
Proof.
  destruct e as [text|files| |]; cbn [dispatch delta_text];
    rewrite ?app_empty_r.
  - unfold on_message_delta. destruct text as [|c t].
    + cbn [nonempty]. now rewrite app_empty_r.
    + cbn [nonempty].
      match goal with |- context [process_buffered_text ?x] =>
        destruct (process_keeps_state x) as (_ & A) end.
      now rewrite A.
  - apply on_thread_message_frame.
  - apply on_done_keeps_state.
  - unfold cleanup. now destruct (is_closed h).
Qed.

(** X9. [assistant_message] records every delta verbatim and in order,
    sandbox references included, whether or not the handler is closed:
    filtering applies to the queue only. *)
Theorem assistant_message_is_unfiltered (events : list event) (h : handler) :
  assistant_message (dispatch_all events h)
  = assistant_message h ++ delta_text events.
Proof.
  revert h. unfold dispatch_all.
  induction events as [|e rest IH]; intro h; cbn [fold_left].
  - cbn [delta_text]. now rewrite app_empty_r.
  - rewrite IH, dispatch_message.
    destruct e; cbn [delta_text]; rewrite ?app_empty_r, ?app_assoc;
      reflexivity.
Qed.

End HandlerFacts.
(* ------------------------------------------------------------------ *)
(** ** The web chat relay: file names and the stream protocol *)

Module RelayProtocol.
Import PyStr PyStrFacts TextFacts StreamFacts WebApp.

(** *** Reversal, splitting and stripping *)

Lemma rev_str_acc (s acc : string) : rev_str acc s = rev_str "" s ++ acc.
Proof.
  revert acc. induction s as [|c s IH]; intro acc; cbn [rev_str].
  - reflexivity.
  - rewrite (IH (String c acc)), (IH (String c "")), app_assoc. reflexivity.
Qed.

Lemma rev_str_app (a b : string) :
  rev_str "" (a ++ b) = rev_str "" b ++ rev_str "" a.
Proof.
  induction a as [|c a IH]; cbn [append rev_str].
  - now rewrite app_empty_r.
  - rewrite (rev_str_acc (a ++ b)), (rev_str_acc a), IH, app_assoc.
    reflexivity.
Qed.

Lemma rev_str_involutive (s : string) : rev_str "" (rev_str "" s) = s.
Proof.
  induction s as [|c s IH]; [reflexivity|]. cbn [rev_str].
  rewrite (rev_str_acc s (String c "")), rev_str_app, IH. reflexivity.
Qed.

Lemma split_on_aux_lacks (sep : ascii) (s cur : string) :
  lacks sep s = true ->
  split_on_aux sep cur s = [rev_str "" cur ++ s].
Proof.
  revert cur. induction s as [|c s IH]; intros cur H; cbn [split_on_aux].
  - now rewrite app_empty_r.
  - rewrite lacks_cons in H. apply andb_true_iff in H as [H1 H2].
    apply negb_true_iff in H1. rewrite H1, (IH _ H2). cbn [rev_str].
    rewrite rev_str_acc, app_assoc. reflexivity.
Qed.

Lemma split_on_lacks (sep : ascii) (s : string) :
  lacks sep s = true -> split_on sep s = [s].
Proof. intro H. unfold split_on. now rewrite split_on_aux_lacks. Qed.

Lemma last_segment_cons (x : string) (l : list string) :
  l <> [] -> last_segment (x :: l) = last_segment l.
Proof. destruct l; [contradiction|reflexivity]. Qed.

Lemma split_on_aux_nonempty (sep : ascii) (s cur : string) :
  split_on_aux sep cur s <> [].
Proof.
  revert cur. induction s as [|c s IH]; intro cur; cbn [split_on_aux].
  - discriminate.
  - destruct (Ascii.eqb c sep); [discriminate|apply IH].
Qed.

Lemma last_segment_split (sep : ascii) (a b cur : string) :
  lacks sep b = true ->
  last_segment (split_on_aux sep cur (a ++ String sep b)) = b.
Proof.
  intro H. revert cur.
  induction a as [|c a IH]; intro cur; cbn [append split_on_aux].
  - rewrite Ascii.eqb_refl, last_segment_cons by apply split_on_aux_nonempty.
    now rewrite split_on_aux_lacks.
  - destruct (Ascii.eqb c sep); [|apply IH].
    rewrite last_segment_cons by apply split_on_aux_nonempty. apply IH.
Qed.

Lemma lower_app (a b : string) : lower (a ++ b) = lower a ++ lower b.
Proof.
  unfold lower. induction a as [|c a IH]; [reflexivity|].
  cbn [append map_str]. now rewrite IH.
Qed.

Lemma lower_char_dot (c : ascii) :
  Ascii.eqb (lower_char c) "." = Ascii.eqb c ".".
Proof. destruct c as [[] [] [] [] [] [] [] []]; reflexivity. Qed.

Lemma lower_lacks_dot (s : string) : lacks "." (lower s) = lacks "." s.
Proof.
  unfold lower. induction s as [|c s IH]; [reflexivity|].
  cbn [map_str]. now rewrite !lacks_cons, lower_char_dot, IH.
Qed.

Lemma contains_lacks (c : ascii) (s : string) :
  contains (String c "") s = negb (lacks c s).
Proof.
  induction s as [|x s IH]; [reflexivity|].
  cbn [contains String.prefix]. rewrite lacks_cons, IH.
  destruct (ascii_dec c x) as [->|N].
  - rewrite Ascii.eqb_refl. cbn. now destruct s.
  - assert (E : Ascii.eqb x c = false)
      by (apply Ascii.eqb_neq; congruence).
    rewrite E. destruct (ascii_dec c x); [contradiction|]. reflexivity.
Qed.

(** X10. The extension of an upload is what follows the last dot of
    its name, in lower case; a name with no dot, an empty name and a
    missing name have the empty extension.  So [notes.TXT] is read as
    text and [notes.txt.pdf] is not. *)
Theorem extension_is_after_last_dot (stem ext : string) :
  lacks "." ext = true ->
  file_extension (Some (stem ++ "." ++ ext)) = lower ext
  /\ file_extension (Some ext) = ""
  /\ file_extension None = "".
Proof.
  intro H. split; [|split; [|reflexivity]].
  - unfold file_extension.
    assert (C : contains "." (stem ++ "." ++ ext) = true).
    { rewrite contains_lacks, lacks_app. cbn [append]. rewrite lacks_cons.
      rewrite Ascii.eqb_refl. cbn. now rewrite andb_false_r. }
    rewrite C.
    replace (nonempty (stem ++ "." ++ ext)) with true
      by now destruct stem.
    cbn [andb]. rewrite lower_app. unfold split_on.
    change (lower ("." ++ ext)) with (String "." (lower ext)).
    apply last_segment_split. now rewrite lower_lacks_dot.
  - unfold file_extension. rewrite contains_lacks, H.
    now rewrite andb_false_r.
Qed.

Lemma extension_is_after_last_dot_witness :
  file_extension (Some ("Q3.report" ++ "." ++ "TXT")) = "txt"
  /\ file_extension (Some "TXT") = ""
  /\ file_extension None = "".
Proof.
  exact (extension_is_after_last_dot "Q3.report" "TXT" eq_refl).
Defined.

(** *** The frames of the agent runtime *)

(** A JSON value whose text holds no line break: true of everything
    [json.dumps] prints, numbers being kept as text here. *)
Fixpoint one_line (v : json) : bool :=
  match v with
  | JNum text _ => lacks "010" text
  | JArr items => forallb one_line items
  | JObj fields =>
      forallb (fun kv => match kv with (_, x) => one_line x end) fields
  | _ => true
  end.

(** What the agent runtime sends on its stream, one [data:] line each. *)
Inductive frame :=
| Content (text : string)
| FileInfo (file_info : json)
| ErrorInfo (error : json).

Definition sent (f : frame) : json :=
  match f with
  | Content text => JObj [("content", JStr text)]
  | FileInfo file_info => JObj [("file_info", file_info)]
  | ErrorInfo error => JObj [("error", error)]
  end.

(** What the browser is to receive for it. *)
Definition forwarded (f : frame) : json :=
  match f with
  | Content text => JObj [("content", JStr text)]
  | FileInfo file_info => JObj [("file", file_info)]
  | ErrorInfo error => JObj [("error", error)]
  end.

(** A frame with something in it. *)
Definition relayable (f : frame) : bool :=
  match f with
  | Content text => nonempty text
  | FileInfo v | ErrorInfo v => truthy v && one_line v
  end.

(** A chunk of the response body holding whole frames. *)
Definition chunk_text (frames : list frame) : string :=
  concat_str (map (fun f => sse (sent f)) frames).

Lemma escape_char_one_line (c : ascii) : lacks "010" (escape_char c) = true.
Proof. destruct c as [[] [] [] [] [] [] [] []]; reflexivity. Qed.

Lemma escape_one_line (s : string) : lacks "010" (escape s) = true.
Proof.
  induction s as [|c s IH]; [reflexivity|]. cbn [escape].
  now rewrite lacks_app, escape_char_one_line, IH.
Qed.

Lemma dumps_str_one_line (s : string) : lacks "010" (dumps_str s) = true.
Proof.
  unfold dumps_str. now rewrite !lacks_app, escape_one_line.
Qed.

Fixpoint dumps_one_line (v : json) {struct v} :
  one_line v = true -> lacks "010" (json_dumps v) = true.
Proof.
  destruct v as [|b|text zero|s|items|fields]; intro H.
  - reflexivity.
  - now destruct b.
  - exact H.
  - apply dumps_str_one_line.
  - cbn [json_dumps].
    set (go := fix go (l : list json) : string :=
                 match l with
                 | [] => ""
                 | x :: r =>
                     match r with
                     | [] => json_dumps x
                     | _ => json_dumps x ++ ", " ++ go r
                     end
                 end).
    rewrite !lacks_app, andb_true_r. change (lacks "010" "[") with true.
    cbn [andb]. cbn [one_line] in H. revert H.
    induction items as [|x r IHr]; intro H; [reflexivity|].
    cbn [forallb] in H. apply andb_true_iff in H as [Hx Hr].
    change (go (x :: r))
      with (match r with
            | [] => json_dumps x
            | _ => json_dumps x ++ ", " ++ go r
            end).
    destruct r as [|y r'].
    + now apply dumps_one_line.
    + rewrite !lacks_app, (dumps_one_line x Hx), (IHr Hr). reflexivity.
  - cbn [json_dumps].
    set (go := fix go (l : list (string * json)) : string :=
                 match l with
                 | [] => ""
                 | (k, x) :: r =>
                     match r with
                     | [] => dumps_str k ++ ": " ++ json_dumps x
                     | _ => dumps_str k ++ ": " ++ json_dumps x ++ ", " ++ go r
                     end
                 end).
    rewrite !lacks_app, andb_true_r. change (lacks "010" "{") with true.
    cbn [andb]. cbn [one_line] in H. revert H.
    induction fields as [|[k x] r IHr]; intro H; [reflexivity|].
    cbn [forallb] in H. apply andb_true_iff in H as [Hx Hr].
    change (go ((k, x) :: r))
      with (match r with
            | [] => dumps_str k ++ ": " ++ json_dumps x
            | _ => dumps_str k ++ ": " ++ json_dumps x ++ ", " ++ go r
            end).
    destruct r as [|y r'].
    + now rewrite !lacks_app, dumps_str_one_line, (dumps_one_line x Hx).
    + rewrite !lacks_app, dumps_str_one_line, (dumps_one_line x Hx),
        (IHr Hr). reflexivity.
Qed.

Definition line_of (f : frame) : string := "data: " ++ json_dumps (sent f).

(** The lines of a chunk of whole frames once stripped: the frames'
    lines, a blank line between two of them. *)
Fixpoint stripped (f : frame) (rest : list frame) : string :=
  match rest with
  | [] => line_of f
  | g :: rest' => line_of f ++ nl ++ nl ++ stripped g rest'
  end.

Lemma sent_one_line (f : frame) :
  relayable f = true -> lacks "010" (line_of f) = true.
Proof.
  intro H. unfold line_of. rewrite lacks_app. cbn [andb].
  change (lacks "010" "data: ") with true. cbn [andb].
  apply dumps_one_line.
  destruct f as [t|v|v]; cbn [sent one_line forallb relayable] in *;
    [reflexivity| |];
    apply andb_true_iff in H as [_ H]; now rewrite H.
Qed.

Lemma chunk_text_stripped (f : frame) (rest : list frame) :
  chunk_text (f :: rest) = stripped f rest ++ nl ++ nl.
Proof.
  revert f. unfold chunk_text.
  induction rest as [|g rest IH]; intro f; cbn [map concat_str stripped].
  - unfold sse, line_of. now rewrite app_empty_r, !app_assoc.
  - cbn [map concat_str] in IH. rewrite IH.
    unfold sse, line_of. now rewrite !app_assoc.
Qed.

Lemma line_of_shape (f : frame) :
  exists body, line_of f = String "d" (body ++ "}").
Proof.
  unfold line_of.
  destruct f as [t|v|v]; cbn [sent json_dumps].
  - now exists ("ata: {" ++ dumps_str "content" ++ ": " ++ dumps_str t).
  - now exists ("ata: {" ++ dumps_str "file_info" ++ ": " ++ json_dumps v).
  - now exists ("ata: {" ++ dumps_str "error" ++ ": " ++ json_dumps v).
Qed.

Lemma stripped_shape (f : frame) (rest : list frame) :
  exists body, stripped f rest = String "d" (body ++ "}").
Proof.
  revert f. induction rest as [|g rest IH]; intro f; cbn [stripped].
  - apply line_of_shape.
  - destruct (line_of_shape f) as (b1 & ->).
    destruct (IH g) as (b2 & ->).
    exists (b1 ++ "}" ++ nl ++ nl ++ String "d" b2).
    cbn [append]. f_equal. now rewrite !app_assoc.
Qed.

Lemma lstrip_space (c : ascii) (s : string) :
  is_space c = true -> lstrip (String c s) = lstrip s.
Proof. intro H. cbn [lstrip]. now rewrite H. Qed.

Lemma lstrip_nonspace (c : ascii) (s : string) :
  is_space c = false -> lstrip (String c s) = String c s.
Proof. intro H. cbn [lstrip]. now rewrite H. Qed.

Lemma rstrip_line (s : string) (c : ascii) :
  is_space c = false ->
  rstrip (s ++ String c (nl ++ nl)) = s ++ String c "".
Proof.
  intro H. unfold rstrip. rewrite rev_str_app.
  change (rev_str "" (String c (nl ++ nl)))
    with (String "010" (String "010" (String c ""))).
  cbn [append].
  rewrite !lstrip_space by reflexivity.
  rewrite (lstrip_nonspace _ _ H). cbn [rev_str].
  rewrite rev_str_acc, rev_str_involutive. reflexivity.
Qed.

Lemma strip_chunk (f : frame) (rest : list frame) :
  strip (chunk_text (f :: rest)) = stripped f rest.
Proof.
  rewrite chunk_text_stripped.
  destruct (stripped_shape f rest) as (body & ->).
  unfold strip. cbn [append].
  rewrite lstrip_nonspace by reflexivity.
  replace (String "d" ((body ++ "}") ++ nl ++ nl))
    with (String "d" body ++ String "}" (nl ++ nl))
    by (cbn [append]; now rewrite app_assoc).
  now rewrite rstrip_line.
Qed.

Lemma split_on_aux_cut (sep : ascii) (a b cur : string) :
  lacks sep a = true ->
  split_on_aux sep cur (a ++ String sep b)
  = (rev_str "" cur ++ a) :: split_on sep b.
Proof.
  revert cur. induction a as [|c a IH]; intros cur H;
    cbn [append split_on_aux].
  - rewrite Ascii.eqb_refl, app_empty_r. reflexivity.
  - rewrite lacks_cons in H. apply andb_true_iff in H as [H1 H2].
    apply negb_true_iff in H1. rewrite H1, (IH _ H2). cbn [rev_str].
    rewrite (rev_str_acc cur), app_assoc. reflexivity.
Qed.

Lemma split_on_cut (sep : ascii) (a b : string) :
  lacks sep a = true ->
  split_on sep (a ++ String sep b) = a :: split_on sep b.
Proof. intro H. unfold split_on at 1. now rewrite split_on_aux_cut. Qed.

(** The lines of a stripped chunk. *)
Fixpoint lines_of (f : frame) (rest : list frame) : list string :=
  match rest with
  | [] => [line_of f]
  | g :: rest' => line_of f :: "" :: lines_of g rest'
  end.

Lemma split_stripped (f : frame) (rest : list frame) :
  forallb relayable (f :: rest) = true ->
  split_on "010" (stripped f rest) = lines_of f rest.
Proof.
  revert f. induction rest as [|g rest IH]; intros f H;
    cbn [stripped lines_of]; cbn [forallb] in H;
    apply andb_true_iff in H as [Hf Hr].
  - apply split_on_lacks. now apply sent_one_line.
  - change (line_of f ++ nl ++ nl ++ stripped g rest)
      with (line_of f ++ String "010" ("" ++ String "010" (stripped g rest))).
    rewrite split_on_cut by now apply sent_one_line.
    rewrite split_on_cut by reflexivity.
    now rewrite IH.
Qed.

Section Transparency.

Variable json_loads : string -> option json.

(** [json.loads] reads back what [json.dumps] printed for a frame. *)
Definition reads_back (f : frame) : Prop :=
  json_loads (json_dumps (sent f)) = Some (sent f).

Lemma relay_line (f : frame) (rest : list string) :
  relayable f = true -> reads_back f ->
  relay_lines json_loads (line_of f :: rest)
  = (sse (forwarded f) :: fst (relay_lines json_loads rest),
     snd (relay_lines json_loads rest)).
Proof.
  intros R L. cbn [relay_lines].
  replace (startswith "data: " (line_of f)) with true
    by now destruct f.
  change (drop 6 (line_of f)) with (json_dumps (sent f)).
  unfold reads_back in L. rewrite L.
  destruct (relay_lines json_loads rest) as [evs raised].
  destruct f as [t|v|v]; cbn [sent forwarded relayable] in *.
  - change (dict_get "content" [("content", JStr t)]) with (JStr t).
    cbn [truthy]. rewrite R. reflexivity.
  - change (dict_get "content" [("file_info", v)]) with JNull.
    change (dict_get "file_info" [("file_info", v)]) with v.
    apply andb_true_iff in R as [R _]. cbn [truthy]. rewrite R. reflexivity.
  - change (dict_get "content" [("error", v)]) with JNull.
    change (dict_get "file_info" [("error", v)]) with JNull.
    change (dict_get "error" [("error", v)]) with v.
    apply andb_true_iff in R as [R _]. cbn [truthy]. rewrite R. reflexivity.
Qed.

Lemma relay_blank (rest : list string) :
  relay_lines json_loads ("" :: rest) = relay_lines json_loads rest.
Proof. reflexivity. Qed.

Lemma relay_lines_of (f : frame) (rest : list frame) :
  forallb relayable (f :: rest) = true ->
  Forall reads_back (f :: rest) ->
  relay_lines json_loads (lines_of f rest)
  = (map (fun f => sse (forwarded f)) (f :: rest), None).
Proof.
  revert f. induction rest as [|g rest IH]; intros f R L;
    cbn [lines_of]; cbn [forallb] in R;
    apply andb_true_iff in R as [Rf Rr]; inversion L as [|? ? Lf Lr]; subst.
  - now rewrite (relay_line f [] Rf Lf).
  - rewrite (relay_line f _ Rf Lf), relay_blank, (IH g Rr Lr). reflexivity.
Qed.

Lemma relay_chunk (frames : list frame) (rest : list string) :
  forallb relayable frames = true ->
  Forall reads_back frames ->
  relay_chunks json_loads (chunk_text frames :: rest)
  = ((map (fun f => sse (forwarded f)) frames
      ++ fst (relay_chunks json_loads rest))%list,
     snd (relay_chunks json_loads rest)).
Proof.
  intros R L. destruct frames as [|f frames].
  - cbn [relay_chunks chunk_text map concat_str strip]. cbn.
    now destruct (relay_chunks json_loads rest).
  - cbn [relay_chunks]. rewrite strip_chunk.
    destruct (stripped_shape f frames) as (body & E).
    replace (nonempty (stripped f frames)) with true by now rewrite E.
    rewrite (split_stripped f frames R), (relay_lines_of f frames R L).
    now destruct (relay_chunks json_loads rest).
Qed.

Lemma relay_groups (groups : list (list frame)) :
  forallb relayable (List.concat groups) = true ->
  Forall reads_back (List.concat groups) ->
  relay_chunks json_loads (map chunk_text groups)
  = (map (fun f => sse (forwarded f)) (List.concat groups), None).
Proof.
  induction groups as [|g groups IH]; intros R L; [reflexivity|].
  cbn [map List.concat] in *. rewrite forallb_app in R.
  apply andb_true_iff in R as [Rg Rr].
  apply Forall_app in L as [Lg Lr].
  rewrite (relay_chunk g _ Rg Lg), (IH Rr Lr). cbn [fst snd].
  now rewrite map_app.
Qed.

(** X11. The relay is transparent for well-formed traffic: when the
    agent runtime answers 200 with chunks that each hold whole frames
    with something in them (any number per chunk, also none), the
    browser receives every frame once, in order, [file_info] renamed
    to [file], and then the sentinel. *)
Theorem relay_is_transparent (agent : agent_request -> upstream)
    (message session_id rls_user_id : string) (groups : list (list frame)) :
  forallb relayable (List.concat groups) = true ->
  Forall reads_back (List.concat groups) ->
  agent (mkRequest "POST" "/chat/stream"
           (request_data message session_id rls_user_id))
  = Answered (mkResponse 200 (map chunk_text groups) None) ->
  generate_stream json_loads agent message session_id rls_user_id
  = (map (fun f => sse (forwarded f)) (List.concat groups) ++ [done_event])%list.
Proof.
  intros R L A. unfold generate_stream. rewrite A.
  cbn [status_code chunks read_failure N.eqb Pos.eqb negb].
  now rewrite (relay_groups groups R L).
Qed.

End Transparency.

(** A response in three chunks: two frames, nothing, one frame. *)
Definition sample_groups : list (list frame) :=
  [[Content "Hi"; FileInfo (JObj [("file_name", JStr "chart.png")])];
   [];
   [ErrorInfo (JStr "quota exceeded")]].

(** [json.loads] on the frames of the sample, and on nothing else. *)
Definition sample_reader (s : string) : option json :=
  match find (fun f => String.eqb s (json_dumps (sent f)))
             (List.concat sample_groups) with
  | Some f => Some (sent f)
  | None => None
  end.

Definition sample_agent (_ : agent_request) : upstream :=
  Answered (mkResponse 200 (map chunk_text sample_groups) None).

Lemma relay_is_transparent_witness :
  generate_stream sample_reader sample_agent "hello" "default"
    "00000000-0000-0000-0000-000000000000"
  = [sse (JObj [("content", JStr "Hi")]);
     sse (JObj [("file", JObj [("file_name", JStr "chart.png")])]);
     sse (JObj [("error", JStr "quota exceeded")]);
     done_event].
Proof.
  apply (relay_is_transparent sample_reader sample_agent "hello" "default"
           "00000000-0000-0000-0000-000000000000" sample_groups).
  - reflexivity.
  - repeat constructor.
  - reflexivity.
Defined.

End RelayProtocol.
(* ------------------------------------------------------------------ *)
(** ** The schema provider: table names, relationships, the cache *)

Module ProviderFacts.
Import PyStr PyStrFacts TextFacts RelayProtocol Provider.

Lemma cut_first_some (sep : ascii) (t a b : string) :
  cut_first sep t = Some (a, b) <->
  t = a ++ String sep b /\ lacks sep a = true.
Proof.
  revert a. induction t as [|c t IH]; intro a; cbn [cut_first].
  - split; [discriminate|]. intros [H _]. now destruct a.
  - destruct (Ascii.eqb c sep) eqn:E.
    + apply Ascii.eqb_eq in E. subst c. split.
      * intro H. injection H as <- <-. now split.
      * intros [H L]. destruct a as [|x a]; cbn [append] in H.
        -- now injection H as <-.
        -- injection H as <- _. rewrite lacks_cons, Ascii.eqb_refl in L.
           discriminate L.
    + destruct (cut_first sep t) as [[a' b']|] eqn:C.
      * split.
        -- intro H. injection H as <- <-.
           destruct (proj1 (IH a') eq_refl) as [-> L].
           split; [reflexivity|]. now rewrite lacks_cons, E, L.
        -- intros [H L]. destruct a as [|x a]; cbn [append] in H.
           ++ injection H as -> _. rewrite Ascii.eqb_refl in E. discriminate.
           ++ injection H as <- ->. rewrite lacks_cons in L.
              apply andb_true_iff in L as [_ L].
              assert (G : Some (a', b') = Some (a, b))
                by (apply IH; now split).
              now injection G as -> ->.
      * split; [discriminate|]. intros [H L].
        destruct a as [|x a]; cbn [append] in H.
        -- injection H as -> _. rewrite Ascii.eqb_refl in E. discriminate.
        -- injection H as <- ->. rewrite lacks_cons in L.
           apply andb_true_iff in L as [_ L].
           assert (G : None = Some (a, b)) by (apply IH; now split).
           discriminate G.
Qed.

Lemma cut_first_none (sep : ascii) (t : string) :
  cut_first sep t = None <-> lacks sep t = true.
Proof.
  induction t as [|c t IH]; cbn [cut_first]; [now split|].
  rewrite lacks_cons. destruct (Ascii.eqb c sep); cbn [negb andb].
  - split; discriminate.
  - destruct (cut_first sep t) as [[a b]|].
    + split; [discriminate|]. intro H. apply IH in H. discriminate H.
    + split; [|reflexivity]. intros _. now apply IH.
Qed.

Lemma nonempty_true (s : string) : nonempty s = true <-> s <> "".
Proof. destruct s; split; try discriminate; try reflexivity; congruence. Qed.

Lemma parse_table_name_inr (table schema table_name : string) :
  parse_table_name table = inr (schema, table_name) <->
  table = schema ++ "." ++ table_name
  /\ schema <> "" /\ table_name <> "" /\ lacks "." schema = true.
Proof.
  unfold parse_table_name, split_once. rewrite contains_lacks, negb_involutive.
    destruct (cut_first "." table) as [[a b]|] eqn:C.
    + apply cut_first_some in C as [-> L].
      rewrite lacks_app, lacks_cons, Ascii.eqb_refl. cbn [negb andb].
      rewrite andb_false_r.
      destruct a as [|x a]; cbn [nonempty negb orb].
      * split; [discriminate|]. intros (H & N & _ & L2).
        destruct schema; [congruence|]. cbn [append] in H.
        injection H as <- _. rewrite lacks_cons, Ascii.eqb_refl in L2.
        discriminate L2.
      * destruct b as [|y b]; cbn [nonempty negb orb].
        -- split; [discriminate|]. intros (H & _ & N & L2).
           assert (G : cut_first "." (String x a ++ ".")
                       = Some (schema, table_name))
             by (rewrite H; apply cut_first_some; now split).
           assert (G2 : cut_first "." (String x a ++ ".")
                        = Some (String x a, ""))
             by (apply cut_first_some; now split).
           rewrite G2 in G. injection G as _ <-. congruence.
        -- split.
           ++ intro H. injection H as <- <-.
              repeat split; try discriminate. exact L.
           ++ intros (H & _ & _ & L2).
              assert (G : cut_first "." (String x a ++ String "." (String y b))
                          = Some (schema, table_name))
                by (rewrite H; apply cut_first_some; now split).
              assert (G2 : cut_first "." (String x a ++ String "." (String y b))
                           = Some (String x a, String y b))
                by (apply cut_first_some; now split).
              rewrite G2 in G. now injection G as <- <-.
    + apply cut_first_none in C. rewrite C. cbn [negb].
      split; [discriminate|]. intros (H & _).
      rewrite H, lacks_app in C. cbn [append] in C.
      rewrite lacks_cons, Ascii.eqb_refl in C.
      cbn [negb andb] in C. rewrite andb_false_r in C. discriminate C.
Qed.

(** X12. [_parse_table_name] accepts exactly the names made of a
    non-empty schema without a dot, a dot, and a non-empty rest, and
    gives back these two parts: the cut is at the first dot, so
    [retail.order.items] is the table [order.items] of [retail]; every
    other name raises the [ValueError]. *)
Theorem parse_table_name_spec (table schema table_name : string) :
  (parse_table_name table = inr (schema, table_name) <->
   table = schema ++ "." ++ table_name
   /\ schema <> "" /\ table_name <> "" /\ lacks "." schema = true)
  /\ (forall e, parse_table_name table = inl e -> e = format_error table).
Proof.
  split; [apply parse_table_name_inr|].
  intros e. unfold parse_table_name.
  destruct (negb (contains "." table)); [congruence|].
  destruct (split_once "." table) as [|a [|b [|c r]]]; try congruence.
  destruct (negb (nonempty a) || negb (nonempty b)); congruence.
Qed.

Definition referenced_tables : list string :=
  [CUSTOMERS_TABLE; PRODUCTS_TABLE; STORES_TABLE; CATEGORIES_TABLE;
   PRODUCT_TYPES_TABLE; ORDERS_TABLE].

Lemma referenced_lack_dot (n : string) :
  In n referenced_tables -> lacks "." n = true.
Proof.
  intro H. repeat (destruct H as [<-|H]; [reflexivity|]). contradiction.
Qed.

Lemma parse_undotted (n : string) :
  lacks "." n = true -> parse_table_name n = inl (format_error n).
Proof.
  intro L. unfold parse_table_name. now rewrite contains_lacks, L.
Qed.

Lemma infer_undotted (n : string) :
  lacks "." n = true ->
  infer_relationship_type n
  = if in_dec string_dec n referenced_tables
    then "many_to_one" else "one_to_many".
Proof.
  intro L. unfold infer_relationship_type. now rewrite parse_undotted.
Qed.

(** X13. The relationship type of a foreign key does not depend on
    whether the referenced table is given with its schema: it is
    [many_to_one] exactly for the six tables [customers], [products],
    [stores], [categories], [product_types] and [orders], in this
    spelling, and [one_to_many] for every other name. *)
Theorem relationship_ignores_schema (schema table_name : string) :
  schema <> "" ->
  lacks "." schema = true ->
  lacks "." table_name = true ->
  infer_relationship_type (schema ++ "." ++ table_name)
  = infer_relationship_type table_name
  /\ (infer_relationship_type table_name = "many_to_one"
      <-> In table_name referenced_tables)
  /\ (infer_relationship_type table_name = "one_to_many"
      <-> ~ In table_name referenced_tables).
Proof.
  intros N Ls Ln. rewrite (infer_undotted _ Ln). split.
  - destruct table_name as [|y n].
    + unfold infer_relationship_type.
      destruct (parse_table_name (schema ++ "." ++ ""))
        as [e|[s n]] eqn:P.
      * destruct (in_dec string_dec (schema ++ "." ++ "") _) as [I|_].
        -- apply referenced_lack_dot in I.
           rewrite lacks_app in I. cbn in I. rewrite andb_false_r in I.
           discriminate I.
        -- now destruct (in_dec string_dec "" referenced_tables) as [I|_];
             [repeat (destruct I as [I|I]; [discriminate I|])|].
      * apply parse_table_name_inr in P as (H & _ & Nn & L2).
        exfalso.
        assert (G : cut_first "." (schema ++ "." ++ "") = Some (s, n))
          by (rewrite H at 1; apply cut_first_some; now split).
        assert (G2 : cut_first "." (schema ++ "." ++ "") = Some (schema, ""))
          by (apply cut_first_some; now split).
        rewrite G2 in G. injection G as _ <-. congruence.
    + unfold infer_relationship_type at 1.
      replace (parse_table_name (schema ++ "." ++ String y n))
        with (inr (schema, String y n) : string + string * string).
      * reflexivity.
      * symmetry. apply parse_table_name_inr.
        repeat split; [exact N|discriminate|exact Ls].
  - destruct (in_dec string_dec table_name referenced_tables) as [I|I];
      split; split; intro H; try assumption; try reflexivity;
      try discriminate H; contradiction.
Qed.

Lemma relationship_ignores_schema_witness :
  infer_relationship_type ("retail" ++ "." ++ "product_types")
  = infer_relationship_type "product_types"
  /\ (infer_relationship_type "product_types" = "many_to_one"
      <-> In "product_types" referenced_tables)
  /\ (infer_relationship_type "product_types" = "one_to_many"
      <-> ~ In "product_types" referenced_tables).
Proof.
  apply (relationship_ignores_schema "retail" "product_types");
    [discriminate|reflexivity|reflexivity].
Defined.

(** *** The cache of table metadata *)

Section CacheFacts.

Variable schema_data : Type.
Variable table_exists : string -> string -> string + bool.
Variable describe :
  string -> string -> string -> string -> string + schema_data.
Variable format_schema_metadata_for_ai : schema_data -> string.

#[local] Abbreviation get_table_metadata :=
  (get_table_metadata schema_data describe).
#[local] Abbreviation table_section :=
  (table_section schema_data table_exists describe
     format_schema_metadata_for_ai).
#[local] Abbreviation table_sections :=
  (table_sections schema_data table_exists describe
     format_schema_metadata_for_ai).
#[local] Abbreviation get_table_metadata_from_list :=
  (get_table_metadata_from_list schema_data table_exists describe
     format_schema_metadata_for_ai).

Definition cached (cache : schema_cache schema_data) (table_name : string)
  : bool :=
  match cache_get schema_data table_name cache with
  | Some _ => true
  | None => false
  end.

Lemma cache_get_set (cache : schema_cache schema_data) (k k' : string)
    (v : schema_data) :
  cache_get schema_data k' (cache_set schema_data k v cache)
  = if String.eqb k k' then Some v else cache_get schema_data k' cache.
Proof.
  induction cache as [|[x w] r IH]; cbn [cache_set cache_get].
  - reflexivity.
  - destruct (String.eqb x k) eqn:E; cbn [cache_get].
    + apply String.eqb_eq in E. subst x.
      now destruct (String.eqb k k').
    + rewrite IH. destruct (String.eqb x k') eqn:E'; [|reflexivity].
      apply String.eqb_eq in E'. subst x.
      rewrite String.eqb_sym in E. now rewrite E.
Qed.

Lemma table_section_cached (cache : schema_cache schema_data)
    (u1 u2 table_name : string) :
  cached cache table_name = true ->
  table_section cache u1 table_name = table_section cache u2 table_name
  /\ snd (table_section cache u1 table_name) = cache.
Proof.
  unfold cached, Provider.table_section, Provider.get_table_metadata.
  destruct (cache_get schema_data table_name cache) as [d|];
    [intros _|discriminate].
  destruct (parse_table_name table_name) as [e|[s n]]; [now split|].
  destruct (table_exists s n) as [e|[|]]; now split.
Qed.

Lemma table_sections_cached (cache : schema_cache schema_data)
    (u1 u2 : string) (table_names : list string) :
  forallb (cached cache) table_names = true ->
  table_sections cache u1 table_names = table_sections cache u2 table_names
  /\ snd (table_sections cache u1 table_names) = cache.
Proof.
  induction table_names as [|t rest IH]; intro H; [now split|].
  cbn [forallb] in H. apply andb_true_iff in H as [Ht Hr].
  cbn [Provider.table_sections].
  destruct (table_section_cached cache u1 u2 t Ht) as [E S].
  rewrite <- E.
  destruct (table_section cache u1 t) as [s c']. cbn [snd] in S. subst c'.
  destruct (IH Hr) as [E' S']. rewrite <- E'.
  destruct (table_sections cache u1 rest) as [r c'']. cbn [snd] in *.
  now split.
Qed.

(** X14. The metadata cache is keyed by the table name alone.  A
    table described on the connection of one identity is cached, and
    once every table asked for is cached the answer is the same for
    every identity and the database is not asked again (the cache is
    left as it was): what was read under the first identity is what
    any later identity is shown. *)
Theorem schema_cache_ignores_identity (cache : schema_cache schema_data)
    (table_names : list string) (u1 u2 : string) :
  (forall table_name data cache',
     get_table_metadata cache u1 table_name = (inr data, cache') ->
     cache_get schema_data table_name cache' = Some data)
  /\ (forallb (cached cache) table_names = true ->
      get_table_metadata_from_list cache table_names u1
      = get_table_metadata_from_list cache table_names u2
      /\ snd (get_table_metadata_from_list cache table_names u1) = cache).
Proof.
  split.
  - intros t d c'. unfold Provider.get_table_metadata.
    destruct (cache_get schema_data t cache) as [d0|] eqn:G.
    + intro H. injection H as <- <-. exact G.
    + destruct (parse_table_name t) as [e|[s n]]; [discriminate|].
      destruct (describe u1 t s n) as [e|d1]; [discriminate|].
      intro H. injection H as <- <-.
      now rewrite cache_get_set, String.eqb_refl.
  - intro H. unfold Provider.get_table_metadata_from_list.
    destruct table_names as [|t rest]; [now split|].
    now apply table_sections_cached.
Qed.

End CacheFacts.

(** A database in which the years of [retail.orders] depend on who
    asks, and the cache after the head office has asked. *)
Definition sample_exists (_ _ : string) : string + bool := inr true.

Definition sample_describe (rls_user_id table_name _ _ : string)
  : string + string :=
  inr (table_name ++ " as seen by " ++ rls_user_id).

Definition warm_cache : schema_cache string :=
  snd (get_table_metadata_from_list string sample_exists sample_describe
         (fun d => d) [] ["retail.orders"] "head office").

Lemma schema_cache_ignores_identity_witness :
  get_table_metadata_from_list string sample_exists sample_describe
    (fun d => d) warm_cache ["retail.orders"] "seattle"
  = (nl ++ nl ++ "retail.orders as seen by head office", warm_cache).
Proof.
  destruct (schema_cache_ignores_identity string sample_exists
              sample_describe (fun d => d) warm_cache ["retail.orders"]
              "seattle" "head office") as [_ H].
  destruct (H eq_refl) as [E _]. rewrite E. reflexivity.
Defined.

End ProviderFacts.
(* ------------------------------------------------------------------ *)
(** ** The similarity search: which rows, in which order *)

Module NearestFacts.
Import PyNum NumFacts ListFacts Similarity SimilarityFacts.
Open Scope Q_scope.

Lemma round_half_even_le_succ (q : Q) : (round_half_even q <= Qfloor q + 1)%Z.
Proof.
  unfold round_half_even.
  destruct (q - inject_Z (Qfloor q) ?= 1 # 2); [destruct (Z.even _)| |]; lia.
Qed.

Lemma round_half_even_mono (x y : Q) :
  x <= y -> (round_half_even x <= round_half_even y)%Z.
Proof.
  intro H. pose proof (Qfloor_resp_le _ _ H) as F.
  destruct (Z.eq_dec (Qfloor x) (Qfloor y)) as [E|N].
  - unfold round_half_even. rewrite <- E.
    destruct (Qcompare_spec (x - inject_Z (Qfloor x)) (1 # 2)) as [A|A|A];
      destruct (Qcompare_spec (y - inject_Z (Qfloor x)) (1 # 2)) as [B|B|B];
      try (destruct (Z.even (Qfloor x))); try lia; exfalso; lra.
  - pose proof (round_half_even_le_succ x).
    pose proof (round_half_even_floor y). lia.
Qed.

Lemma round1_mono (x y : Q) : x <= y -> round1 x <= round1 y.
Proof.
  intro H. unfold round1.
  apply Qmult_le_compat_r; [|discriminate].
  rewrite <- Zle_Qle. apply round_half_even_mono. lra.
Qed.

Lemma max0_mono (x y : Q) : x <= y -> max0 x <= max0 y.
Proof.
  intro H. unfold max0.
  destruct (Qlt_le_dec 0 x), (Qlt_le_dec 0 y); lra.
Qed.

Lemma similarity_percent_antitone (d1 d2 : Q) :
  d1 <= d2 -> similarity_percent d2 <= similarity_percent d1.
Proof.
  intro H. unfold similarity_percent.
  apply round1_mono, max0_mono. lra.
Qed.

(** Nearer first. *)
Definition nearer (a b : candidate) : Prop :=
  similarity_distance a <= similarity_distance b.

Lemma insert_by_distance_sorted (c : candidate) (l : list candidate) :
  StronglySorted nearer l -> StronglySorted nearer (insert_by_distance c l).
Proof.
  induction 1 as [|x l S IH F]; cbn [insert_by_distance].
  - repeat constructor.
  - destruct (Qle_bool (similarity_distance c) (similarity_distance x)) eqn:E.
    + apply Qle_bool_iff in E. constructor; [now constructor|].
      constructor; [exact E|].
      eapply Forall_impl; [|exact F]. unfold nearer. intros a Ha. lra.
    + assert (G : similarity_distance x <= similarity_distance c).
      { destruct (Qlt_le_dec (similarity_distance x) (similarity_distance c))
          as [L|L]; [lra|].
        apply Qle_bool_iff in L. congruence. }
      constructor; [exact IH|].
      apply Forall_forall. intros a Ha.
      apply insert_by_distance_In in Ha as [->|Ha]; [exact G|].
      rewrite Forall_forall in F. now apply F.
Qed.

Lemma order_by_distance_sorted (l : list candidate) :
  StronglySorted nearer (order_by_distance l).
Proof.
  induction l as [|c l IH]; cbn [order_by_distance fold_right];
    [constructor|].
  now apply insert_by_distance_sorted.
Qed.

Lemma sorted_firstn (n : nat) (l : list candidate) :
  StronglySorted nearer l -> StronglySorted nearer (firstn n l).
Proof.
  intro S. revert n. induction S as [|x l S IH F]; intros [|n];
    cbn [firstn]; try constructor.
  - apply IH.
  - apply Forall_forall. intros a Ha. apply firstn_In in Ha.
    rewrite Forall_forall in F. now apply F.
Qed.

Lemma sorted_cut (n : nat) (l : list candidate) (x y : candidate) :
  StronglySorted nearer l ->
  In x (firstn n l) -> In y (skipn n l) -> nearer x y.
Proof.
  intro S. revert n. induction S as [|z l S IH F]; intros [|n];
    cbn [firstn skipn]; try contradiction.
  intros [->|Hx] Hy.
  - rewrite Forall_forall in F. apply F.
    rewrite <- (firstn_skipn n l). apply in_or_app. now right.
  - now apply (IH n).
Qed.

Lemma sorted_map (l : list candidate) :
  StronglySorted nearer l ->
  StronglySorted
    (fun a b : candidate * Q =>
       similarity_distance (fst a) <= similarity_distance (fst b)
       /\ snd b <= snd a)
    (map (fun row => (row, similarity_percent (similarity_distance row))) l).
Proof.
  induction 1 as [|x l S IH F]; cbn [map]; constructor; [exact IH|].
  apply Forall_forall. intros a Ha.
  apply in_map_iff in Ha as (c & <- & Hc). cbn [fst snd].
  rewrite Forall_forall in F. specialize (F c Hc). unfold nearer in F.
  split; [exact F|]. now apply similarity_percent_antitone.
Qed.

Lemma returned_rows (table : list candidate) (max_rows : Z) (t : Q) :
  (0 <= max_rows)%Z ->
  returned (search_products_by_similarity table max_rows t)
  = map (fun row => (row, similarity_percent (similarity_distance row)))
        (firstn (Z.to_nat (Z.min max_rows 100))
           (order_by_distance
              (filter (fun c => Qle_bool (similarity_distance c)
                                         (distance_threshold t)) table))).
Proof.
  intro H. unfold search_products_by_similarity, fetch.
  replace (Z.min max_rows 100 <? 0)%Z with false
    by (symmetry; apply Z.ltb_ge; lia).
  now destruct (firstn _ _).
Qed.

(** X15. The rows of a similarity search come nearest first, so their
    appended percents never increase down the list; and the search
    returns the nearest ones: a product within the threshold that is
    left out is at least as far as every returned row, and is left out
    only because [min(max_rows, 100)] rows were already returned. *)
Theorem search_returns_the_nearest (table : list candidate) (max_rows : Z)
    (t : Q) :
  (0 <= max_rows)%Z ->
  let rows := returned (search_products_by_similarity table max_rows t) in
  StronglySorted
    (fun a b : candidate * Q =>
       similarity_distance (fst a) <= similarity_distance (fst b)
       /\ snd b <= snd a) rows
  /\ forall c,
       In c table ->
       similarity_distance c <= distance_threshold t ->
       ~ In c (map fst rows) ->
       List.length rows = Z.to_nat (Z.min max_rows 100)
       /\ forall row, In row rows ->
            similarity_distance (fst row) <= similarity_distance c.
Proof.
  intro H. cbn zeta. rewrite (returned_rows table max_rows t H).
  set (k := Z.to_nat (Z.min max_rows 100)).
  set (l := order_by_distance
              (filter (fun c => Qle_bool (similarity_distance c)
                                         (distance_threshold t)) table)).
  pose proof (order_by_distance_sorted
                (filter (fun c => Qle_bool (similarity_distance c)
                                           (distance_threshold t)) table))
    as S. fold l in S.
  split; [apply sorted_map, sorted_firstn, S|].
  intros c Hin Hd Hout.
  rewrite map_map in Hout. cbn [fst] in Hout. rewrite map_id in Hout.
  assert (Hl : In c l).
  { apply order_by_distance_In, filter_In. split; [exact Hin|].
    now apply Qle_bool_iff. }
  rewrite <- (firstn_skipn k l) in Hl. apply in_app_or in Hl as [Hl|Hl];
    [contradiction|].
  split.
  - rewrite length_map, length_firstn.
    assert (K : (k < List.length l)%nat).
    { destruct (Nat.lt_ge_cases k (List.length l)) as [K|K]; [exact K|].
      rewrite skipn_all2 in Hl by exact K. destruct Hl. }
    lia.
  - intros row Hr. apply in_map_iff in Hr as (x & <- & Hx). cbn [fst].
    exact (sorted_cut k l x c S Hx Hl).
Qed.

Lemma search_returns_the_nearest_witness :
  map (fun r => product_id (fst r))
      (returned (search_products_by_similarity shelf 1 5))
  = [2%Z]
  /\ StronglySorted
       (fun a b : candidate * Q =>
          similarity_distance (fst a) <= similarity_distance (fst b)
          /\ snd b <= snd a)
       (returned (search_products_by_similarity shelf 1 5)).
Proof.
  split; [reflexivity|].
  apply (search_returns_the_nearest shelf 1 5). discriminate.
Defined.

End NearestFacts.
(* ------------------------------------------------------------------ *)
(** ** The database generator: batches, dates, months *)

Module GeneratorFacts.
Import ListFacts Generator.

(** *** Batches *)

Lemma range_from_empty (fuel start stop step : nat) :
  (stop <= start)%nat -> range_from fuel start stop step = [].
Proof.
  intro H. destruct fuel; [reflexivity|]. cbn [range_from].
  now replace (start <? stop)%nat with false
    by (symmetry; apply Nat.ltb_ge; exact H).
Qed.

Lemma slice_rest {A} (data : list A) (i step : nat) :
  (List.length data <= i + step)%nat ->
  slice data i (i + step) = skipn i data.
Proof.
  intro H. unfold slice. apply firstn_all2. rewrite length_skipn. lia.
Qed.

Lemma batches_concat {A} (data : list A) (step : nat) :
  (0 < step)%nat ->
  forall fuel i,
    (List.length data - i <= fuel)%nat ->
    List.concat (map (fun i => slice data i (i + step))
                     (range_from fuel i (List.length data) step))
    = skipn i data.
Proof.
  intros Hs. induction fuel as [|fuel IH]; intros i Hf.
  - cbn [range_from map List.concat]. symmetry. apply skipn_all2. lia.
  - cbn [range_from].
    destruct (i <? List.length data)%nat eqn:E.
    + cbn [map List.concat]. rewrite IH by lia.
      unfold slice. replace (i + step - i)%nat with step by lia.
      rewrite Nat.add_comm, <- skipn_skipn. apply firstn_skipn.
    + apply Nat.ltb_ge in E. cbn [map List.concat].
      symmetry. now apply skipn_all2.
Qed.

Lemma batches_sized {A} (data : list A) (step : nat) :
  (0 < step)%nat ->
  forall fuel i,
    Forall (fun b : list A => (1 <= List.length b <= step)%nat)
      (map (fun i => slice data i (i + step))
           (range_from fuel i (List.length data) step)).
Proof.
  intros Hs. induction fuel as [|fuel IH]; intro i; [constructor|].
  cbn [range_from].
  destruct (i <? List.length data)%nat eqn:E; [|constructor].
  apply Nat.ltb_lt in E. cbn [map]. constructor; [|apply IH].
  unfold slice. rewrite length_firstn, length_skipn. lia.
Qed.

Lemma batches_count (len step : nat) :
  (0 < step)%nat ->
  forall fuel i,
    (len - i <= fuel)%nat ->
    List.length (range_from fuel i len step) = ((len - i + step - 1) / step)%nat.
Proof.
  intros Hs. induction fuel as [|fuel IH]; intros i Hf.
  - cbn [range_from List.length]. symmetry. apply Nat.div_small. lia.
  - cbn [range_from]. destruct (i <? len)%nat eqn:E.
    + apply Nat.ltb_lt in E. cbn [List.length]. rewrite IH by lia.
      destruct (Nat.le_gt_cases len (i + step)) as [L|L].
      * replace (len - (i + step))%nat with 0%nat by lia.
        rewrite (Nat.div_small (0 + step - 1)) by lia.
        apply (Nat.div_unique _ _ 1 (len - i - 1)); lia.
      * replace (len - i + step - 1)%nat
          with ((len - (i + step) + step - 1) + 1 * step)%nat by lia.
        rewrite Nat.div_add by lia. lia.
    + apply Nat.ltb_ge in E. cbn [List.length].
      symmetry. apply Nat.div_small. lia.
Qed.

Lemma batch_insert_concat {A} (data : list A) (batch_size : Z) :
  (0 < batch_size)%Z -> inserted (batch_insert data batch_size) = data.
Proof.
  intro H. unfold batch_insert.
  replace (batch_size =? 0)%Z with false by (symmetry; apply Z.eqb_neq; lia).
  replace (batch_size <? 0)%Z with false by (symmetry; apply Z.ltb_ge; lia).
  cbn [inserted]. now rewrite batches_concat by lia.
Qed.

Lemma batch_insert_batches {A} (data : list A) (batch_size : Z) :
  (0 < batch_size)%Z ->
  exists batches,
    batch_insert data batch_size = inr batches
    /\ List.concat batches = data.
Proof.
  intro H. pose proof (batch_insert_concat data batch_size H) as C.
  unfold batch_insert in *.
  replace (batch_size =? 0)%Z with false in *
    by (symmetry; apply Z.eqb_neq; lia).
  replace (batch_size <? 0)%Z with false in *
    by (symmetry; apply Z.ltb_ge; lia).
  eexists. split; [reflexivity|exact C].
Qed.

(** X16. With a positive batch size [batch_insert] hands every row to
    [executemany] exactly once and in order, in
    [(len + size - 1) // size] batches of one to [size] rows.  With
    size zero it raises before anything is sent, and with a negative
    size it sends nothing and reports no error. *)
Theorem batch_insert_sends_every_row {A} (data : list A) (batch_size : Z) :
  ((0 < batch_size)%Z ->
   exists batches,
     batch_insert data batch_size = inr batches
     /\ List.concat batches = data
     /\ Forall (fun b : list A =>
                  (1 <= Z.of_nat (List.length b) <= batch_size)%Z) batches
     /\ Z.of_nat (List.length batches)
        = ((Z.of_nat (List.length data) + batch_size - 1) / batch_size)%Z)
  /\ (batch_size = 0%Z -> exists e, batch_insert data batch_size = inl e)
  /\ ((batch_size < 0)%Z -> batch_insert data batch_size = inr []).
Proof.
  split; [|split].
  - intro H. unfold batch_insert.
    replace (batch_size =? 0)%Z with false by (symmetry; apply Z.eqb_neq; lia).
    replace (batch_size <? 0)%Z with false by (symmetry; apply Z.ltb_ge; lia).
    assert (Hs : (0 < Z.to_nat batch_size)%nat) by lia.
    eexists. split; [reflexivity|]. split; [|split].
    + now rewrite (batches_concat data _ Hs) by lia.
    + eapply Forall_impl; [|apply (batches_sized data _ Hs)].
      cbn beta. intros b Hb. lia.
    + rewrite length_map, (batches_count _ _ Hs) by lia.
      rewrite Nat.sub_0_r.
      rewrite Nat2Z.inj_div, Nat2Z.inj_sub, Nat2Z.inj_add by lia.
      rewrite Z2Nat.id by lia. reflexivity.
  - intros ->. now eexists.
  - intro H. unfold batch_insert.
    replace (batch_size =? 0)%Z with false by (symmetry; apply Z.eqb_neq; lia).
    now replace (batch_size <? 0)%Z with true by (symmetry; apply Z.ltb_lt; lia).
Qed.

Lemma batch_insert_sends_every_row_witness :
  batch_insert [1; 2; 3; 4; 5; 6; 7]%Z 3 = inr [[1; 2; 3]; [4; 5; 6]; [7]]%Z
  /\ exists batches,
       batch_insert [1; 2; 3; 4; 5; 6; 7]%Z 3 = inr batches
       /\ List.concat batches = [1; 2; 3; 4; 5; 6; 7]%Z.
Proof.
  split; [reflexivity|].
  destruct (proj1 (batch_insert_sends_every_row [1; 2; 3; 4; 5; 6; 7]%Z 3)
              eq_refl) as (batches & E & C & _).
  exists batches. now split.
Defined.

(** *** Dates *)

Lemma max_day_small (year month : Z) :
  (1 <= month <= 12)%Z ->
  max_day year month
  = if (month =? 2)%Z then (if (year mod 4 =? 0)%Z then 29 else 28)%Z
    else nth (Z.to_nat month)
           [-1; 31; 28; 31; 30; 31; 30; 31; 31; 30; 31; 30; 31]%Z 0%Z.
Proof.
  intro H. unfold max_day.
  assert (C : (month = 1 \/ month = 2 \/ month = 3 \/ month = 4
               \/ month = 5 \/ month = 6 \/ month = 7 \/ month = 8
               \/ month = 9 \/ month = 10 \/ month = 11 \/ month = 12)%Z)
    by lia.
  repeat (destruct C as [->|C]); try subst month; cbn;
    try reflexivity; now destruct (year mod 4 =? 0)%Z.
Qed.

(** X17. The last day [insert_orders] may draw for a month is the
    last day of that month in the calendar of [datetime.date] exactly
    when the year is not a century year that is no leap year (1900,
    2100, ...).  So for the years the generator draws from, 2020 to
    2026, every day drawn gives a date that [date()] accepts and every
    day of the month can be drawn. *)
Theorem order_day_is_a_calendar_day (year month : Z) :
  (1 <= month <= 12)%Z ->
  (max_day year month = days_in_month year month
   <-> ~ (month = 2 /\ year mod 100 = 0 /\ year mod 400 <> 0)%Z)
  /\ (In year order_years ->
      max_day year month = days_in_month year month
      /\ forall day, (1 <= day <= max_day year month)%Z ->
           date_ok year month day = true).
Proof.
  intro H.
  assert (E : max_day year month = days_in_month year month
              <-> ~ (month = 2 /\ year mod 100 = 0 /\ year mod 400 <> 0)%Z).
  { rewrite (max_day_small year month H). unfold days_in_month, is_leap.
    destruct (month =? 2)%Z eqn:M.
    - apply Z.eqb_eq in M.
      destruct (year mod 4 =? 0)%Z eqn:Y4; cbn [andb].
      + apply Z.eqb_eq in Y4.
        destruct (year mod 100 =? 0)%Z eqn:Y100; cbn [negb orb].
        * apply Z.eqb_eq in Y100.
          destruct (year mod 400 =? 0)%Z eqn:Y400.
          -- apply Z.eqb_eq in Y400. split; [|reflexivity]. lia.
          -- apply Z.eqb_neq in Y400. subst month.
             split; [intro X; discriminate X|].
             intro N. exfalso. apply N. now repeat split.
        * apply Z.eqb_neq in Y100. split; [|reflexivity]. lia.
      + apply Z.eqb_neq in Y4. subst month. split; [|reflexivity].
        intros _ (_ & Y100 & _). apply Y4.
        rewrite <- (Z.mod_mod_divide year 100 4); [now rewrite Y100|].
        now exists 25%Z.
    - apply Z.eqb_neq in M. cbn [andb]. split; [|reflexivity]. lia. }
  split; [exact E|].
  intro Hy.
  assert (D : max_day year month = days_in_month year month).
  { apply E. intros (_ & Y100 & _).
    repeat (destruct Hy as [<-|Hy]; [discriminate Y100|]). destruct Hy. }
  split; [exact D|].
  intros day Hd. unfold date_ok. rewrite <- D.
  assert (R : (2020 <= year <= 2026)%Z).
  { repeat (destruct Hy as [<-|Hy]; [lia|]). destruct Hy. }
  repeat (apply andb_true_iff; split); apply Z.leb_le; lia.
Qed.

Lemma order_day_is_a_calendar_day_witness :
  (max_day 2024 2 = days_in_month 2024 2
   <-> ~ (2 = 2 /\ 2024 mod 100 = 0 /\ 2024 mod 400 <> 0)%Z)
  /\ (In 2024%Z order_years ->
      max_day 2024 2 = days_in_month 2024 2
      /\ forall day, (1 <= day <= max_day 2024 2)%Z ->
           date_ok 2024 2 day = true).
Proof.
  apply (order_day_is_a_calendar_day 2024 2). lia.
Defined.

(** *** Months *)

(** The distance between two months around the year. *)
Definition months_apart (a b : Z) : Z :=
  Z.min (Z.abs (a - b)) (12 - Z.abs (a - b)).

(** X18. The peak months are taken to agree when they are at most
    three months apart around the year, December being next to
    January; so of the twelve months seven agree with any given one. *)
Theorem month_match_is_a_seven_month_window (a b : Z) :
  (1 <= a <= 12)%Z -> (1 <= b <= 12)%Z ->
  (month_match a b = true <-> (months_apart a b <= 3)%Z)
  /\ List.length (filter (month_match a) [1; 2; 3; 4; 5; 6; 7; 8; 9; 10; 11; 12]%Z)
     = 7%nat.
Proof.
  intros Ha Hb. split.
  - unfold month_match, months_apart. rewrite orb_true_iff, !Z.leb_le. lia.
  - assert (C : (a = 1 \/ a = 2 \/ a = 3 \/ a = 4 \/ a = 5 \/ a = 6 \/ a = 7
                 \/ a = 8 \/ a = 9 \/ a = 10 \/ a = 11 \/ a = 12)%Z) by lia.
    repeat (destruct C as [->|C]); try subst a; reflexivity.
Qed.

Lemma month_match_is_a_seven_month_window_witness :
  (month_match 12 2 = true <-> (months_apart 12 2 <= 3)%Z)
  /\ List.length (filter (month_match 12) [1; 2; 3; 4; 5; 6; 7; 8; 9; 10; 11; 12]%Z)
     = 7%nat.
Proof.
  apply (month_match_is_a_seven_month_window 12 2); lia.
Defined.

End GeneratorFacts.
(* ------------------------------------------------------------------ *)
(** ** The database generator: customers *)

Module CustomerFacts.
Import PyStr PyStrFacts TextFacts RelayProtocol SkuReportFacts.
Import Generator GeneratorFacts Customers.

Lemma uint_lacks_dot (u : Decimal.uint) :
  lacks "." (NilEmpty.string_of_uint u) = true.
Proof.
  induction u; cbn [NilEmpty.string_of_uint]; [reflexivity|..];
    rewrite lacks_cons; exact IHu.
Qed.

Lemma decimal_lacks_dot (n : N) : lacks "." (decimal n) = true.
Proof. apply uint_lacks_dot. Qed.

Lemma app_cancel_l (s a b : string) : s ++ a = s ++ b -> a = b.
Proof.
  induction s as [|c s IH]; cbn [append]; intro H; [exact H|].
  injection H as H. now apply IH.
Qed.

Lemma app_cancel_r (s a b : string) : a ++ s = b ++ s -> a = b.
Proof.
  intro H. apply (f_equal (rev_str "")) in H.
  rewrite !rev_str_app in H. apply app_cancel_l in H.
  apply (f_equal (rev_str "")) in H. now rewrite !rev_str_involutive in H.
Qed.

(** The number in an address determines it. *)
Lemma email_number (a b : string) (i j : N) :
  a ++ "." ++ decimal i ++ "@example.com"
  = b ++ "." ++ decimal j ++ "@example.com" ->
  i = j.
Proof.
  intro H.
  assert (E : forall x n,
             x ++ "." ++ decimal n ++ "@example.com"
             = (x ++ String "." (decimal n)) ++ "@example.com")
    by (intros; cbn [append]; now rewrite app_assoc).
  rewrite !E in H. apply app_cancel_r in H.
  apply (f_equal (fun s => WebApp.last_segment (split_on "." s))) in H.
  unfold split_on in H.
  rewrite !last_segment_split in H by apply decimal_lacks_dot.
  now apply decimal_inj.
Qed.

Lemma customer_email (store_rows : list store_row) (i : N)
    (d : customer_draw) :
  exists a, email (customer store_rows i d)
            = a ++ "." ++ decimal i ++ "@example.com".
Proof.
  exists (lower (replace_char "'" "''" (fake_first_name d)) ++ "."
          ++ lower (replace_char "'" "''" (fake_last_name d))).
  unfold customer. cbn [email]. now rewrite !app_assoc.
Qed.

Lemma customers_data_emails (store_rows : list store_row)
    (draws : list customer_draw) :
  forall i r,
    In r (customers_data store_rows i draws) ->
    exists a n, (i <= n)%N
                /\ email r = a ++ "." ++ decimal n ++ "@example.com".
Proof.
  induction draws as [|d rest IH]; intros i r H; cbn [customers_data] in H;
    [destruct H|].
  destruct H as [<-|H].
  - destruct (customer_email store_rows i d) as (a & E).
    exists a, i. split; [lia|exact E].
  - destruct (IH _ _ H) as (a & n & L & E). exists a, n. split; [lia|exact E].
Qed.

Lemma customers_data_nodup (store_rows : list store_row)
    (draws : list customer_draw) :
  forall i, NoDup (map email (customers_data store_rows i draws)).
Proof.
  induction draws as [|d rest IH]; intro i; cbn [customers_data map];
    constructor; [|apply IH].
  intro H. apply in_map_iff in H as (r & E & Hr).
  destruct (customers_data_emails _ _ _ _ Hr) as (a & n & L & En).
  destruct (customer_email store_rows i d) as (b & Eb).
  rewrite En, Eb in E. apply email_number in E. lia.
Qed.

Lemma primary_store_listed (store_rows : list store_row) (name : string) :
  store_rows <> [] ->
  In (primary_store store_rows name) (map store_id store_rows).
Proof.
  intro N. unfold primary_store.
  destruct (find _ store_rows) as [row|] eqn:F.
  - apply find_some in F as [F _]. now apply in_map.
  - destruct store_rows as [|row rest]; [contradiction|]. now left.
Qed.

Lemma customers_data_stores (store_rows : list store_row)
    (draws : list customer_draw) :
  store_rows <> [] ->
  forall i,
    Forall (fun r => In (primary_store_id r) (map store_id store_rows))
           (customers_data store_rows i draws).
Proof.
  intro N. induction draws as [|d rest IH]; intro i; cbn [customers_data];
    constructor; [|apply IH].
  cbn [customer primary_store_id]. now apply primary_store_listed.
Qed.

Lemma customers_data_length (store_rows : list store_row)
    (draws : list customer_draw) :
  forall i, List.length (customers_data store_rows i draws)
            = List.length draws.
Proof.
  induction draws as [|d rest IH]; intro i; cbn [customers_data List.length];
    [reflexivity|]. now rewrite IH.
Qed.

(** X19. [insert_customers] cannot break the constraints of the
    [customers] table: it sends one row per customer, no two rows with
    the same e-mail address whatever names the faker returns (the
    address ends with the customer's number), and every row with the
    id of a store that was read from the [stores] table, never [None].
    With no store in the table it raises before sending anything. *)
Theorem customers_meet_table_constraints (store_rows : list store_row)
    (draws : list customer_draw) :
  let rows := inserted (insert_customers store_rows draws) in
  (store_rows = [] ->
   exists e, insert_customers store_rows draws = inl e)
  /\ (store_rows <> [] ->
      List.length rows = List.length draws
      /\ NoDup (map email rows)
      /\ Forall (fun r => In (primary_store_id r) (map store_id store_rows))
                rows).
Proof.
  cbn zeta. split.
  - intros ->. now eexists.
  - intro N. unfold insert_customers.
    destruct store_rows as [|row rest] eqn:S; [contradiction|].
    rewrite <- S in *. rewrite batch_insert_concat by lia.
    split; [apply customers_data_length|].
    split; [apply customers_data_nodup|].
    now apply customers_data_stores.
Qed.

Definition two_stores : list store_row :=
  [mkStore 1 "Zava Retail Seattle"; mkStore 2 "Zava Retail Online"].

Definition namesakes : list customer_draw :=
  [mkCustomerDraw "Ann" "O'Neil" 206 555 1234 "Zava Retail Online";
   mkCustomerDraw "Ann" "O'Neil" 425 555 9876 "Zava Retail Tacoma"].

Lemma customers_meet_table_constraints_witness :
  map (fun r => (email r, primary_store_id r))
      (inserted (insert_customers two_stores namesakes))
  = [("ann.o''neil.1@example.com", 2%Z); ("ann.o''neil.2@example.com", 1%Z)]
  /\ NoDup (map email (inserted (insert_customers two_stores namesakes))).
Proof.
  split; [reflexivity|].
  apply (customers_meet_table_constraints two_stores namesakes).
  discriminate.
Defined.

End CustomerFacts.
(* ------------------------------------------------------------------ *)
(** ** The database generator: where a product is filed *)

Module FilingFacts.
Import PyNum ListFacts Seeder SeederFacts.









End FilingFacts.
(* ------------------------------------------------------------------ *)
(** ** The database generator: orders and their items *)

Module OrderFacts.
Import PyNum ListFacts Seeder SeederFacts Generator GeneratorFacts.
Import OrderSeeder.
Open Scope list_scope.

(** [item] names an order of [orders] by its rank, counted from 1 as
    the [SERIAL] key of an empty table counts, and carries the store
    of that order. *)
Definition refers (orders : list order_row) (item : order_item_row) : Prop :=
  (1 <= i_order_id item <= Z.of_nat (List.length orders))%Z
  /\ exists o,
       nth_error orders (Z.to_nat (i_order_id item - 1)) = Some o
       /\ o_store_id o = i_store_id item.

(** Every batch of items names orders sent before it; [orders] were
    sent before [calls]. *)
Fixpoint log_ok (orders : list order_row) (calls : list batch) : Prop :=
  match calls with
  | [] => True
  | OrdersBatch rows :: r => log_ok (orders ++ rows) r
  | ItemsBatch rows :: r => Forall (refers orders) rows /\ log_ok orders r
  end.

Lemma refers_app (orders more : list order_row) (item : order_item_row) :
  refers orders item -> refers (orders ++ more) item.
Proof.
  intros [[L U] (o & N & S)]. split.
  - rewrite length_app. lia.
  - exists o. split; [|exact S].
    rewrite nth_error_app1; [exact N|]. lia.
Qed.

Lemma orders_sent_app (a b : list batch) :
  orders_sent (a ++ b) = orders_sent a ++ orders_sent b.
Proof.
  induction a as [|[rows|rows] a IH]; cbn [app orders_sent];
    [reflexivity| |exact IH].
  now rewrite IH, List.app_assoc.
Qed.

Lemma orders_sent_orders (batches : list (list order_row)) :
  orders_sent (map OrdersBatch batches) = List.concat batches.
Proof.
  induction batches as [|b r IH]; cbn [map orders_sent List.concat];
    [reflexivity|now rewrite IH].
Qed.

Lemma orders_sent_items (batches : list (list order_item_row)) :
  orders_sent (map ItemsBatch batches) = [].
Proof. induction batches as [|b r IH]; [reflexivity|exact IH]. Qed.

Lemma items_sent_app (a b : list batch) :
  items_sent (a ++ b) = items_sent a ++ items_sent b.
Proof.
  induction a as [|[rows|rows] a IH]; cbn [app items_sent];
    [reflexivity|exact IH|].
  now rewrite IH, List.app_assoc.
Qed.

Lemma items_sent_items (batches : list (list order_item_row)) :
  items_sent (map ItemsBatch batches) = List.concat batches.
Proof.
  induction batches as [|b r IH]; cbn [map items_sent List.concat];
    [reflexivity|now rewrite IH].
Qed.

Lemma items_sent_orders (batches : list (list order_row)) :
  items_sent (map OrdersBatch batches) = [].
Proof. induction batches as [|b r IH]; [reflexivity|exact IH]. Qed.

Lemma log_ok_app (a b : list batch) :
  forall orders,
    log_ok orders (a ++ b)
    <-> log_ok orders a /\ log_ok (orders ++ orders_sent a) b.
Proof.
  induction a as [|[rows|rows] a IH]; intro orders;
    cbn [app log_ok orders_sent].
  - rewrite List.app_nil_r. tauto.
  - rewrite IH, List.app_assoc. tauto.
  - rewrite IH. tauto.
Qed.

Lemma log_ok_orders (orders : list order_row)
    (batches : list (list order_row)) :
  log_ok orders (map OrdersBatch batches).
Proof.
  revert orders. induction batches as [|b r IH]; intro orders;
    cbn [map log_ok]; [exact I|apply IH].
Qed.

Lemma log_ok_items (orders : list order_row)
    (batches : list (list order_item_row)) :
  Forall (refers orders) (List.concat batches) ->
  log_ok orders (map ItemsBatch batches).
Proof.
  induction batches as [|b r IH]; cbn [map log_ok List.concat];
    [easy|].
  intro H. apply Forall_app in H as [H1 H2]. split; [exact H1|now apply IH].
Qed.

(** Everything generated so far: sent, or waiting to be sent. *)
Definition all_orders (st : state) : list order_row :=
  orders_sent (sent st) ++ orders_data st.

Definition all_items (st : state) : list order_item_row :=
  items_sent (sent st) ++ order_items_data st.

(** The invariant of the loops. *)
Definition consistent (st : state) : Prop :=
  total_orders st = Z.of_nat (List.length (all_orders st))
  /\ Forall (refers (all_orders st)) (order_items_data st)
  /\ log_ok [] (sent st).

Lemma order_items_frame (seasonal : bool)
    (product_rows : list priced_product) (order_id store_id : Z)
    (category : string) (draws : list item_draw) :
  forall st st' e,
    order_items seasonal product_rows order_id store_id category draws st
    = (st', e) ->
    total_orders st' = total_orders st
    /\ orders_data st' = orders_data st
    /\ sent st' = sent st
    /\ exists new,
         order_items_data st' = order_items_data st ++ new
         /\ Forall (fun item => i_order_id item = order_id
                                /\ i_store_id item = store_id) new
         /\ (e = None -> List.length new = List.length draws).
Proof.
  induction draws as [|d rest IH]; intros st st' e H; cbn [order_items] in H.
  - injection H as <- <-. repeat split. exists [].
    rewrite List.app_nil_r. repeat split; constructor.
  - destruct (order_item seasonal product_rows order_id store_id category d)
      as [err|item] eqn:E.
    + injection H as <- <-. repeat split. exists [].
      rewrite List.app_nil_r. repeat split; [constructor|discriminate].
    + apply IH in H as (T & O & S & new & N & F & L).
      cbn [total_orders orders_data sent order_items_data] in *.
      repeat split; try assumption.
      exists (item :: new). split; [now rewrite N, <- List.app_assoc|].
      split.
      * constructor; [|exact F]. unfold order_item in E.
        destruct (match (if seasonal then _ else None) with
                  | Some _ => _ | None => _ end); [|discriminate E].
        destruct (product_prices product_rows z); [|discriminate E].
        injection E as <-. now split.
      * intro He. cbn [List.length]. now rewrite (L He).
Qed.

Lemma customer_orders_consistent (seasonal : bool)
    (product_rows : list priced_product) (customer_id store_id : Z)
    (draws : list order_draw) :
  forall st st' e,
    consistent st ->
    customer_orders seasonal product_rows customer_id store_id draws st
    = (st', e) ->
    sent st' = sent st /\ (e = None -> consistent st').
Proof.
  induction draws as [|d rest IH]; intros st st' e C H;
    cbn [customer_orders] in H.
  - injection H as <- <-. now split.
  - destruct (date_ok (year d) (month d) (day d)).
    + match type of H with
      | context [order_items _ _ _ _ _ _ ?s] => set (st1 := s) in *
      end.
      destruct (order_items seasonal product_rows (total_orders st + 1)
                  store_id (selected_category d) (item_draws d) st1)
        as [st2 e2] eqn:E.
      apply order_items_frame in E as (T & O & S & new & N & F & _).
      subst st1. cbn [total_orders orders_data sent order_items_data] in *.
      assert (C2 : consistent st2).
      { destruct C as (C1 & C2 & C3). unfold consistent, all_orders in *.
        rewrite T, O, S, N.
        set (order := mkOrder customer_id store_id (year d, month d, day d)).
        rewrite List.app_assoc.
        split; [rewrite length_app; cbn [List.length]; lia|].
        split; [|exact C3].
        apply Forall_app. split.
        - eapply Forall_impl; [|exact C2]. intros item R.
          now apply refers_app.
        - eapply Forall_impl; [|exact F]. cbn beta. intros item [I1 I2].
          split.
          + rewrite I1, length_app. cbn [List.length]. lia.
          + exists order. split; [|now rewrite I2].
            rewrite I1, C1.
            replace (Z.to_nat (Z.of_nat _ + 1 - 1))
              with (List.length (orders_sent (sent st) ++ orders_data st))
              by lia.
            rewrite nth_error_app2, Nat.sub_diag by lia. reflexivity. }
      destruct e2 as [err|].
      * injection H as <- <-. split; [exact S|discriminate].
      * apply (IH _ _ _ C2) in H as [H1 H2]. split; [|exact H2].
        now rewrite H1, S.
    + injection H as <- <-. split; [reflexivity|discriminate].
Qed.

Lemma send_orders (data : list order_row) (calls : list batch) :
  exists batches,
    send OrdersBatch data calls = calls ++ map OrdersBatch batches
    /\ List.concat batches = data.
Proof.
  unfold send.
  destruct (batch_insert_batches data 1000 eq_refl) as (b & -> & C).
  now exists b.
Qed.

Lemma send_items (data : list order_item_row) (calls : list batch) :
  exists batches,
    send ItemsBatch data calls = calls ++ map ItemsBatch batches
    /\ List.concat batches = data.
Proof.
  unfold send.
  destruct (batch_insert_batches data 1000 eq_refl) as (b & -> & C).
  now exists b.
Qed.

(** After a flush everything generated has been sent, in an order the
    foreign key of the items accepts. *)
Lemma flush_sends_all (reset : bool) (st : state) :
  consistent st ->
  log_ok [] (sent (flush reset st))
  /\ orders_sent (sent (flush reset st)) = all_orders st
  /\ items_sent (sent (flush reset st)) = all_items st
  /\ total_orders (flush reset st) = total_orders st
  /\ (reset = true ->
      orders_data (flush reset st) = []
      /\ order_items_data (flush reset st) = []).
Proof.
  intros (C1 & C2 & C3). unfold flush, all_orders, all_items in *.
  destruct (orders_data st) as [|o os] eqn:EO.
  - rewrite List.app_nil_r in *.
    destruct (order_items_data st) as [|i is_] eqn:EI.
    + rewrite EO, EI, !List.app_nil_r.
      split; [exact C3|]. now repeat split.
    + cbn [sent total_orders orders_data order_items_data].
      destruct (send_items (i :: is_) (sent st)) as (b & -> & Cb).
      rewrite orders_sent_app, orders_sent_items, List.app_nil_r.
      rewrite items_sent_app, items_sent_items, Cb.
      split.
      { apply log_ok_app. split; [exact C3|]. cbn [app].
        apply log_ok_items. now rewrite Cb. }
      split; [reflexivity|]. split; [reflexivity|].
      split; [reflexivity|]. intros ->. now split.
  - cbn [sent total_orders orders_data order_items_data].
    destruct (send_orders (o :: os) (sent st)) as (bo & -> & Co).
    destruct (order_items_data st) as [|i is_] eqn:EI.
    + cbn [sent total_orders orders_data order_items_data].
      rewrite orders_sent_app, orders_sent_orders, Co.
      rewrite items_sent_app, items_sent_orders, !List.app_nil_r.
      split.
      { apply log_ok_app. split; [exact C3|]. apply log_ok_orders. }
      split; [reflexivity|]. split; [reflexivity|].
      split; [reflexivity|]. intros ->. now split.
    + cbn [sent total_orders orders_data order_items_data].
      destruct (send_items (i :: is_) (sent st ++ map OrdersBatch bo))
        as (bi & -> & Ci).
      rewrite !orders_sent_app, orders_sent_orders, orders_sent_items, Co.
      rewrite !items_sent_app, items_sent_orders, items_sent_items, Ci.
      rewrite !List.app_nil_r.
      split.
      { apply log_ok_app. split.
        - apply log_ok_app. split; [exact C3|]. apply log_ok_orders.
        - cbn [app]. rewrite orders_sent_app, orders_sent_orders, Co.
          apply log_ok_items. now rewrite Ci. }
      split; [reflexivity|]. split; [reflexivity|].
      split; [reflexivity|]. intros ->. now split.
Qed.

Lemma flush_consistent (st : state) :
  consistent st -> consistent (flush true st).
Proof.
  intro C. pose proof C as (C1 & _ & _).
  destruct (flush_sends_all true st C) as (L & O & _ & T & R).
  destruct (R eq_refl) as [R1 R2].
  unfold consistent, all_orders. rewrite R1, R2, O, T, List.app_nil_r.
  split; [exact C1|]. split; [constructor|exact L].
Qed.

Lemma customers_loop_consistent (stores : store_config) (table : store_table)
    (seasonal : bool) (product_rows : list priced_product)
    (draws : list customer_draw) :
  forall customer_id st st' e,
    consistent st ->
    customers_loop stores table seasonal product_rows customer_id draws st
    = (st', e) ->
    log_ok [] (sent st') /\ (e = None -> consistent st').
Proof.
  induction draws as [|d rest IH]; intros cid st st' e C H;
    cbn [customers_loop] in H.
  - injection H as <- <-. split; [apply C|now intros _].
  - destruct (num_orders _ _) as [n|].
    + destruct (customer_orders seasonal product_rows cid _ _ st)
        as [st1 [err|]] eqn:E;
        apply (customer_orders_consistent _ _ _ _ _ _ _ _ C) in E as [S K].
      * injection H as <- <-. rewrite S. split; [apply C|discriminate].
      * specialize (K eq_refl).
        apply IH in H; [exact H|].
        destruct (cid mod 1000 =? 0)%Z; [now apply flush_consistent|exact K].
    + injection H as <- <-. split; [apply C|discriminate].
Qed.

Lemma initial_consistent : consistent (mkState 0 [] [] []).
Proof. repeat split; constructor. Qed.

Lemma insert_orders_log_ok (stores : store_config) (table : store_table)
    (seasonal : bool) (product_rows : list priced_product)
    (draws : list customer_draw) :
  log_ok [] (fst (insert_orders stores table seasonal product_rows draws)).
Proof.
  unfold insert_orders.
  destruct (customers_loop stores table seasonal product_rows 1 draws _)
    as [st [err|]] eqn:E;
    apply (customers_loop_consistent _ _ _ _ _ _ _ _ _ initial_consistent)
      in E as [L K]; cbn [fst].
  - exact L.
  - now apply flush_sends_all, K.
Qed.

(** X21. Whatever is drawn, and also when an exception ends the run
    half way, every batch of order items is sent after the orders its
    items belong to: an item's [order_id] is the rank of an order
    already sent (the key a [SERIAL] column of an empty table gives
    it), and the item carries the store of that order. *)
Theorem items_follow_their_orders (stores : store_config)
    (table : store_table) (seasonal : bool)
    (product_rows : list priced_product) (draws : list customer_draw)
    (before after : list batch) (items : list order_item_row) :
  fst (insert_orders stores table seasonal product_rows draws)
  = before ++ ItemsBatch items :: after ->
  Forall (fun item =>
            (1 <= i_order_id item
             <= Z.of_nat (List.length (orders_sent before)))%Z
            /\ exists o,
                 nth_error (orders_sent before)
                           (Z.to_nat (i_order_id item - 1)) = Some o
                 /\ o_store_id o = i_store_id item)
         items.
Proof.
  intro H.
  pose proof (insert_orders_log_ok stores table seasonal product_rows draws)
    as L.
  rewrite H in L. apply log_ok_app in L as [_ L]. cbn [app log_ok] in L.
  exact (proj1 L).
Qed.

(** *** A run that is not interrupted *)

Lemma choice_some {A} (seq : list A) (r : nat) :
  seq <> [] -> exists x, choice seq r = Some x /\ In x seq.
Proof.
  intro N. unfold choice. destruct seq as [|a l] eqn:E; [contradiction|].
  rewrite <- E in *.
  destruct (nth_error seq (r mod List.length seq)) as [x|] eqn:G.
  - exists x. split; [reflexivity|]. now apply nth_error_In in G.
  - apply nth_error_None in G.
    assert (r mod List.length seq < List.length seq)%nat
      by (apply Nat.mod_upper_bound; subst seq; discriminate).
    lia.
Qed.

Lemma dict_keys_In (rows : list priced_product) :
  forall seen id,
    In id (dict_keys seen rows) -> In id (map p_product_id rows).
Proof.
  induction rows as [|row r IH]; intros seen id H; cbn [dict_keys] in H;
    [destruct H|].
  cbn [map]. destruct (existsb _ seen).
  - right. now apply (IH seen).
  - destruct H as [<-|H]; [now left|]. right. now apply (IH _ _ H).
Qed.

Lemma available_nonempty (rows : list priced_product) :
  rows <> [] -> available_product_ids rows <> [].
Proof. destruct rows as [|row r]; [contradiction|discriminate]. Qed.

Lemma category_products_some (rows : list priced_product) (name : string)
    (ids : list Z) :
  category_products rows name = Some ids ->
  ids <> [] /\ forall id, In id ids -> In id (map p_product_id rows).
Proof.
  unfold category_products.
  destruct (filter _ rows) as [|row l] eqn:F; [discriminate|].
  intro H. injection H as <-. split; [discriminate|].
  intros id Hid. change (In id (map p_product_id (row :: l))) in Hid.
  apply in_map_iff in Hid as (x & <- & Hx).
  rewrite <- F in Hx. apply filter_In in Hx as [Hx _]. now apply in_map.
Qed.

Lemma product_prices_some (rows : list priced_product) (id : Z) :
  In id (map p_product_id rows) ->
  exists price, product_prices rows id = Some price.
Proof.
  unfold product_prices.
  induction rows as [|row r IH]; cbn [map dict_of_rows]; [intros []|].
  intros [<-|H].
  - destruct (dict_of_rows Z.eqb _ (p_product_id row)) as [v|];
      [now exists v|].
    rewrite Z.eqb_refl. now eexists.
  - destruct (IH H) as (v & ->). now exists v.
Qed.

(** [item] is an item for a product of [rows]. *)
Definition for_product (rows : list priced_product) (item : order_item_row)
  : Prop :=
  In (i_product_id item) (map p_product_id rows).

Lemma order_item_runs (seasonal : bool) (rows : list priced_product)
    (order_id store_id : Z) (category : string) (d : item_draw) :
  rows <> [] ->
  exists item,
    order_item seasonal rows order_id store_id category d = inr item
    /\ for_product rows item.
Proof.
  intro N. unfold order_item.
  assert (A : forall r, exists x,
             choice (available_product_ids rows) r = Some x
             /\ In x (map p_product_id rows)).
  { intro r.
    destruct (choice_some (available_product_ids rows) r
                (available_nonempty rows N)) as (x & E & Hx).
    exists x. split; [exact E|]. now apply (dict_keys_In rows []). }
  assert (C : exists x,
             match (if seasonal then category_products rows category
                    else None) with
             | Some ids =>
                 if from_category d then choice ids (pick d)
                 else choice (available_product_ids rows) (pick d)
             | None => choice (available_product_ids rows) (pick d)
             end = Some x
             /\ In x (map p_product_id rows)).
  { destruct (if seasonal then category_products rows category else None)
      as [ids|] eqn:E; [|apply A].
    destruct (from_category d); [|apply A].
    destruct seasonal; [|discriminate E].
    apply category_products_some in E as [E1 E2].
    destruct (choice_some ids (pick d) E1) as (x & Ex & Hx).
    exists x. split; [exact Ex|]. now apply E2. }
  destruct C as (x & -> & Hx).
  destruct (product_prices_some rows x Hx) as (price & ->).
  eexists. split; [reflexivity|exact Hx].
Qed.

Lemma order_items_run (seasonal : bool) (rows : list priced_product)
    (order_id store_id : Z) (category : string) (draws : list item_draw) :
  rows <> [] ->
  forall st,
    Forall (for_product rows) (order_items_data st) ->
    exists st',
      order_items seasonal rows order_id store_id category draws st
      = (st', None)
      /\ Forall (for_product rows) (order_items_data st').
Proof.
  intro N. induction draws as [|d rest IH]; intros st F; cbn [order_items].
  - now exists st.
  - destruct (order_item_runs seasonal rows order_id store_id category d N)
      as (item & -> & K).
    apply IH. cbn [order_items_data]. apply Forall_app. split; [exact F|].
    now constructor.
Qed.

Definition header_of (o : order_row) : order_header :=
  mkHeader (o_customer_id o) (o_store_id o).

Lemma customer_orders_run (seasonal : bool) (rows : list priced_product)
    (customer_id store_id : Z) (draws : list order_draw) :
  rows <> [] ->
  Forall (fun d => date_ok (year d) (month d) (day d) = true) draws ->
  forall st,
    Forall (for_product rows) (order_items_data st) ->
    exists st',
      customer_orders seasonal rows customer_id store_id draws st
      = (st', None)
      /\ Forall (for_product rows) (order_items_data st')
      /\ map header_of (orders_data st')
         = map header_of (orders_data st)
           ++ repeat (mkHeader customer_id store_id) (List.length draws).
Proof.
  intros N D. induction D as [|d rest Hd D IH]; intros st F;
    cbn [customer_orders].
  - exists st. cbn [List.length repeat]. now rewrite List.app_nil_r.
  - rewrite Hd.
    match goal with
    | |- context [order_items _ _ _ _ _ _ ?s] => set (st1 := s)
    end.
    destruct (order_items_run seasonal rows (total_orders st + 1) store_id
                (selected_category d) (item_draws d) N st1 F)
      as (st2 & E & F2).
    rewrite E.
    apply order_items_frame in E as (_ & O & _).
    destruct (IH st2 F2) as (st3 & E3 & F3 & H3).
    exists st3. split; [exact E3|]. split; [exact F3|].
    rewrite H3, O. subst st1. cbn [orders_data List.length repeat].
    rewrite map_app, <- List.app_assoc. reflexivity.
Qed.

Lemma customers_loop_run (stores : store_config) (table : store_table)
    (seasonal : bool) (rows : list priced_product)
    (draws : list customer_draw) :
  rows <> [] ->
  (forall d k, In d draws ->
     date_ok (year (order_draws d k)) (month (order_draws d k))
             (day (order_draws d k)) = true) ->
  forall customer_id headers st,
    Seeder.insert_orders stores table customer_id (map store_draw draws)
    = Some headers ->
    consistent st ->
    Forall (for_product rows) (all_items st) ->
    exists st',
      customers_loop stores table seasonal rows customer_id draws st
      = (st', None)
      /\ consistent st'
      /\ Forall (for_product rows) (all_items st')
      /\ map header_of (all_orders st')
         = map header_of (all_orders st) ++ headers.
Proof.
  intros N. induction draws as [|d rest IH]; intros D cid headers st H C F;
    cbn [customers_loop map Seeder.insert_orders] in *.
  - injection H as <-. exists st. now rewrite List.app_nil_r.
  - destruct (num_orders _ _) as [n|]; [|discriminate H].
    destruct (Seeder.insert_orders stores table (cid + 1)
                (map store_draw rest)) as [later|] eqn:L; [|discriminate H].
    injection H as <-.
    assert (Dd : Forall (fun o => date_ok (year o) (month o) (day o) = true)
                   (map (order_draws d) (seq 0 (Z.to_nat n)))).
    { apply Forall_forall. intros o Ho.
      apply in_map_iff in Ho as (k & <- & _). apply D. now left. }
    unfold all_items in F. apply Forall_app in F as [Fs Fp].
    destruct (customer_orders_run seasonal rows cid
                (get_store_id_by_name table (preferred_store (store_draw d)))
                _ N Dd st Fp) as (st1 & E & F1 & H1).
    rewrite E.
    apply (customer_orders_consistent _ _ _ _ _ _ _ _ C) in E as [S K].
    specialize (K eq_refl).
    rewrite length_map, length_seq in H1.
    set (st2 := if (cid mod 1000 =? 0)%Z then flush true st1 else st1).
    assert (P : consistent st2
                /\ Forall (for_product rows) (all_items st2)
                /\ map header_of (all_orders st2)
                   = map header_of (all_orders st)
                     ++ repeat (mkHeader cid
                                  (get_store_id_by_name table
                                     (preferred_store (store_draw d))))
                               (Z.to_nat n)).
    { assert (A1 : Forall (for_product rows) (all_items st1))
        by (unfold all_items; rewrite S; apply Forall_app; now split).
      assert (A2 : map header_of (all_orders st1)
                   = map header_of (all_orders st)
                     ++ repeat (mkHeader cid
                                  (get_store_id_by_name table
                                     (preferred_store (store_draw d))))
                               (Z.to_nat n))
        by (unfold all_orders; rewrite S, !map_app, H1;
            now rewrite List.app_assoc).
      subst st2. destruct (cid mod 1000 =? 0)%Z;
        [|split; [exact K|]; split; [exact A1|exact A2]].
      destruct (flush_sends_all true st1 K) as (_ & O & I & _ & R).
      destruct (R eq_refl) as [R1 R2].
      split; [now apply flush_consistent|].
      unfold all_items, all_orders in *.
      rewrite R1, R2, O, I, !List.app_nil_r. now split. }
    destruct P as (P1 & P2 & P3).
    destruct (IH (fun d' k Hd => D d' k (or_intror Hd)) (cid + 1)%Z later
                st2 L P1 P2) as (st' & E' & C' & F' & H').
    exists st'. split; [exact E'|]. split; [exact C'|].
    split; [exact F'|]. now rewrite H', P3, List.app_assoc.
Qed.

(** X22. When the product table is not empty, the dates drawn exist
    and the numbers of orders can be computed, [insert_orders] ends
    without an exception and loses nothing in its flushes: the orders
    sent are, in order, one row per order of each customer for the
    customer's store, as many as [max(1, int(base_orders * frequency))]
    gives, and every item sent is for a product of the table. *)
Theorem every_order_is_sent (stores : store_config) (table : store_table)
    (seasonal : bool) (product_rows : list priced_product)
    (draws : list customer_draw) (headers : list order_header) :
  product_rows <> [] ->
  (forall d k, In d draws ->
     date_ok (year (order_draws d k)) (month (order_draws d k))
             (day (order_draws d k)) = true) ->
  Seeder.insert_orders stores table 1 (map store_draw draws) = Some headers ->
  exists calls,
    insert_orders stores table seasonal product_rows draws = (calls, None)
    /\ map header_of (orders_sent calls) = headers
    /\ Forall (for_product product_rows) (items_sent calls).
Proof.
  intros N D H.
  destruct (customers_loop_run stores table seasonal product_rows draws N D
              1%Z headers (mkState 0 [] [] []) H initial_consistent
              ltac:(constructor)) as (st & E & C & F & G).
  unfold insert_orders. rewrite E. eexists. split; [reflexivity|].
  destruct (flush_sends_all false st C) as (_ & O & I & _).
  rewrite O, I. split; [exact G|exact F].
Qed.

(** A run over 1001 customers of the online store, each with one order
    of one item on 29 February 2024: the batches of the first thousand
    customers are sent when the thousandth is done, the last
    customer's at the end. *)
Definition hammer : list priced_product := [mkPriced 1 29.84 "HAND TOOLS"].

Definition one_order : customer_draw :=
  mkCustomerDraw (mkDraw "Zava Retail Online" 1)
    (fun _ => mkOrderDraw 2024 2 29 "HAND TOOLS"
                [mkItemDraw true 0 2 1.1 true 10]).

Definition first_calls : list batch :=
  firstn 3 (fst (insert_orders online_only online_table true hammer
                   (repeat one_order 1001))).

Definition last_item : order_item_row :=
  let unit_price := PrimFloat.mul 29.84 1.1 in
  let gross := PrimFloat.mul unit_price 2 in
  let discount_amount := PrimFloat.div (PrimFloat.mul gross 10) 100 in
  mkItem 1001 8 1 2 unit_price 10 discount_amount
         (PrimFloat.sub gross discount_amount).

Lemma items_follow_their_orders_witness :
  fst (insert_orders online_only online_table true hammer
         (repeat one_order 1001))
  = first_calls ++ ItemsBatch [last_item] :: []
  /\ List.length first_calls = 3%nat
  /\ exists o,
       nth_error (orders_sent first_calls) (Z.to_nat (1001 - 1)) = Some o
       /\ o_store_id o = 8%Z.
Proof.
  assert (E : fst (insert_orders online_only online_table true hammer
                     (repeat one_order 1001))
              = first_calls ++ ItemsBatch [last_item] :: [])
    by (vm_compute; reflexivity).
  split; [exact E|]. split; [vm_compute; reflexivity|].
  pose proof (items_follow_their_orders online_only online_table true hammer
                (repeat one_order 1001) first_calls [] [last_item] E) as F.
  apply Forall_inv in F. exact (proj2 F).
Defined.

Lemma one_order_dates (d : customer_draw) (k : nat) :
  In d (repeat one_order 1001) ->
  date_ok (year (order_draws d k)) (month (order_draws d k))
          (day (order_draws d k)) = true.
Proof. intro H. apply repeat_spec in H. now subst d. Qed.

Lemma every_order_is_sent_witness :
  exists calls,
    insert_orders online_only online_table true hammer
      (repeat one_order 1001) = (calls, None)
    /\ List.length (orders_sent calls) = 1001%nat
    /\ Forall (for_product hammer) (items_sent calls).
Proof.
  assert (H : Seeder.insert_orders online_only online_table 1
                (map store_draw (repeat one_order 1001))
              = Some (repeat (mkHeader 1 8) 0
                      ++ map (fun k => mkHeader (Z.of_nat k) 8)
                             (seq 1 1001)))
    by (vm_compute; reflexivity).
  destruct (every_order_is_sent online_only online_table true hammer
              (repeat one_order 1001) _
              ltac:(discriminate)
              one_order_dates
              H) as (calls & E & G & F).
  exists calls. split; [exact E|]. split; [|exact F].
  rewrite <- (length_map header_of), G. cbn [repeat app].
  now rewrite length_map, length_seq.
Defined.

End OrderFacts.
(* ------------------------------------------------------------------ *)
(** ** Configuration: the endpoints of the connection string *)

Module ConfigFacts.
Import PyStr PyStrFacts TextFacts RelayProtocol Config.
Open Scope nat_scope.
Open Scope string_scope.

Lemma span_value_length (s : string) :
  String.length (fst (span_value s)) + String.length (snd (span_value s))
  = String.length s.
Proof.
  induction s as [|c s IH]; [reflexivity|]. cbn [span_value].
  destruct (Ascii.eqb c ";"); [reflexivity|].
  destruct (span_value s) as [v rest]. cbn [fst snd String.length] in *. lia.
Qed.

Lemma cut_last_slash_length (s a b : string) :
  cut_last_slash s = Some (a, b) ->
  String.length s = S (String.length a + String.length b).
Proof.
  revert a b. induction s as [|c s IH]; intros a b H;
    cbn [cut_last_slash] in H; [discriminate|].
  destruct (cut_last_slash s) as [[a' b']|].
  - injection H as <- <-. cbn [String.length]. now rewrite (IH a' b').
  - destruct (Ascii.eqb c "/"); [|discriminate].
    injection H as <- <-. reflexivity.
Qed.

Lemma drop_length_le (n : nat) (s : string) :
  String.length (drop n s) <= String.length s.
Proof. rewrite drop_length. lia. Qed.

Lemma match_endpoint_shorter (s repl rest : string) :
  match_endpoint s = Some (repl, rest) ->
  String.length rest < String.length s.
Proof.
  unfold match_endpoint, match_key.
  assert (K : forall key n,
             match drop n s with
             | String "=" r =>
                 let (value, rest0) := span_value r in
                 match cut_last_slash value with
                 | Some (String c g, w) =>
                     Some (key ++ "=" ++ String c g, w ++ rest0)
                 | _ => None
                 end
             | _ => None
             end = Some (repl, rest) ->
             String.length rest < String.length s).
  { intros key n H. pose proof (drop_length_le n s) as L.
    destruct (drop n s) as [|e r]; [discriminate|].
    destruct (Ascii.eqb e "=") eqn:E;
      [apply Ascii.eqb_eq in E; subst e
      |destruct e as [[] [] [] [] [] [] [] []]; try discriminate H;
       discriminate E].
    pose proof (span_value_length r) as SL.
    destruct (span_value r) as [value rest0]. cbn [fst snd] in SL.
    destruct (cut_last_slash value) as [[[|c g] w]|] eqn:C;
      try discriminate H.
    injection H as <- <-. apply cut_last_slash_length in C.
    rewrite length_app. cbn [String.length] in *. lia. }
  destruct (startswith "IngestionEndpoint" s); [apply (K _ 17)|].
  destruct (startswith "LiveEndpoint" s); [apply (K _ 12)|discriminate].
Qed.

(** Enough fuel is the length of the text. *)
Lemma sub_steps_enough (k : nat) :
  forall k' s,
    String.length s <= k -> String.length s <= k' ->
    sub_steps k s = sub_steps k' s.
Proof.
  induction k as [|k IH]; intros k' s H H'.
  - destruct s; [|cbn in H; lia]. now destruct k'.
  - destruct s as [|c r]; [now destruct k'|].
    destruct k' as [|k']; [cbn in H'; lia|].
    cbn [sub_steps].
    destruct (match_endpoint (String c r)) as [[repl rest]|] eqn:M.
    + apply match_endpoint_shorter in M. f_equal.
      apply IH; cbn [String.length] in *; lia.
    + f_equal. apply IH; cbn [String.length] in *; lia.
Qed.

Lemma sub_fuel (k : nat) (s : string) :
  String.length s <= k -> sub_steps k s = sub s.
Proof. intro H. unfold sub. now apply sub_steps_enough. Qed.

(** What may follow the value of an endpoint: nothing, or the [;]
    before the next setting. *)
Definition ends_value (tail : string) : Prop :=
  tail = "" \/ exists t, tail = String ";" t.

Lemma span_value_app (v tail : string) :
  lacks ";" v = true -> ends_value tail -> span_value (v ++ tail) = (v, tail).
Proof.
  intros L T. induction v as [|c v IH]; cbn [append].
  - destruct T as [->|(t & ->)]; [reflexivity|].
    cbn [span_value]. now rewrite Ascii.eqb_refl.
  - rewrite lacks_cons in L. apply andb_true_iff in L as [L1 L2].
    apply negb_true_iff in L1. cbn [span_value]. now rewrite L1, (IH L2).
Qed.

Lemma span_value_prefix (a x : string) :
  lacks ";" a = true ->
  fst (span_value (a ++ x)) = a ++ fst (span_value x).
Proof.
  intro L. induction a as [|c a IH]; [reflexivity|].
  rewrite lacks_cons in L. apply andb_true_iff in L as [L1 L2].
  apply negb_true_iff in L1. cbn [append span_value]. rewrite L1.
  specialize (IH L2). destruct (span_value (a ++ x)). cbn [fst] in *.
  now rewrite IH.
Qed.

Lemma cut_last_slash_none (v : string) :
  lacks "/" v = true -> cut_last_slash v = None.
Proof.
  induction v as [|c v IH]; [reflexivity|]. rewrite lacks_cons.
  intro L. apply andb_true_iff in L as [L1 L2]. apply negb_true_iff in L1.
  cbn [cut_last_slash]. now rewrite (IH L2), L1.
Qed.

Lemma cut_last_slash_app (g w : string) :
  lacks "/" w = true -> cut_last_slash (g ++ String "/" w) = Some (g, w).
Proof.
  intro L. induction g as [|c g IH]; cbn [append cut_last_slash].
  - now rewrite (cut_last_slash_none w L).
  - now rewrite IH.
Qed.

Lemma prefix_drop (p s : string) :
  String.prefix p s = true -> s = p ++ drop (String.length p) s.
Proof.
  revert s. induction p as [|a p IH]; intros s H; [reflexivity|].
  destruct s as [|b s]; [discriminate H|]. cbn [String.prefix] in H.
  destruct (ascii_dec a b) as [->|]; [|discriminate H].
  cbn [String.length drop append]. now rewrite <- (IH s H).
Qed.

Lemma match_endpoint_slash (s repl rest : string) :
  match_endpoint s = Some (repl, rest) ->
  lacks "/" (fst (span_value s)) = false.
Proof.
  unfold match_endpoint, match_key.
  assert (K : forall key,
             lacks ";" key = true ->
             s = key ++ drop (String.length key) s ->
             match drop (String.length key) s with
             | String "=" r =>
                 let (value, rest0) := span_value r in
                 match cut_last_slash value with
                 | Some (String c g, w) =>
                     Some (key ++ "=" ++ String c g, w ++ rest0)
                 | _ => None
                 end
             | _ => None
             end = Some (repl, rest) ->
             lacks "/" (fst (span_value s)) = false).
  { intros key Lk E H. rewrite E.
    destruct (drop (String.length key) s) as [|e r]; [discriminate|].
    destruct (Ascii.eqb e "=") eqn:Ee;
      [apply Ascii.eqb_eq in Ee; subst e
      |destruct e as [[] [] [] [] [] [] [] []]; try discriminate H;
       discriminate Ee].
    rewrite (span_value_prefix key _ Lk).
    change (String "=" r) with ("=" ++ r).
    rewrite (span_value_prefix "=" r eq_refl), !lacks_app.
    destruct (span_value r) as [value rest0]. cbn [fst].
    destruct (lacks "/" value) eqn:Lv; [|now rewrite !andb_false_r].
    now rewrite (cut_last_slash_none value Lv) in H. }
  destruct (startswith "IngestionEndpoint" s) eqn:P1.
  - apply (K "IngestionEndpoint" eq_refl). now apply prefix_drop.
  - destruct (startswith "LiveEndpoint" s) eqn:P2; [|discriminate].
    apply (K "LiveEndpoint" eq_refl). now apply prefix_drop.
Qed.

Lemma sub_steps_plain (w tail : string) :
  lacks "/" w = true -> lacks ";" w = true -> ends_value tail ->
  forall k,
    String.length (w ++ tail) <= k ->
    sub_steps k (w ++ tail) = w ++ sub tail.
Proof.
  intros Ls Lc T. induction w as [|c w IH]; intros k H.
  - now apply sub_fuel.
  - destruct k as [|k]; [cbn in H; lia|].
    cbn [append sub_steps].
    destruct (match_endpoint (String c (w ++ tail))) as [[repl rest]|] eqn:M.
    + apply match_endpoint_slash in M.
      change (String c (w ++ tail)) with (String c w ++ tail) in M.
      rewrite (span_value_app _ _ Lc T) in M. cbn [fst] in M. congruence.
    + rewrite lacks_cons in Ls, Lc.
      apply andb_true_iff in Ls as [_ Ls]. apply andb_true_iff in Lc as [_ Lc].
      rewrite (IH Ls Lc); [reflexivity|]. cbn [append String.length] in H. lia.
Qed.

Lemma match_key_key (key rest : string) :
  In key ["IngestionEndpoint"; "LiveEndpoint"] ->
  match_key (key ++ String "=" rest) = Some (key, String "=" rest).
Proof. intros [<-|[<-|[]]]; reflexivity. Qed.

(** X23. In the connection string the value of [IngestionEndpoint]
    or [LiveEndpoint] loses its last slash, and only that one, wherever
    that slash is: a trailing slash is removed as intended, and a value
    without a trailing slash loses a slash of its own, so
    [https://host] becomes [https:/host].  The text after the value is
    treated in the same way. *)
Theorem endpoint_loses_its_last_slash (key g w tail : string) :
  In key ["IngestionEndpoint"; "LiveEndpoint"] ->
  g <> "" ->
  lacks ";" g = true -> lacks ";" w = true -> lacks "/" w = true ->
  ends_value tail ->
  sub (key ++ "=" ++ g ++ "/" ++ w ++ tail)
  = key ++ "=" ++ g ++ w ++ sub tail.
Proof.
  intros Hk Hg Lg Lw Sw T.
  assert (M : match_endpoint (key ++ "=" ++ g ++ "/" ++ w ++ tail)
              = Some (key ++ "=" ++ g, w ++ tail)).
  { unfold match_endpoint.
    change (key ++ "=" ++ g ++ "/" ++ w ++ tail)
      with (key ++ String "=" (g ++ String "/" w ++ tail)).
    rewrite (match_key_key key _ Hk).
    replace (g ++ String "/" w ++ tail) with ((g ++ String "/" w) ++ tail)
      by (rewrite app_assoc; reflexivity).
    rewrite span_value_app;
      [|rewrite lacks_app, lacks_cons, Lg, Lw; reflexivity|exact T].
    rewrite (cut_last_slash_app g w Sw).
    destruct g as [|c g]; [contradiction|reflexivity]. }
  unfold sub.
  destruct (String.length (key ++ "=" ++ g ++ "/" ++ w ++ tail)) as [|k] eqn:L.
  { destruct Hk as [<-|[<-|[]]]; discriminate L. }
  assert (Hs : exists c r, key ++ "=" ++ g ++ "/" ++ w ++ tail = String c r)
    by (destruct Hk as [<-|[<-|[]]]; eexists _, _; reflexivity).
  destruct Hs as (c & r & E). cbn [sub_steps]. rewrite E, <- E, M.
  rewrite (sub_steps_plain w tail Sw Lw T).
  - now rewrite !app_assoc.
  - apply match_endpoint_shorter in M. rewrite L in M. lia.
Qed.

Lemma endpoint_loses_its_last_slash_witness :
  sub ("IngestionEndpoint" ++ "=" ++ "https://westus.in.ai.azure.com"
       ++ "/" ++ "" ++ ";LiveEndpoint=https://westus.live.azure.com")
  = "IngestionEndpoint=https://westus.in.ai.azure.com;LiveEndpoint=https:/westus.live.azure.com".
Proof.
  rewrite (endpoint_loses_its_last_slash "IngestionEndpoint"
             "https://westus.in.ai.azure.com" ""
             ";LiveEndpoint=https://westus.live.azure.com");
    try reflexivity; [now left|discriminate|right; now eexists].
Defined.

(** *** Quotes around a value *)

Definition is_quote (c : ascii) : bool :=
  Ascii.eqb c "034" || Ascii.eqb c "'".

(** [s] does not begin with a quote. *)
Definition starts_bare (s : string) : bool :=
  match s with
  | EmptyString => true
  | String c _ => negb (is_quote c)
  end.

(** [s] neither begins nor ends with a quote. *)
Definition bare (s : string) : bool :=
  starts_bare s && starts_bare (rev_str "" s).

Lemma lstrip_char_bare (c : ascii) (s : string) :
  is_quote c = true -> starts_bare s = true -> lstrip_char c s = s.
Proof.
  intros Q B. destruct s as [|x r]; [reflexivity|]. cbn [lstrip_char].
  cbn [starts_bare] in B. apply negb_true_iff in B.
  destruct (Ascii.eqb x c) eqn:E; [|reflexivity].
  apply Ascii.eqb_eq in E. congruence.
Qed.

Lemma strip_char_bare (c : ascii) (s : string) :
  is_quote c = true -> bare s = true -> strip_char c s = s.
Proof.
  intros Q B. apply andb_true_iff in B as [B1 B2].
  unfold strip_char, rstrip_char.
  rewrite (lstrip_char_bare c s Q B1), (lstrip_char_bare c _ Q B2).
  apply rev_str_involutive.
Qed.

Lemma strip_char_wrapped (c : ascii) (s : string) :
  is_quote c = true -> bare s = true ->
  strip_char c (String c (s ++ String c "")) = s.
Proof.
  intros Q B. pose proof B as B'. apply andb_true_iff in B' as [B1 B2].
  unfold strip_char, rstrip_char. cbn [lstrip_char].
  rewrite Ascii.eqb_refl.
  destruct s as [|x r].
  - cbn. now rewrite Ascii.eqb_refl.
  - cbn [append]. cbn [starts_bare] in B1. apply negb_true_iff in B1.
    assert (E : Ascii.eqb x c = false).
    { destruct (Ascii.eqb x c) eqn:E; [|reflexivity].
      apply Ascii.eqb_eq in E. congruence. }
    cbn [lstrip_char]. rewrite E.
    change (String x (r ++ String c "")) with (String x r ++ String c "").
    rewrite rev_str_app.
    change (rev_str "" (String c "")) with (String c "").
    cbn [append lstrip_char]. rewrite Ascii.eqb_refl.
    rewrite (lstrip_char_bare c _ Q B2). apply rev_str_involutive.
Qed.

Lemma strip_other_quote (c d : ascii) (s : string) :
  is_quote d = true -> Ascii.eqb d c = false ->
  strip_char c (String d (s ++ String d "")) = String d (s ++ String d "").
Proof.
  intros Q N. unfold strip_char, rstrip_char. cbn [lstrip_char]. rewrite N.
  change (String d (s ++ String d "")) with (String d s ++ String d "").
  rewrite rev_str_app.
  change (rev_str "" (String d "")) with (String d "").
  cbn [append lstrip_char]. rewrite N.
  change (String d (rev_str "" (String d s)))
    with (String d "" ++ rev_str "" (String d s)).
  rewrite rev_str_app, rev_str_involutive. reflexivity.
Qed.

(** X24. A configuration value wrapped in a pair of double quotes or
    in a pair of single quotes is read without them, and a value that
    neither begins nor ends with a quote is read as it is. *)
Theorem clean_env_value_removes_the_quotes (value : string) :
  bare value = true ->
  clean_env_value value = value
  /\ clean_env_value (dquote ++ value ++ dquote) = value
  /\ clean_env_value ("'" ++ value ++ "'") = value.
Proof.
  intro B. unfold clean_env_value. split; [|split].
  - destruct value as [|c r]; [reflexivity|]. cbn [nonempty].
    rewrite (strip_char_bare "034" _ eq_refl B).
    exact (strip_char_bare "'" _ eq_refl B).
  - unfold dquote. cbn [append nonempty].
    rewrite (strip_char_wrapped "034" value eq_refl B).
    exact (strip_char_bare "'" _ eq_refl B).
  - cbn [append nonempty].
    rewrite (strip_other_quote "034" "'" value eq_refl eq_refl).
    exact (strip_char_wrapped "'" value eq_refl B).
Qed.

Lemma clean_env_value_removes_the_quotes_witness :
  clean_env_value "gpt-4o-mini" = "gpt-4o-mini"
  /\ clean_env_value (dquote ++ "gpt-4o-mini" ++ dquote) = "gpt-4o-mini"
  /\ clean_env_value ("'" ++ "gpt-4o-mini" ++ "'") = "gpt-4o-mini".
Proof.
  apply (clean_env_value_removes_the_quotes "gpt-4o-mini"). reflexivity.
Defined.

End ConfigFacts.
